(** * sfz-gen: the identity-number codec and the region resolver

    A shallow embedding of [src/idGenerator.js] (class [ChineseIdGenerator])
    and the properties its specification states about it.

    Conventions of the embedding.
    - A JavaScript string is the list of its UTF-16 code units ([list N]);
      [lit] turns an ASCII literal into such a list.
    - A JavaScript number is an integer or [NaN] ([number]); the values the
      program computes on (digits, years, counters, indexes) are integers.
      [undefined] is [None] where a value may be absent.
    - [Math.random()] is a double of [0, 1) ([draw]: a significand of at
      most 53 bits over a power of two); its product with an integer is
      the double nearest to the exact product, as the multiplication of
      the language has it, and [Math.floor] is taken of this double.
    - [new Date()] is an input ([Date]) of the functions that read it.
    - The reference data of the package [province-city-china/data] is not
      part of the sources: the four tables are variables of the section.
    - An exception ([throw new Error(...)]) is a value of [Error]; a
      function that can throw or that touches [this] or the random source
      lives in the monad [M].
    - An object used as a dictionary is a finite map of its own
      properties. [commonCities] is read with the name that the caller
      gives, so the read ([get_property]) also finds what every object
      inherits from [Object.prototype]. The two buckets of the fuzzy index
      are written under keys of one to three characters and read only with
      a name that [commonCities] did not answer: no inherited member is
      met there, and the finite map is read as it is.
    - No plugin is registered, and the text generators (names, phone
      numbers, e-mail and street addresses) are left out. *)

From Stdlib Require Import ZArith NArith List Bool Lia String Ascii.
From stdpp Require Import base option list gmap strings.

Local Open Scope Z_scope.

(** ** JavaScript strings *)

Module JS.

Abbreviation jsstring := (list N).

(** An ASCII literal as a string of code units. *)
Definition lit (s : string) : jsstring :=
  (fun a => N_of_ascii a) <$> list_ascii_of_string s.

(** [arr.length] *)
Definition arr_length {A} (l : list A) : Z := Z.of_nat (length l).

(** [s.charAt(i)], the empty string out of range. *)
Definition charAt (s : jsstring) (i : nat) : jsstring :=
  match s !! i with
  | Some c => [c]
  | None => []
  end.

(** [s.substring(a, b)]: both ends are clamped to the length and swapped
    when [a > b]. *)
Definition substring (s : jsstring) (a b : nat) : jsstring :=
  let a' := (a `min` length s)%nat in
  let b' := (b `min` length s)%nat in
  let lo := (a' `min` b')%nat in
  let hi := (a' `max` b')%nat in
  take (hi - lo) (drop lo s).

(** [s.endsWith(t)] *)
Definition endsWith (s t : jsstring) : bool :=
  bool_decide (length t ≤ length s)%nat
  && bool_decide (drop (length s - length t) s = t).

(** [s.padStart(n, c)] for a one-character filler [c]. *)
Definition padStart (s : jsstring) (n : nat) (c : N) : jsstring :=
  replicate (n - length s) c ++ s.

(** [! s]: only the empty string is falsy. *)
Definition falsy (s : jsstring) : bool :=
  match s with
  | [] => true
  | _ => false
  end.

(** The class [\d] of a regular expression: the ASCII digits. *)
Definition is_digit (c : N) : bool := ((48 <=? c) && (c <=? 57))%N.

(** [/^\d{n}$/.test(s)] *)
Definition test_digits (n : nat) (s : jsstring) : bool :=
  bool_decide (length s = n) && forallb is_digit s.

(** ** JavaScript numbers *)

Inductive number : Type :=
  | Num (z : Z)
  | NaN.

#[global] Instance number_eq_dec : EqDecision number.
Proof. solve_decision. Defined.

Definition num_add (x y : number) : number :=
  match x, y with
  | Num a, Num b => Num (a + b)
  | _, _ => NaN
  end.

Definition num_sub (x y : number) : number :=
  match x, y with
  | Num a, Num b => Num (a - b)
  | _, _ => NaN
  end.

Definition num_mul (x y : number) : number :=
  match x, y with
  | Num a, Num b => Num (a * b)
  | _, _ => NaN
  end.

(** [x % m]: the remainder has the sign of the dividend. *)
Definition num_rem (x : number) (m : Z) : number :=
  match x with
  | Num a => if m =? 0 then NaN else Num (Z.rem a m)
  | NaN => NaN
  end.

(** [x < y] and [x === y]; every comparison with [NaN] is false. *)
Definition num_lt (x y : number) : bool :=
  match x, y with
  | Num a, Num b => a <? b
  | _, _ => false
  end.

Definition num_eq (x y : number) : bool :=
  match x, y with
  | Num a, Num b => a =? b
  | _, _ => false
  end.

(** An array element read with a number: [undefined] when the index is not
    an index of the array. *)
Definition index {A} (l : list A) (i : number) : option A :=
  match i with
  | Num z => if z <? 0 then None else l !! Z.to_nat z
  | NaN => None
  end.

(** An element of an array of numbers used as an operand: [undefined]
    becomes [NaN]. *)
Definition operand (o : option Z) : number :=
  match o with
  | Some z => Num z
  | None => NaN
  end.

(** *** [parseInt] without a radix *)

Definition is_whitespace (c : N) : bool :=
  bool_decide (c ∈ [9; 10; 11; 12; 13; 32; 160; 5760; 8192; 8193; 8194; 8195;
                    8196; 8197; 8198; 8199; 8200; 8201; 8202; 8232; 8233;
                    8239; 8287; 12288; 65279]%N).

(** The value of [c] as a digit of the given radix. *)
Definition digit_of (radix : Z) (c : N) : option Z :=
  let v :=
    if ((48 <=? c) && (c <=? 57))%N then Some (Z.of_N c - 48)
    else if ((97 <=? c) && (c <=? 122))%N then Some (Z.of_N c - 87)
    else if ((65 <=? c) && (c <=? 90))%N then Some (Z.of_N c - 55)
    else None in
  match v with
  | Some d => if d <? radix then Some d else None
  | None => None
  end.

(** The longest prefix of digits, read most significant first; [acc] is
    [NaN] as long as no digit was read. *)
Fixpoint parse_digits (radix : Z) (acc : number) (s : jsstring) : number :=
  match s with
  | [] => acc
  | c :: s' =>
      match digit_of radix c with
      | Some d =>
          let before := match acc with Num a => a | NaN => 0 end in
          parse_digits radix (Num (radix * before + d)) s'
      | None => acc
      end
  end.

Fixpoint skip_whitespace (s : jsstring) : jsstring :=
  match s with
  | c :: s' => if is_whitespace c then skip_whitespace s' else s
  | [] => []
  end.

Definition parseInt (s : jsstring) : number :=
  let s1 := skip_whitespace s in
  let '(sign, s2) :=
    match s1 with
    | 45%N :: r => (-1, r)
    | 43%N :: r => (1, r)
    | _ => (1, s1)
    end in
  let '(radix, s3) :=
    match s2 with
    | 48%N :: 120%N :: r => (16, r)
    | 48%N :: 88%N :: r => (16, r)
    | _ => (10, s2)
    end in
  num_mul (Num sign) (parse_digits radix NaN s3).

(** *** [String(n)] and template literals *)

Fixpoint uint_units (d : Decimal.uint) : jsstring :=
  match d with
  | Decimal.Nil => []
  | Decimal.D0 d => 48%N :: uint_units d
  | Decimal.D1 d => 49%N :: uint_units d
  | Decimal.D2 d => 50%N :: uint_units d
  | Decimal.D3 d => 51%N :: uint_units d
  | Decimal.D4 d => 52%N :: uint_units d
  | Decimal.D5 d => 53%N :: uint_units d
  | Decimal.D6 d => 54%N :: uint_units d
  | Decimal.D7 d => 55%N :: uint_units d
  | Decimal.D8 d => 56%N :: uint_units d
  | Decimal.D9 d => 57%N :: uint_units d
  end.

(** [String(x)] of a number (an integer below [10^21] in absolute value,
    where JavaScript prints all the digits). *)
Definition String_of (x : number) : jsstring :=
  match x with
  | Num z =>
      match Z.to_int z with
      | Decimal.Pos d => uint_units d
      | Decimal.Neg d => 45%N :: uint_units d
      end
  | NaN => lit "NaN"
  end.

(** [`${v}`] of a value that may be [undefined]. *)
Definition interpolate (v : option jsstring) : jsstring :=
  match v with
  | Some s => s
  | None => lit "undefined"
  end.

End JS.

Import JS.

(** ** The environment: random numbers, the clock, exceptions *)

(** A value of [Math.random()]: a double of [0, 1), that is
    [numer / 2 ^ scale] with a significand [numer] of at most 53 bits and
    an exponent of at most 1074 (every double of [0, 1) is of this form,
    the subnormal ones for the largest exponent). *)
Record draw : Type := {
  numer : Z;
  scale : Z;
  draw_range :
    (0 <=? numer) && (numer <? 2 ^ 53) && (numer <? 2 ^ scale)
    && (scale <=? 1074) = true
}.

Definition denom (r : draw) : Z := 2 ^ scale r.

(** The double nearest to a natural number [p]: [p] itself below [2 ^ 53],
    and otherwise its 53 leading bits rounded to nearest, a tie going to
    the even significand, followed by zeros. *)
Definition nearest_double (p : Z) : Z :=
  let s := Z.log2 p - 52 in
  if s <=? 0 then p
  else
    let q := p / 2 ^ s in
    let rest := p mod 2 ^ s in
    let half := 2 ^ (s - 1) in
    let q :=
      if (half <? rest) || ((rest =? half) && Z.odd q) then q + 1 else q in
    q * 2 ^ s.

(** [Math.floor(r * n)] for a natural number [n] below [2 ^ 53]. The
    product [r * n] is the double nearest to the exact product
    [numer * n / 2 ^ scale]; the division by a power of two is exact, so
    this is the double nearest to [numer * n], divided by [2 ^ scale]. *)
Definition floor_times (r : draw) (n : Z) : Z :=
  nearest_double (numer r * n) / denom r.

(** [Math.round(r)]: the nearest integer, halves upwards. *)
Definition round (r : draw) : Z := (2 * numer r + denom r) / (2 * denom r).

(** What [new Date()] answers. *)
Record Date : Type := {
  getFullYear : Z;
  getMonth : Z;   (* 0 .. 11 *)
  getDate : Z
}.

(** The exceptions of the class, one per message, and the overflow of the
    call stack. *)
Inductive Error : Type :=
  | Error_areaCode     (* 地区编码必须是6位数字 *)
  | Error_birthday     (* 出生日期必须是8位数字，格式为YYYYMMDD *)
  | Error_gender       (* 性别必须是0(女)或1(男) *)
  | Error_areaName     (* 地区名称不能为空 *)
  | Error_age          (* 年龄必须在0-120之间 *)
  | RangeError_stack   (* Maximum call stack size exceeded *)
  | TypeError.         (* a property read on undefined or null *)

#[global] Instance Error_eq_dec : EqDecision Error.
Proof. solve_decision. Defined.

(** ** The reference data and the generator object *)

Record ProvinceItem : Type := {
  p_code : jsstring; p_name : jsstring; p_province : jsstring
}.

Record CityItem : Type := {
  c_code : jsstring; c_name : jsstring; c_province : jsstring;
  c_city : jsstring
}.

Record AreaItem : Type := {
  a_code : jsstring; a_name : jsstring; a_province : jsstring;
  a_city : jsstring; a_area : jsstring
}.

Record TownItem : Type := {
  t_code : jsstring; t_name : jsstring
}.

(** A [Map] keeps its keys in the order of their first insertion, and the
    class iterates over [areaCodeByName]: an association list. *)
Module InsertionMap.

Definition t : Type := list (jsstring * jsstring).

Fixpoint get (m : t) (k : jsstring) : option jsstring :=
  match m with
  | [] => None
  | (k', v) :: m' => if decide (k = k') then Some v else get m' k
  end.

Definition has (m : t) (k : jsstring) : bool :=
  match get m k with
  | Some _ => true
  | None => false
  end.

Fixpoint set (m : t) (k v : jsstring) : t :=
  match m with
  | [] => [(k, v)]
  | (k', v') :: m' =>
      if decide (k = k') then (k, v) :: m' else (k', v') :: set m' k v
  end.

Definition entries (m : t) : list (jsstring * jsstring) := m.

End InsertionMap.

(** [this._cache.fuzzyAreaNameMap]: two objects from a string to an array
    of codes. *)
Record FuzzyAreaNameMap : Type := {
  prefix : gmap jsstring (list jsstring);
  include : gmap jsstring (list jsstring)
}.

(** The fields of [this] that the codec and the resolver read or write. *)
Record Generator : Type := {
  initialized : bool;
  lazyLoad : bool;
  precomputeFuzzyMatch : bool;
  provinceMap : gmap jsstring ProvinceItem;
  cityMap : gmap jsstring (gmap jsstring CityItem);
  areaMap : gmap jsstring (gmap jsstring (gmap jsstring AreaItem));
  townMap : gmap jsstring (list TownItem);
  areaCodeByName : InsertionMap.t;
  nameByAreaCode : gmap jsstring jsstring;
  randomAreaCodes : option (list jsstring);
  fuzzyAreaNameMap : option FuzzyAreaNameMap
}.

(** ** The monad of the methods: [this], the random source, exceptions *)

Record World : Type := {
  this : Generator;
  entropy : nat -> draw
}.

Definition M (A : Type) : Type := World -> Error + (A * World).

Definition ret {A} (a : A) : M A := fun w => inr (a, w).

Definition bind {A B} (m : M A) (k : A -> M B) : M B :=
  fun w =>
    match m w with
    | inl e => inl e
    | inr (a, w') => k a w'
    end.

Definition throw {A} (e : Error) : M A := fun _ => inl e.

Definition self : M Generator := fun w => inr (this w, w).

Definition update (f : Generator -> Generator) : M unit :=
  fun w => inr (tt, {| this := f (this w); entropy := entropy w |}).

(** [Math.random()]: the next draw of the source. *)
Definition Math_random : M draw :=
  fun w => inr (entropy w 0%nat,
                {| this := this w; entropy := fun n => entropy w (S n) |}).

Declare Scope js_scope.
Delimit Scope js_scope with js.
Notation "x <- m ;; k" := (bind m (fun x => k))
  (at level 100, m at next level, right associativity) : js_scope.
Notation "m ;;; k" := (bind m (fun _ => k))
  (at level 100, right associativity) : js_scope.
Local Open Scope js_scope.

(** [l.forEach(f)] *)
Fixpoint forEach {A} (l : list A) (f : A -> M unit) : M unit :=
  match l with
  | [] => ret tt
  | x :: l' => f x ;;; forEach l' f
  end.

(** [if (c) throw e] *)
Definition throw_if (c : bool) (e : Error) : M unit :=
  if c then throw e else ret tt.

(** ** Field updates of [this] *)

Definition set_initialized (b : bool) (g : Generator) : Generator :=
  {| initialized := b; lazyLoad := lazyLoad g;
     precomputeFuzzyMatch := precomputeFuzzyMatch g;
     provinceMap := provinceMap g; cityMap := cityMap g;
     areaMap := areaMap g; townMap := townMap g;
     areaCodeByName := areaCodeByName g; nameByAreaCode := nameByAreaCode g;
     randomAreaCodes := randomAreaCodes g;
     fuzzyAreaNameMap := fuzzyAreaNameMap g |}.

Definition set_provinceMap (m : gmap jsstring ProvinceItem) (g : Generator)
  : Generator :=
  {| initialized := initialized g; lazyLoad := lazyLoad g;
     precomputeFuzzyMatch := precomputeFuzzyMatch g;
     provinceMap := m; cityMap := cityMap g;
     areaMap := areaMap g; townMap := townMap g;
     areaCodeByName := areaCodeByName g; nameByAreaCode := nameByAreaCode g;
     randomAreaCodes := randomAreaCodes g;
     fuzzyAreaNameMap := fuzzyAreaNameMap g |}.

Definition set_cityMap (m : gmap jsstring (gmap jsstring CityItem))
  (g : Generator) : Generator :=
  {| initialized := initialized g; lazyLoad := lazyLoad g;
     precomputeFuzzyMatch := precomputeFuzzyMatch g;
     provinceMap := provinceMap g; cityMap := m;
     areaMap := areaMap g; townMap := townMap g;
     areaCodeByName := areaCodeByName g; nameByAreaCode := nameByAreaCode g;
     randomAreaCodes := randomAreaCodes g;
     fuzzyAreaNameMap := fuzzyAreaNameMap g |}.

Definition set_areaMap
  (m : gmap jsstring (gmap jsstring (gmap jsstring AreaItem)))
  (g : Generator) : Generator :=
  {| initialized := initialized g; lazyLoad := lazyLoad g;
     precomputeFuzzyMatch := precomputeFuzzyMatch g;
     provinceMap := provinceMap g; cityMap := cityMap g;
     areaMap := m; townMap := townMap g;
     areaCodeByName := areaCodeByName g; nameByAreaCode := nameByAreaCode g;
     randomAreaCodes := randomAreaCodes g;
     fuzzyAreaNameMap := fuzzyAreaNameMap g |}.

Definition set_townMap (m : gmap jsstring (list TownItem)) (g : Generator)
  : Generator :=
  {| initialized := initialized g; lazyLoad := lazyLoad g;
     precomputeFuzzyMatch := precomputeFuzzyMatch g;
     provinceMap := provinceMap g; cityMap := cityMap g;
     areaMap := areaMap g; townMap := m;
     areaCodeByName := areaCodeByName g; nameByAreaCode := nameByAreaCode g;
     randomAreaCodes := randomAreaCodes g;
     fuzzyAreaNameMap := fuzzyAreaNameMap g |}.

Definition set_areaCodeMapping (byName : InsertionMap.t)
  (byCode : gmap jsstring jsstring) (g : Generator) : Generator :=
  {| initialized := initialized g; lazyLoad := lazyLoad g;
     precomputeFuzzyMatch := precomputeFuzzyMatch g;
     provinceMap := provinceMap g; cityMap := cityMap g;
     areaMap := areaMap g; townMap := townMap g;
     areaCodeByName := byName; nameByAreaCode := byCode;
     randomAreaCodes := randomAreaCodes g;
     fuzzyAreaNameMap := fuzzyAreaNameMap g |}.

Definition set_randomAreaCodes (codes : option (list jsstring))
  (g : Generator) : Generator :=
  {| initialized := initialized g; lazyLoad := lazyLoad g;
     precomputeFuzzyMatch := precomputeFuzzyMatch g;
     provinceMap := provinceMap g; cityMap := cityMap g;
     areaMap := areaMap g; townMap := townMap g;
     areaCodeByName := areaCodeByName g; nameByAreaCode := nameByAreaCode g;
     randomAreaCodes := codes;
     fuzzyAreaNameMap := fuzzyAreaNameMap g |}.

Definition set_fuzzyAreaNameMap (fz : option FuzzyAreaNameMap)
  (g : Generator) : Generator :=
  {| initialized := initialized g; lazyLoad := lazyLoad g;
     precomputeFuzzyMatch := precomputeFuzzyMatch g;
     provinceMap := provinceMap g; cityMap := cityMap g;
     areaMap := areaMap g; townMap := townMap g;
     areaCodeByName := areaCodeByName g; nameByAreaCode := nameByAreaCode g;
     randomAreaCodes := randomAreaCodes g;
     fuzzyAreaNameMap := fz |}.

(** [arr.includes(x)] *)
Definition includes `{EqDecision A} (l : list A) (x : A) : bool :=
  bool_decide (x ∈ l).

(** ** Objects used as dictionaries *)

(** The names of the members that every object inherits from
    [Object.prototype]: eleven functions, and the accessor [__proto__],
    which answers the prototype itself. *)
Definition Object_prototype : list jsstring :=
  [lit "constructor"; lit "__defineGetter__"; lit "__defineSetter__";
   lit "hasOwnProperty"; lit "__lookupGetter__"; lit "__lookupSetter__";
   lit "isPrototypeOf"; lit "propertyIsEnumerable"; lit "toString";
   lit "valueOf"; lit "__proto__"; lit "toLocaleString"].

(** What the resolver of names finds: a code, or the member of
    [Object.prototype] that [commonCities] inherits under the name. *)
Inductive Resolved : Type :=
  | Code (code : jsstring)
  | Inherited (key : jsstring).

#[global] Instance Resolved_eq_dec : EqDecision Resolved.
Proof. solve_decision. Defined.

(** [obj[key]] on an object literal whose own properties are the strings
    [own]: the own property first, then the prototype; [undefined] is
    [None]. *)
Definition get_property (own : gmap jsstring jsstring) (key : jsstring)
  : option Resolved :=
  match own !! key with
  | Some value => Some (Code value)
  | None => if includes Object_prototype key then Some (Inherited key)
            else None
  end.

(** ** The constants of the constructor *)

(** [this.commonCities]: 北京, 上海, 天津, 重庆, 广州, 深圳, 武汉, 南京, 杭州,
    西安, 成都. *)
Definition commonCities : gmap jsstring jsstring :=
  list_to_map
    [ ([21271; 20140]%N, lit "110000");
      ([19978; 28023]%N, lit "310000");
      ([22825; 27941]%N, lit "120000");
      ([37325; 24198]%N, lit "500000");
      ([24191; 24030]%N, lit "440100");
      ([28145; 22323]%N, lit "440300");
      ([27494; 27721]%N, lit "420100");
      ([21335; 20140]%N, lit "320100");
      ([26477; 24030]%N, lit "330100");
      ([35199; 23433]%N, lit "610100");
      ([25104; 37117]%N, lit "510100") ].

Definition ID_WEIGHTS : list Z :=
  [7; 9; 10; 5; 8; 4; 2; 1; 6; 3; 7; 9; 10; 5; 8; 4; 2].

Definition ID_CHECK_CODES : list jsstring :=
  [lit "1"; lit "0"; lit "X"; lit "9"; lit "8"; lit "7"; lit "6"; lit "5";
   lit "4"; lit "3"; lit "2"].

(** 北京、天津、上海、重庆 *)
Definition DIRECT_CITIES : list jsstring :=
  [lit "11"; lit "12"; lit "31"; lit "50"].

(** The name 市辖区 of a placeholder district. *)
Definition municipal_district : jsstring := [24066; 36758; 21306]%N.

(** 未知地区, 男, 女 *)
Definition unknown_area : jsstring := [26410; 30693; 22320; 21306]%N.
Definition male : jsstring := [30007]%N.
Definition female : jsstring := [22899]%N.


(** ** The class [ChineseIdGenerator] *)

(** The options of [generateIdCard], with the types of its documentation:
    two strings and a number, each of them optional. *)
Record IdCardOptions : Type := {
  areaCode : option jsstring;
  birthday : option jsstring;
  gender : option number
}.

(** What [_extractInfoFromIdCard] returns. *)
Record BirthInfo : Type := {
  birthYear : number;
  birthMonth : number;
  birthDay : number;
  age : number;
  formattedBirthDate : jsstring
}.

(** The fields of a person that come from the identity number; the name,
    the phone number, the e-mail and the street address are made by the
    text generators, which are not part of this development. *)
Record PersonInfo : Type := {
  person_gender : jsstring;
  person_age : number;
  person_birthDate : jsstring;
  person_idCard : jsstring;
  person_areaName : jsstring
}.

(** [_pad(num, length)] *)
Definition _pad (num : number) (len : nat) : jsstring :=
  padStart (String_of num) len 48%N.

(** [_isLeapYear(year)] *)
Definition _isLeapYear (year : number) : bool :=
  (num_eq (num_rem year 4) (Num 0) && negb (num_eq (num_rem year 100) (Num 0)))
  || num_eq (num_rem year 400) (Num 0).

(** [_calculateCheckCode(idCardBase)]: [undefined] ([None]) when the sum
    is [NaN]. *)
Definition _calculateCheckCode (idCardBase : jsstring) : option jsstring :=
  let sum :=
    foldl (fun sum i =>
             num_add sum (num_mul (parseInt (charAt idCardBase i))
                                  (operand (ID_WEIGHTS !! i))))
          (Num 0) (seq 0 17) in
  index ID_CHECK_CODES (num_rem sum 11).

(** [_validateIdCardOptions(options)] *)
Definition _validateIdCardOptions (options : IdCardOptions) : M unit :=
  throw_if (match areaCode options with
            | Some s => negb (falsy s) && negb (test_digits 6 s)
            | None => false
            end) Error_areaCode ;;;
  throw_if (match birthday options with
            | Some s => negb (falsy s) && negb (test_digits 8 s)
            | None => false
            end) Error_birthday ;;;
  throw_if (match gender options with
            | Some x => negb (includes [Num 0; Num 1] x)
            | None => false
            end) Error_gender.

(** [_generateSequenceCode(gender)] *)
Definition _generateSequenceCode (gender : number) : M jsstring :=
  r <- Math_random ;;
  let num := floor_times r 999 + 1 in
  let isOdd := Z.rem num 2 =? 1 in
  let num :=
    if (num_eq gender (Num 1) && negb isOdd)
       || (num_eq gender (Num 0) && isOdd)
    then
      let num := num + (if num_eq gender (Num 1) then 1 else -1) in
      let num := if 999 <? num then 999 else num in
      let num := if num <? 1 then 2 else num in
      num
    else num in
  ret (_pad (Num num) 3).

(** [_getRandomBirthday()] *)
Definition _getRandomBirthday : M jsstring :=
  let minYear := 1950 in
  let maxYear := 2005 in
  r <- Math_random ;;
  let year := minYear + floor_times r (maxYear - minYear + 1) in
  r <- Math_random ;;
  let month := _pad (Num (floor_times r 12 + 1)) 2 in
  let maxDay :=
    if includes [lit "04"; lit "06"; lit "09"; lit "11"] month then 30
    else if bool_decide (month = lit "02")
         then (if _isLeapYear (Num year) then 29 else 28)
         else 31 in
  r <- Math_random ;;
  let day := _pad (Num (floor_times r maxDay + 1)) 2 in
  ret (String_of (Num year) ++ month ++ day).

(** [_getBirthdayFromAge(age)] *)
Definition _getBirthdayFromAge (today : Date) (age : number) : M jsstring :=
  let birthYear := num_sub (Num (getFullYear today)) age in
  r <- Math_random ;;
  let month := _pad (Num (floor_times r 12 + 1)) 2 in
  let maxDay :=
    if includes [lit "04"; lit "06"; lit "09"; lit "11"] month then 30
    else if bool_decide (month = lit "02")
         then (if _isLeapYear birthYear then 29 else 28)
         else 31 in
  r <- Math_random ;;
  let day := _pad (Num (floor_times r maxDay + 1)) 2 in
  ret (String_of birthYear ++ month ++ day).

(** [_extractInfoFromIdCard(idCard)] *)
Definition _extractInfoFromIdCard (today : Date) (idCard : jsstring)
  : BirthInfo :=
  let birthYear := parseInt (substring idCard 6 10) in
  let birthMonth := parseInt (substring idCard 10 12) in
  let birthDay := parseInt (substring idCard 12 14) in
  let age := num_sub (Num (getFullYear today)) birthYear in
  let age :=
    if num_lt (Num (getMonth today + 1)) birthMonth
       || (num_eq (Num (getMonth today + 1)) birthMonth
           && num_lt (Num (getDate today)) birthDay)
    then num_sub age (Num 1)
    else age in
  {| birthYear := birthYear; birthMonth := birthMonth; birthDay := birthDay;
     age := age;
     formattedBirthDate :=
       String_of birthYear ++ lit "-" ++ _pad birthMonth 2 ++ lit "-"
       ++ _pad birthDay 2 |}.

(** [_addAreaCodeMapping(code, name)] *)
Definition _addAreaCodeMapping (code name : jsstring) : M unit :=
  update (fun g =>
    let byName :=
      if negb (InsertionMap.has (areaCodeByName g) name)
      then InsertionMap.set (areaCodeByName g) name code
      else areaCodeByName g in
    set_areaCodeMapping byName (<[code := name]> (nameByAreaCode g)) g).

(** One more entry of a bucket of the fuzzy index: the bucket is created
    when it is missing and the code is pushed unless it is there. *)
Definition bucket_push (m : gmap jsstring (list jsstring))
  (key code : jsstring) : gmap jsstring (list jsstring) :=
  let bucket := default [] (m !! key) in
  if negb (includes bucket code)
  then <[key := bucket ++ [code]]> m
  else <[key := bucket]> m.

(** The body of the loop of [_buildFuzzyAreaNameCache] for one entry. *)
Definition fuzzy_entry (fz : FuzzyAreaNameMap) (entry : jsstring * jsstring)
  : FuzzyAreaNameMap :=
  let '(name, code) := entry in
  let fz :=
    if (1 <? length name)%nat then
      foldl (fun fz i =>
               {| prefix := bucket_push (prefix fz) (substring name 0 i) code;
                  include := include fz |})
            fz (seq 1 (length name `min` 3))
    else fz in
  foldl (fun fz i =>
           {| prefix := prefix fz;
              include := bucket_push (include fz) (charAt name i) code |})
        fz (seq 0 (length name)).

(** [_buildFuzzyAreaNameCache()] *)
Definition _buildFuzzyAreaNameCache : M unit :=
  update (set_fuzzyAreaNameMap (Some {| prefix := ∅; include := ∅ |})) ;;;
  g <- self ;;
  match fuzzyAreaNameMap g with
  | Some fz =>
      update (set_fuzzyAreaNameMap
                (Some (foldl fuzzy_entry fz
                             (InsertionMap.entries (areaCodeByName g)))))
  | None => throw TypeError
  end.

Section Class.

(** The tables of [require('province-city-china/data')]. *)
Variable province : list ProvinceItem.
Variable city : list CityItem.
Variable area : list AreaItem.
Variable town : list TownItem.

(** [_getProvinceName(provinceCode)]. While [this.initialized] is false and
    the map has no such province, [_ensureInitialized()] starts [_initData]
    again, which comes back to this very call: the recursion has no end and
    the engine throws [RangeError]. *)
Definition _getProvinceName (provinceCode : jsstring) : M jsstring :=
  g <- self ;;
  match negb (initialized g), provinceMap g !! provinceCode with
  | true, Some province => ret (p_name province)
  | true, None => throw RangeError_stack
  | false, Some province => ret (p_name province)
  | false, None => ret []
  end.

(** [_getCityInfo(provinceCode, cityCode)] *)
Definition _getCityInfo (provinceCode cityCode : jsstring)
  : M (option CityItem) :=
  g <- self ;;
  ret (match cityMap g !! provinceCode with
       | Some cities => cities !! cityCode
       | None => None
       end).

(** [_buildProvinceMaps()] *)
Definition _buildProvinceMaps : M unit :=
  forEach province (fun p =>
    update (fun g => set_provinceMap (<[p_province p := p]> (provinceMap g)) g) ;;;
    _addAreaCodeMapping (p_code p) (p_name p)).

(** [_buildCityMaps()] *)
Definition _buildCityMaps : M unit :=
  forEach city (fun c =>
    update (fun g =>
      let cities := default ∅ (cityMap g !! c_province c) in
      set_cityMap (<[c_province c := <[c_city c := c]> cities]> (cityMap g)) g) ;;;
    provinceName <- _getProvinceName (c_province c) ;;
    let fullName := provinceName ++ c_name c in
    _addAreaCodeMapping (c_code c) fullName ;;;
    _addAreaCodeMapping (c_code c) (c_name c)).

(** [_buildAreaMaps()] *)
Definition _buildAreaMaps : M unit :=
  forEach area (fun a =>
    update (fun g =>
      let cities := default ∅ (areaMap g !! a_province a) in
      let areas := default ∅ (cities !! a_city a) in
      set_areaMap
        (<[a_province a := <[a_city a := <[a_area a := a]> areas]> cities]>
           (areaMap g)) g) ;;;
    provinceName <- _getProvinceName (a_province a) ;;
    cityInfo <- _getCityInfo (a_province a) (a_city a) ;;
    let cityName := match cityInfo with Some c => c_name c | None => [] end in
    let fullName := provinceName ++ cityName ++ a_name a in
    _addAreaCodeMapping (a_code a) fullName ;;;
    _addAreaCodeMapping (a_code a) (a_name a)).

(** [_buildTownMaps()] *)
Definition _buildTownMaps : M unit :=
  forEach town (fun t =>
    update (fun g =>
      let towns := default [] (townMap g !! t_code t) in
      set_townMap (<[t_code t := towns ++ [t]]> (townMap g)) g)).

(** [_initData()] *)
Definition _initData : M unit :=
  g <- self ;;
  if initialized g then ret tt
  else
    _buildProvinceMaps ;;;
    _buildCityMaps ;;;
    _buildAreaMaps ;;;
    _buildTownMaps ;;;
    update (set_initialized true).

(** [_ensureInitialized()] *)
Definition _ensureInitialized : M unit :=
  g <- self ;;
  if negb (initialized g) then _initData else ret tt.

(** [new ChineseIdGenerator({lazyLoad, precomputeFuzzyMatch})] *)
Definition constructor (lazy precompute : bool) : M unit :=
  update (fun _ =>
    {| initialized := false; lazyLoad := lazy;
       precomputeFuzzyMatch := precompute;
       provinceMap := ∅; cityMap := ∅; areaMap := ∅; townMap := ∅;
       areaCodeByName := []; nameByAreaCode := ∅;
       randomAreaCodes := None; fuzzyAreaNameMap := None |}) ;;;
  if negb lazy then
    _initData ;;;
    if precompute then _buildFuzzyAreaNameCache else ret tt
  else ret tt.

(** [_getAreaNameByCode(areaCode)] *)
Definition _getAreaNameByCode (areaCode : jsstring) : M (option jsstring) :=
  _ensureInitialized ;;;
  g <- self ;;
  ret (match nameByAreaCode g !! areaCode with
       | Some (c :: s) => Some (c :: s)
       | _ => None
       end).

(** [_getRandomAreaCode()]: [undefined] when the list of codes is empty. *)
Definition _getRandomAreaCode : M (option jsstring) :=
  _ensureInitialized ;;;
  g <- self ;;
  (if randomAreaCodes g is None then
     update (set_randomAreaCodes
               (Some (a_code <$>
                        List.filter
                          (fun areaItem =>
                             negb (endsWith (a_code areaItem) (lit "00")))
                          area)))
   else ret tt) ;;;
  g <- self ;;
  match randomAreaCodes g with
  | Some codes =>
      r <- Math_random ;;
      ret (index codes (Num (floor_times r (arr_length codes))))
  | None => throw TypeError
  end.

(** [generateIdCard(options)] *)
Definition generateIdCard (options : IdCardOptions) : M jsstring :=
  _ensureInitialized ;;;
  _validateIdCardOptions options ;;;
  areaCode <- match areaCode options with
              | Some (c :: s) => ret (Some (c :: s))
              | _ => _getRandomAreaCode
              end ;;
  birthday <- match birthday options with
              | Some (c :: s) => ret (c :: s)
              | _ => _getRandomBirthday
              end ;;
  gender <- match gender options with
            | Some x => ret x
            | None => r <- Math_random ;; ret (Num (round r))
            end ;;
  sequenceCode <- _generateSequenceCode gender ;;
  let idCardBase := interpolate areaCode ++ birthday ++ sequenceCode in
  let checkCode := _calculateCheckCode idCardBase in
  ret (idCardBase ++ interpolate checkCode).

(** [/^\d{4}00$/.test(s)] *)
Definition test_city_level (s : jsstring) : bool :=
  bool_decide (length s = 6%nat) && forallb is_digit (take 4 s)
  && bool_decide (drop 4 s = lit "00").

(** [_resolveDistrictCode(areaCode)] *)
Definition _resolveDistrictCode (areaCode : jsstring) : M jsstring :=
  if test_city_level areaCode then
    let provinceCode := substring areaCode 0 2 in
    let cityCode := substring areaCode 2 4 in
    let isDirectCity := includes DIRECT_CITIES provinceCode in
    let districts :=
      if isDirectCity then
        List.filter (fun a =>
                       bool_decide (a_province a = provinceCode)
                       && negb (bool_decide (a_name a = municipal_district)))
                    area
      else
        List.filter (fun a =>
                       bool_decide (a_province a = provinceCode)
                       && bool_decide (a_city a = cityCode)
                       && negb (bool_decide (a_name a = municipal_district)))
                    area in
    if 0 <? arr_length districts then
      r <- Math_random ;;
      match index districts (Num (floor_times r (arr_length districts))) with
      | Some randomDistrict => ret (a_code randomDistrict)
      | None => throw TypeError
      end
    else ret areaCode
  else ret areaCode.

(** [_getAreaCodeByName(areaName)]: [null] is [None]. The values of
    [commonCities], its own codes and the members it inherits, are all
    truthy. *)
Definition _getAreaCodeByName (areaName : jsstring) : M (option Resolved) :=
  _ensureInitialized ;;;
  g <- self ;;
  if InsertionMap.has (areaCodeByName g) areaName then
    ret (Code <$> InsertionMap.get (areaCodeByName g) areaName)
  else
    match get_property commonCities areaName with
    | Some value => ret (Some value)
    | None =>
        (if fuzzyAreaNameMap g is None then _buildFuzzyAreaNameCache
         else ret tt) ;;;
        g <- self ;;
        match fuzzyAreaNameMap g with
        | None => throw TypeError
        | Some fz =>
            match prefix fz !! areaName with
            | Some (first :: _) => ret (Some (Code first))
            | _ =>
                match include fz !! areaName with
                | Some (first :: _) => ret (Some (Code first))
                | _ => ret None
                end
            end
        end
    end.

(** [generatePersonInfo(options)], without a registered plugin. *)
Definition generatePersonInfo (today : Date) (options : IdCardOptions)
  : M PersonInfo :=
  _ensureInitialized ;;;
  gender <- match gender options with
            | Some x => ret x
            | None => r <- Math_random ;; ret (Num (round r))
            end ;;
  idCard <- generateIdCard {| areaCode := areaCode options;
                              birthday := birthday options;
                              gender := Some gender |} ;;
  let info := _extractInfoFromIdCard today idCard in
  let areaCode := substring idCard 0 6 in
  found <- _getAreaNameByCode areaCode ;;
  let areaName := match found with Some n => n | None => unknown_area end in
  ret {| person_gender := if num_eq gender (Num 1) then male else female;
         person_age := age info;
         person_birthDate := formattedBirthDate info;
         person_idCard := idCard;
         person_areaName := areaName |}.

(** [generatePersonInfoByAreaAndAge(areaName, age, options)]; [age] is
    [None] when the argument is [undefined]. *)
Definition generatePersonInfoByAreaAndAge (today : Date)
  (areaName : jsstring) (age : option number) (options : IdCardOptions)
  : M PersonInfo :=
  _ensureInitialized ;;;
  throw_if (falsy areaName) Error_areaName ;;;
  match age with
  | None => throw Error_age
  | Some age =>
      throw_if (num_lt age (Num 0) || num_lt (Num 120) age) Error_age ;;;
      found <- _getAreaCodeByName areaName ;;
      match found with
      | Some (Inherited _) =>
          (* A function, or [Object.prototype], is truthy, and its text
             matches neither [/^\d{4}00$/] nor [/^\d{6}$/]:
             [_resolveDistrictCode] hands it back, and
             [_validateIdCardOptions], which [generatePersonInfo] comes to
             through [generateIdCard], throws on it. *)
          _getBirthdayFromAge today age ;;;
          _ensureInitialized ;;;
          match gender options with
          | Some x => ret x
          | None => r <- Math_random ;; ret (Num (round r))
          end ;;;
          _ensureInitialized ;;;
          throw Error_areaCode
      | _ =>
          let areaCode :=
            match found with
            | Some (Code (c :: s)) => c :: s
            | _ => lit "110101"
            end in
          areaCode <- _resolveDistrictCode areaCode ;;
          birthday <- _getBirthdayFromAge today age ;;
          generatePersonInfo today {| areaCode := Some areaCode;
                                      birthday := Some birthday;
                                      gender := gender options |}
      end
  end.

End Class.

(** ** The specification's own words *)

Module Spec.

(** The weights of the seventeen positions and the table of check
    characters ['1','0','X','9','8','7','6','5','4','3','2']. *)
Definition weights : list Z :=
  [7; 9; 10; 5; 8; 4; 2; 1; 6; 3; 7; 9; 10; 5; 8; 4; 2].

Definition check_table : jsstring :=
  [49; 48; 88; 57; 56; 55; 54; 53; 52; 51; 50]%N.

Definition digit_value (c : N) : Z := Z.of_N c - 48.

(** The weighted sum of the digits. *)
Definition weighted_sum (digits : jsstring) : Z :=
  foldr Z.add 0 (zip_with (fun c w => digit_value c * w) digits weights).

(** The check character of seventeen digits. *)
Definition check_code (digits : jsstring) : option N :=
  check_table !! Z.to_nat (weighted_sum digits `mod` 11).

(** [verifyChecksum(number)]: eighteen characters, seventeen digits and the
    check character of these digits. *)
Definition verifyChecksum (number : jsstring) : bool :=
  bool_decide (length number = 18%nat)
  && forallb is_digit (take 17 number)
  && bool_decide (number !! 17%nat = check_code (take 17 number)).

(** The number that a string of decimal digits denotes. *)
Definition decimal_value (s : jsstring) : Z :=
  foldl (fun acc c => 10 * acc + digit_value c) 0 s.

(** The decimal digits of [n] on [width] positions. *)
Fixpoint decimal (width : nat) (n : Z) : jsstring :=
  match width with
  | O => []
  | S w => decimal w (n / 10) ++ [Z.to_N (48 + n `mod` 10)]
  end.

(** The Gregorian rule. *)
Definition leap_year (y : Z) : Prop :=
  (y `mod` 4 = 0 ∧ y `mod` 100 ≠ 0) ∨ y `mod` 400 = 0.

#[global] Instance leap_year_dec y : Decision (leap_year y).
Proof. unfold leap_year. apply _. Defined.

Definition days_in_month (y m : Z) : Z :=
  if bool_decide (m ∈ [4; 6; 9; 11]) then 30
  else if bool_decide (m = 2) then (if decide (leap_year y) then 29 else 28)
  else 31.

End Spec.

Module SpecAge.

(** The birthday of month [m], day [d] is still to come this year. *)
Definition birthday_pending (today : Date) (m d : Z) : Prop :=
  getMonth today + 1 < m \/ (getMonth today + 1 = m /\ getDate today < d).

#[global] Instance birthday_pending_dec today m d :
  Decision (birthday_pending today m d).
Proof. unfold birthday_pending. apply _. Defined.

(** The age today of somebody born on [y]-[m]-[d]. *)
Definition age_on (today : Date) (y m d : Z) : Z :=
  getFullYear today - y
  - (if decide (birthday_pending today m d) then 1 else 0).

(** Month and day of the day after [today], when it is in the same year. *)
Definition tomorrow (today : Date) : option (Z * Z) :=
  let m := getMonth today + 1 in
  if getDate today <? Spec.days_in_month (getFullYear today) m
  then Some (m, getDate today + 1)
  else if m <? 12 then Some (m + 1, 1) else None.

(** The birth date that the digits 7 to 14 of an identity number denote. *)
Definition birth_year_of (number : jsstring) : Z :=
  Spec.decimal_value (take 4 (drop 6 number)).
Definition birth_month_of (number : jsstring) : Z :=
  Spec.decimal_value (take 2 (drop 10 number)).
Definition birth_day_of (number : jsstring) : Z :=
  Spec.decimal_value (take 2 (drop 12 number)).

End SpecAge.

Module SpecRegion.





End SpecRegion.

Module SpecIndex.

(** The name of a province and of a city in the tables of the hierarchy
    (empty when the unit is unknown). *)
Definition province_name (pm : gmap jsstring ProvinceItem)
  (provinceCode : jsstring) : jsstring :=
  match pm !! provinceCode with
  | Some p => p_name p
  | None => []
  end.

Definition city_name (cm : gmap jsstring (gmap jsstring CityItem))
  (provinceCode cityCode : jsstring) : jsstring :=
  match cm !! provinceCode with
  | Some cities =>
      match cities !! cityCode with
      | Some c => c_name c
      | None => []
      end
  | None => []
  end.

(** The insertions (code, name) of the traversal province, city,
    district, in their order: a province under its name, a city and a
    district under the fully-qualified name and then under the bare name. *)
Definition province_insertions (province : list ProvinceItem)
  : list (jsstring * jsstring) :=
  (fun p => (p_code p, p_name p)) <$> province.

Definition city_insertions (pm : gmap jsstring ProvinceItem)
  (city : list CityItem) : list (jsstring * jsstring) :=
  city ≫= fun c =>
    [ (c_code c, province_name pm (c_province c) ++ c_name c);
      (c_code c, c_name c) ].

Definition area_insertions (pm : gmap jsstring ProvinceItem)
  (cm : gmap jsstring (gmap jsstring CityItem)) (area : list AreaItem)
  : list (jsstring * jsstring) :=
  area ≫= fun a =>
    [ (a_code a,
       province_name pm (a_province a)
       ++ city_name cm (a_province a) (a_city a) ++ a_name a);
      (a_code a, a_name a) ].

Definition insertions (province : list ProvinceItem) (city : list CityItem)
  (area : list AreaItem) (pm : gmap jsstring ProvinceItem)
  (cm : gmap jsstring (gmap jsstring CityItem))
  : list (jsstring * jsstring) :=
  province_insertions province ++ city_insertions pm city
  ++ area_insertions pm cm area.

(** The code of the first insertion under [name], and the name of the last
    insertion of [code]. *)
Definition first_code (ins : list (jsstring * jsstring)) (name : jsstring)
  : option jsstring :=
  fst <$> find (fun i => bool_decide (snd i = name)) ins.

Definition last_name (ins : list (jsstring * jsstring)) (code : jsstring)
  : option jsstring :=
  snd <$> find (fun i => bool_decide (fst i = code)) (reverse ins).

(** The two caches hold what the insertions [ins] leave: first write wins
    for a name, last write wins for a code. *)
Definition indexed (ins : list (jsstring * jsstring)) (g : Generator)
  : Prop :=
  NoDup (fst <$> InsertionMap.entries (areaCodeByName g))
  /\ (forall name,
        InsertionMap.get (areaCodeByName g) name = first_code ins name)
  /\ (forall code, nameByAreaCode g !! code = last_name ins code).

End SpecIndex.

Module SpecResolve.

(** The code of the first entry, in insertion order, whose name
    satisfies [P]. *)
Definition first_entry (P : jsstring -> bool)
  (entries : list (jsstring * jsstring)) : option jsstring :=
  snd <$> find (fun e => P (fst e)) entries.

(** [key] is one of the prefixes of length 1 to 3 of [name], a name of
    more than one character. *)
Definition prefix_key (key name : jsstring) : bool :=
  (1 <? length name)%nat && (1 <=? length key)%nat
  && (length key <=? 3)%nat && bool_decide (take (length key) name = key).

(** [key] is one character, which occurs in [name]. *)
Definition char_key (key name : jsstring) : bool :=
  match key with
  | [c] => bool_decide (c ∈ name)
  | _ => false
  end.

(** The four tiers as the code has them: exact index, alias table (an
    object, with the members it inherits), prefix bucket of the whole
    input, inclusion bucket of the whole input. *)
Definition resolve (entries : list (jsstring * jsstring))
  (name : jsstring) : option Resolved :=
  match InsertionMap.get entries name with
  | Some code => Some (Code code)
  | None =>
      match get_property commonCities name with
      | Some value => Some value
      | None =>
          match first_entry (prefix_key name) entries with
          | Some code => Some (Code code)
          | None => Code <$> first_entry (char_key name) entries
          end
      end
  end.



End SpecResolve.

(** ** A small table of reference data, for examples *)

Module Sample.

(** The double [a / 2 ^ k]. *)
Definition double (a k : Z)
  (H : (0 <=? a) && (a <? 2 ^ 53) && (a <? 2 ^ k) && (k <=? 1074) = true)
  : draw :=
  {| numer := a; scale := k; draw_range := H |}.

(** 北京市, 湖北省 *)
Definition province : list ProvinceItem :=
  [ {| p_code := lit "110000"; p_name := [21271; 20140; 24066]%N;
       p_province := lit "11" |};
    {| p_code := lit "420000"; p_name := [28246; 21271; 30465]%N;
       p_province := lit "42" |} ].

(** 武汉市 *)
Definition city : list CityItem :=
  [ {| c_code := lit "420100"; c_name := [27494; 27721; 24066]%N;
       c_province := lit "42"; c_city := lit "01" |} ].

(** 东城区, 市辖区, 江岸区 *)
Definition area : list AreaItem :=
  [ {| a_code := lit "110101"; a_name := [19996; 22478; 21306]%N;
       a_province := lit "11"; a_city := lit "01"; a_area := lit "01" |};
    {| a_code := lit "420101"; a_name := municipal_district;
       a_province := lit "42"; a_city := lit "01"; a_area := lit "01" |};
    {| a_code := lit "420102"; a_name := [27743; 23736; 21306]%N;
       a_province := lit "42"; a_city := lit "01"; a_area := lit "02" |} ].

Definition town : list TownItem :=
  [ {| t_code := lit "110101"; t_name := [19996; 21326; 38376]%N |} ].

(** A random source: 0, 29/32, 1/8, 63/64, then 1/2 for ever. *)
Definition draws : nat -> draw :=
  fun n =>
    match n with
    | 0%nat => double 0 0 eq_refl
    | 1%nat => double 29 5 eq_refl
    | 2%nat => double 1 3 eq_refl
    | 3%nat => double 63 6 eq_refl
    | _ => double 1 1 eq_refl
    end.

(** The object before its constructor ran. *)
Definition blank : Generator :=
  {| initialized := false; lazyLoad := false; precomputeFuzzyMatch := false;
     provinceMap := ∅; cityMap := ∅; areaMap := ∅; townMap := ∅;
     areaCodeByName := []; nameByAreaCode := ∅;
     randomAreaCodes := None; fuzzyAreaNameMap := None |}.

(** The world after [new ChineseIdGenerator()]. *)
Definition world : World :=
  match constructor province city area town false false
          {| this := blank; entropy := draws |} with
  | inr (_, w) => w
  | inl _ => {| this := blank; entropy := draws |}
  end.

(** The world of a generator made with [lazyLoad: true]. *)
Definition lazy_world : World :=
  {| this := blank; entropy := draws |}.

Definition today : Date :=
  {| getFullYear := 2026; getMonth := 10; getDate := 3 |}.

End Sample.

(** ** Checking a property on a range of integers by computation *)

Definition check_range (P : Z -> bool) (lo : Z) (len : nat) : bool :=
  forallb (fun k => P (lo + Z.of_nat k)) (seq 0 len).

Definition same_string (s t : jsstring) : bool := bool_decide (s = t).

(** ** Random sources that hit a chosen value *)

(** The double [a / 2 ^ 52], and [0] when [a] is out of range. *)
Definition double_of (a : Z) : draw :=
  match decide ((0 <=? a) && (a <? 2 ^ 53) && (a <? 2 ^ 52)
                && (52 <=? 1074) = true) with
  | left H => {| numer := a; scale := 52; draw_range := H |}
  | right _ => {| numer := 0; scale := 0; draw_range := eq_refl |}
  end.

(** A double of the part [k / n, (k + 1) / n) of [0, 1): the first
    multiple of [2 ^ -52] above its middle. *)
Definition middle (k n : Z) : draw :=
  double_of ((2 * k + 1) * 2 ^ 51 / n + 1).

(** Three draws for the birth date [y]-[m]-[d]. *)
Definition birthday_source (y m d : Z) : nat -> draw :=
  fun i =>
    match i with
    | 0%nat => middle (y - 1950) 56
    | 1%nat => middle (m - 1) 12
    | _ => middle (d - 1) (Spec.days_in_month y m)
    end.

(** The world after [k] calls of [Math.random()]. *)
Definition consume (k : nat) (w : World) : World :=
  {| this := this w; entropy := fun n => entropy w (k + n)%nat |}.

(** ** Invariants of the generator object *)

(** The codes that [_getRandomAreaCode] draws from. *)
Definition district_pool (area : list AreaItem) : list jsstring :=
  a_code <$>
    List.filter (fun areaItem => negb (endsWith (a_code areaItem) (lit "00")))
                area.

(** [this._cache.randomAreaCodes] is either not computed yet or the list
    computed from the table [area]. *)
Definition cache_coherent (area : list AreaItem) (g : Generator) : Prop :=
  randomAreaCodes g = None \/ randomAreaCodes g = Some (district_pool area).

(** The options that [_validateIdCardOptions] lets through: each of them is
    absent, falsy or well formed. *)
Definition accepted (options : IdCardOptions) : Prop :=
  (forall s, areaCode options = Some s -> s = [] \/ test_digits 6 s = true)
  /\ (forall s, birthday options = Some s -> s = [] \/ test_digits 8 s = true)
  /\ (forall x, gender options = Some x -> x = Num 0 \/ x = Num 1).

(** What a method leaves alone when it only fills the tables of the
    administrative hierarchy. *)
Definition frame (w w' : World) : Prop :=
  entropy w' = entropy w
  /\ randomAreaCodes (this w') = randomAreaCodes (this w)
  /\ fuzzyAreaNameMap (this w') = fuzzyAreaNameMap (this w).

(** [options.x || ...] keeps a string that is not empty. *)
Definition supplied (o : option jsstring) : bool :=
  match o with
  | Some (_ :: _) => true
  | _ => false
  end.

(** ** The fuzzy index *)

(** The first code of a bucket. *)
Definition bucket_head (m : gmap jsstring (list jsstring)) (key : jsstring)
  : option jsstring :=
  m !! key ≫= head.

(** The keys under which [_buildFuzzyAreaNameCache] files a name. *)
Definition prefix_keys (name : jsstring) : list jsstring :=
  if (1 <? length name)%nat
  then (fun i => substring name 0 i) <$> seq 1 (length name `min` 3)
  else [].

Definition include_keys (name : jsstring) : list jsstring :=
  (fun i => charAt name i) <$> seq 0 (length name).

(** The index that [_buildFuzzyAreaNameCache] stores. *)
Definition build_fuzzy (entries : list (jsstring * jsstring))
  : FuzzyAreaNameMap :=
  foldl fuzzy_entry {| prefix := ∅; include := ∅ |} entries.

(** [this._cache.fuzzyAreaNameMap] is either not built yet or the index of
    the current [areaCodeByName]. *)
Definition fuzzy_coherent (g : Generator) : Prop :=
  fuzzyAreaNameMap g = None
  \/ fuzzyAreaNameMap g = Some (build_fuzzy (areaCodeByName g)).
(** ** The reference data that the constructor can load *)

(** The province of a city or of an area is one of the province table. *)
Definition province_known (province : list ProvinceItem) (code : jsstring)
  : bool :=
  bool_decide (code ∈ p_province <$> province).

Definition provinces_known (province : list ProvinceItem)
  (city : list CityItem) (area : list AreaItem) : bool :=
  forallb (fun c => province_known province (c_province c)) city
  && forallb (fun a => province_known province (a_province a)) area.

(** While the tables are loaded: [initialized] is still false and the
    province map holds exactly the provinces of [province]. *)
Definition loading (province : list ProvinceItem) (w0 w : World) : Prop :=
  initialized (this w) = false
  /\ frame w0 w
  /\ forall k, is_Some (provinceMap (this w) !! k)
               <-> k ∈ p_province <$> province.

(** ** The options of the constructor *)

(** The generator [g] as it would be with other values of the options
    [lazyLoad] and [precomputeFuzzyMatch]. *)
Definition with_options (lazy precompute : bool) (g : Generator)
  : Generator :=
  {| initialized := initialized g; lazyLoad := lazy;
     precomputeFuzzyMatch := precompute;
     provinceMap := provinceMap g; cityMap := cityMap g;
     areaMap := areaMap g; townMap := townMap g;
     areaCodeByName := areaCodeByName g; nameByAreaCode := nameByAreaCode g;
     randomAreaCodes := randomAreaCodes g;
     fuzzyAreaNameMap := fuzzyAreaNameMap g |}.

Definition world_with_options (lazy precompute : bool) (w : World) : World :=
  {| this := with_options lazy precompute (this w); entropy := entropy w |}.

(** The outcome of a method, with the final world changed by [f]. *)
Definition on_world {A} (f : World -> World) (r : Error + (A * World))
  : Error + (A * World) :=
  match r with
  | inl e => inl e
  | inr (a, w) => inr (a, f w)
  end.

(** A method that reads neither option: it does the same with other
    values of them. *)
Definition option_blind {A} (m : M A) : Prop :=
  forall lazy precompute w,
    m (world_with_options lazy precompute w)
    = on_world (world_with_options lazy precompute) (m w).

(** ** More methods of the class *)

Section Lookups.

Variable province : list ProvinceItem.
Variable city : list CityItem.
Variable area : list AreaItem.
Variable town : list TownItem.

(** [_getTownsByAreaCode(areaCode)] *)
Definition _getTownsByAreaCode (areaCode : jsstring) : M (list TownItem) :=
  _ensureInitialized province city area town ;;;
  g <- self ;;
  ret (default [] (townMap g !! areaCode)).

End Lookups.

(** ** The generator once its tables are loaded *)

(** The entries of the town table under one area code, in their order. *)
Definition towns_of (town : list TownItem) (code : jsstring)
  : list TownItem :=
  List.filter (fun t => bool_decide (t_code t = code)) town.

(** The object as the constructor leaves it when [lazyLoad] is set: no
    table, no cache. *)
Definition pristine (g : Generator) : Prop :=
  initialized g = false
  /\ provinceMap g = ∅ /\ townMap g = ∅
  /\ areaCodeByName g = [] /\ nameByAreaCode g = ∅
  /\ randomAreaCodes g = None /\ fuzzyAreaNameMap g = None.

(** The object once [_initData] ran: the two caches of names and codes hold
    the insertions of the traversal, the town map groups the town table by
    area code, and each of the two lazy caches is unset or what its builder
    computes. *)
Definition loaded (province : list ProvinceItem) (city : list CityItem)
  (area : list AreaItem) (town : list TownItem) (g : Generator) : Prop :=
  initialized g = true
  /\ SpecIndex.indexed
       (SpecIndex.insertions province city area (provinceMap g) (cityMap g))
       g
  /\ (forall code, default [] (townMap g !! code) = towns_of town code)
  /\ cache_coherent area g
  /\ fuzzy_coherent g.

(** The name that the tables give to a code: the bare name of the last
    entry of the area table with that code; without such an entry, of the
    last entry of the city table; without such an entry, the name of the
    last entry of the province table. *)
Definition table_name (province : list ProvinceItem) (city : list CityItem)
  (area : list AreaItem) (code : jsstring) : option jsstring :=
  match find (fun a => bool_decide (a_code a = code)) (reverse area) with
  | Some a => Some (a_name a)
  | None =>
      match find (fun c => bool_decide (c_code c = code)) (reverse city) with
      | Some c => Some (c_name c)
      | None =>
          p_name <$>
            find (fun p => bool_decide (p_code p = code)) (reverse province)
      end
  end.

(** The generator [g'] is [g] with, at most, one or both of its lazy
    caches filled by their builders. *)
Definition caches_only (area : list AreaItem) (g g' : Generator) : Prop :=
  exists codes fz,
    g' = set_randomAreaCodes codes (set_fuzzyAreaNameMap fz g)
    /\ (codes = randomAreaCodes g \/ codes = Some (district_pool area))
    /\ (fz = fuzzyAreaNameMap g
        \/ fz = Some (build_fuzzy (areaCodeByName g))).

(** The codes of the three tables, and the codes that the generator can
    answer for a name: those and the codes of the common cities. *)
Definition table_codes (province : list ProvinceItem) (city : list CityItem)
  (area : list AreaItem) : list jsstring :=
  (p_code <$> province) ++ (c_code <$> city) ++ (a_code <$> area).

Definition known_code (province : list ProvinceItem) (city : list CityItem)
  (area : list AreaItem) (code : jsstring) : Prop :=
  code ∈ table_codes province city area
  \/ exists name, commonCities !! name = Some code.

(** The area code that [generatePersonInfoByAreaAndAge] starts from when
    the resolver answers a code or [null]. *)
Definition requested_code (found : option Resolved) : jsstring :=
  match found with
  | Some (Code (c :: s)) => c :: s
  | _ => lit "110101"
  end.

(** ** The buckets of the fuzzy index *)




(** ** The address of an area *)

(** [s.replace(pattern, '')] for a pattern that is a string: the first
    occurrence of the pattern is removed (the empty pattern occurs at the
    start and removing it changes nothing). *)
Fixpoint replace (s pattern : jsstring) : jsstring :=
  if bool_decide (take (length pattern) s = pattern)
  then drop (length pattern) s
  else match s with
       | [] => []
       | c :: rest => c :: replace rest pattern
       end.


Section Address.

Variable province : list ProvinceItem.
Variable city : list CityItem.
Variable area : list AreaItem.
Variable town : list TownItem.


End Address.

(** ** Batches *)

(** What [generateBatch] throws: its own error on the count, or the
    exception of a method it calls. *)
Inductive BatchError : Type :=
  | Error_count            (* 生成数量必须是正整数 *)
  | Raised (e : Error).

Definition raise_from {A} (r : Error + A) : BatchError + A :=
  match r with
  | inl e => inl (Raised e)
  | inr a => inr a
  end.

(** [birthInfo] as [_generateBatchInternal] computes it from
    [options.birthday]. *)
Definition batch_birth_info (today : Date) (birthday : jsstring)
  : BirthInfo :=
  let birthYear := parseInt (substring birthday 0 4) in
  let birthMonth := parseInt (substring birthday 4 6) in
  let birthDay := parseInt (substring birthday 6 8) in
  let formattedBirthDate :=
    String_of birthYear ++ lit "-" ++ _pad birthMonth 2 ++ lit "-"
    ++ _pad birthDay 2 in
  let age := num_sub (Num (getFullYear today)) birthYear in
  let age :=
    if num_lt (Num (getMonth today + 1)) birthMonth
       || (num_eq (Num (getMonth today + 1)) birthMonth
           && num_lt (Num (getDate today)) birthDay)
    then num_sub age (Num 1)
    else age in
  {| birthYear := birthYear; birthMonth := birthMonth; birthDay := birthDay;
     age := age; formattedBirthDate := formattedBirthDate |}.

Section Batch.

Variable province : list ProvinceItem.
Variable city : list CityItem.
Variable area : list AreaItem.
Variable town : list TownItem.

(** [new Date()] *)
Variable today : Date.

(** The generators of the name, the phone number and the e-mail, and the
    generator of the address, without plugin: they are made of Mock.js and
    of [Math.random()], and their strings are not part of [PersonInfo]. *)
Variable personal_texts : number -> M unit.
Variable address_text : jsstring -> M unit.

(** [_prepareBatchGeneration(options)] *)
Definition _prepareBatchGeneration : M unit :=
  g <- self ;;
  (if randomAreaCodes g is None
   then _getRandomAreaCode province city area town ;;; ret tt
   else ret tt) ;;;
  g <- self ;;
  if precomputeFuzzyMatch g
     && (if fuzzyAreaNameMap g is None then true else false)
  then _buildFuzzyAreaNameCache
  else ret tt.

(** The body of the loop of [_generateBatchInternal]. *)
Definition batch_person (areaInfo : option jsstring)
  (birthInfo : option BirthInfo) (options : IdCardOptions) : M PersonInfo :=
  gender <- match gender options with
            | Some x => ret x
            | None => r <- Math_random ;; ret (Num (round r))
            end ;;
  idCard <- generateIdCard province city area town
              {| areaCode := areaCode options;
                 birthday := birthday options;
                 gender := Some gender |} ;;
  let birthInfoFromId :=
    match birthInfo with
    | Some info => info
    | None => _extractInfoFromIdCard today idCard
    end in
  personal_texts gender ;;;
  let areaCode := substring idCard 0 6 in
  areaName <- match areaInfo with
              | Some name => ret name
              | None =>
                  found <- _getAreaNameByCode province city area town
                             areaCode ;;
                  ret (match found with
                       | Some n => n
                       | None => unknown_area
                       end)
              end ;;
  address_text areaCode ;;;
  ret {| person_gender := if num_eq gender (Num 1) then male else female;
         person_age := age birthInfoFromId;
         person_birthDate := formattedBirthDate birthInfoFromId;
         person_idCard := idCard;
         person_areaName := areaName |}.

(** [for (let i = 0; i < count; i++) { ...; result.push(...) }] *)
Fixpoint batch_loop (count : nat) (areaInfo : option jsstring)
  (birthInfo : option BirthInfo) (options : IdCardOptions)
  : M (list PersonInfo) :=
  match count with
  | O => ret []
  | S count =>
      person <- batch_person areaInfo birthInfo options ;;
      result <- batch_loop count areaInfo birthInfo options ;;
      ret (person :: result)
  end.

(** [_generateBatchInternal(count, options)] *)
Definition _generateBatchInternal (count : Z) (options : IdCardOptions)
  : M (list PersonInfo) :=
  areaInfo <- match areaCode options with
              | Some (c :: s) =>
                  found <- _getAreaNameByCode province city area town
                             (c :: s) ;;
                  ret (Some (match found with
                             | Some n => n
                             | None => unknown_area
                             end))
              | _ => ret None
              end ;;
  let birthInfo :=
    match birthday options with
    | Some (c :: s) => Some (batch_birth_info today (c :: s))
    | _ => None
    end in
  batch_loop (Z.to_nat count) areaInfo birthInfo options.

(** The loop of [generateBatch] over the batches that are still to do. *)
Fixpoint batches_from (todo : list Z) (batches batchSize count : Z)
  (options : IdCardOptions) (result : list PersonInfo)
  : M (list PersonInfo) :=
  match todo with
  | [] => ret result
  | batchIndex :: todo =>
      let currentBatchSize :=
        if batchIndex =? batches - 1
        then count - batchIndex * batchSize
        else batchSize in
      batchResult <- _generateBatchInternal currentBatchSize options ;;
      batches_from todo batches batchSize count options
                   (result ++ batchResult)
  end.

(** [generateBatch(count, options)], without a progress callback. A count
    is an integer or [NaN]; the quotient [count / batchSize] is one of
    integers below 2^53, and [Math.ceil] of it is the ceiling of the exact
    quotient. *)
Definition generateBatch (count : number) (options : IdCardOptions)
  : World -> BatchError + (list PersonInfo * World) :=
  fun w =>
    match _ensureInitialized province city area town w with
    | inl e => inl (Raised e)
    | inr (_, w) =>
        match count with
        | NaN => inl Error_count
        | Num count =>
            if count <=? 0 then inl Error_count
            else
              raise_from
                ((_prepareBatchGeneration ;;;
                  let batchSize := Z.min count 1000 in
                  let batches := (count + batchSize - 1) / batchSize in
                  batches_from (Z.of_nat <$> seq 0 (Z.to_nat batches))
                               batches batchSize count options []) w)
        end
    end.

End Batch.

(** The two values that [_generateBatchInternal] computes before its loop,
    from the options and the names of the generator [g]. *)
Definition area_info (g : Generator) (options : IdCardOptions)
  : option jsstring :=
  match areaCode options with
  | Some (c :: s) =>
      Some (match nameByAreaCode g !! (c :: s) with
            | Some (n :: ns) => n :: ns
            | _ => unknown_area
            end)
  | _ => None
  end.

Definition birth_info (today : Date) (options : IdCardOptions)
  : option BirthInfo :=
  match birthday options with
  | Some (c :: s) => Some (batch_birth_info today (c :: s))
  | _ => None
  end.

(** The value of a check character: the digit it shows, and 10 for X. *)
Definition check_value (c : N) : Z :=
  if bool_decide (c = 88%N) then 10 else Spec.digit_value c.

(** ** The pinyin of a name (the pinyin utilities) *)

(** The entries of [PINYIN_MAP], in the order of the source, each key by
    its code unit. *)
Definition PINYIN_ENTRIES : list (N * jsstring) :=
  [
    (* 阿 啊 爱 安 昂 奥 *)
    (38463%N, lit "a"); (21834%N, lit "a"); (29233%N, lit "ai");
    (23433%N, lit "an");
    (26114%N, lit "ang"); (22885%N, lit "ao");
    (* 八 白 百 班 办 半 邦 包 北 本 必 边 别 病 波 不 *)
    (20843%N, lit "ba"); (30333%N, lit "bai"); (30334%N, lit "bai");
    (29677%N, lit "ban"); (21150%N, lit "ban"); (21322%N, lit "ban");
    (37030%N, lit "bang"); (21253%N, lit "bao"); (21271%N, lit "bei");
    (26412%N, lit "ben"); (24517%N, lit "bi"); (36793%N, lit "bian");
    (21035%N, lit "bie"); (30149%N, lit "bing"); (27874%N, lit "bo");
    (19981%N, lit "bu");
    (* 才 菜 参 草 测 曾 查 产 常 超 车 成 城 吃 出 川 传 春 次 从 村 *)
    (25165%N, lit "cai"); (33756%N, lit "cai"); (21442%N, lit "can");
    (33609%N, lit "cao"); (27979%N, lit "ce"); (26366%N, lit "ceng");
    (26597%N, lit "cha"); (20135%N, lit "chan"); (24120%N, lit "chang");
    (36229%N, lit "chao"); (36710%N, lit "che"); (25104%N, lit "cheng");
    (22478%N, lit "cheng"); (21507%N, lit "chi"); (20986%N, lit "chu");
    (24029%N, lit "chuan"); (20256%N, lit "chuan"); (26149%N, lit "chun");
    (27425%N, lit "ci"); (20174%N, lit "cong"); (26449%N, lit "cun");
    (* 大 代 单 但 当 到 道 的 得 等 地 第 点 电 东 动 都 读 度 段 对 多 *)
    (22823%N, lit "da"); (20195%N, lit "dai"); (21333%N, lit "dan");
    (20294%N, lit "dan"); (24403%N, lit "dang"); (21040%N, lit "dao");
    (36947%N, lit "dao"); (30340%N, lit "de"); (24471%N, lit "de");
    (31561%N, lit "deng"); (22320%N, lit "di"); (31532%N, lit "di");
    (28857%N, lit "dian"); (30005%N, lit "dian"); (19996%N, lit "dong");
    (21160%N, lit "dong"); (37117%N, lit "dou"); (35835%N, lit "du");
    (24230%N, lit "du"); (27573%N, lit "duan"); (23545%N, lit "dui");
    (22810%N, lit "duo");
    (* 儿 而 *)
    (20799%N, lit "er"); (32780%N, lit "er");
    (* 发 法 反 方 房 放 非 分 风 佛 否 夫 服 父 付 *)
    (21457%N, lit "fa"); (27861%N, lit "fa"); (21453%N, lit "fan");
    (26041%N, lit "fang"); (25151%N, lit "fang"); (25918%N, lit "fang");
    (38750%N, lit "fei"); (20998%N, lit "fen"); (39118%N, lit "feng");
    (20315%N, lit "fo"); (21542%N, lit "fou"); (22827%N, lit "fu");
    (26381%N, lit "fu"); (29238%N, lit "fu"); (20184%N, lit "fu");
    (* 该 改 干 刚 高 告 革 格 个 给 跟 更 工 共 够 古 故 关 观 光 广 规 国 果 *)
    (35813%N, lit "gai"); (25913%N, lit "gai"); (24178%N, lit "gan");
    (21018%N, lit "gang"); (39640%N, lit "gao"); (21578%N, lit "gao");
    (38761%N, lit "ge"); (26684%N, lit "ge"); (20010%N, lit "ge");
    (32473%N, lit "gei"); (36319%N, lit "gen"); (26356%N, lit "geng");
    (24037%N, lit "gong"); (20849%N, lit "gong"); (22815%N, lit "gou");
    (21476%N, lit "gu"); (25925%N, lit "gu"); (20851%N, lit "guan");
    (35266%N, lit "guan"); (20809%N, lit "guang"); (24191%N, lit "guang");
    (35268%N, lit "gui"); (22269%N, lit "guo"); (26524%N, lit "guo");
    (* 还 海 含 汉 好 号 和 河 黑 很 红 后 候 湖 花 化 话 怀 环 黄 回 会 活 *)
    (36824%N, lit "hai"); (28023%N, lit "hai"); (21547%N, lit "han");
    (27721%N, lit "han"); (22909%N, lit "hao"); (21495%N, lit "hao");
    (21644%N, lit "he"); (27827%N, lit "he"); (40657%N, lit "hei");
    (24456%N, lit "hen"); (32418%N, lit "hong"); (21518%N, lit "hou");
    (20505%N, lit "hou"); (28246%N, lit "hu"); (33457%N, lit "hua");
    (21270%N, lit "hua"); (35805%N, lit "hua"); (24576%N, lit "huai");
    (29615%N, lit "huan"); (40644%N, lit "huang"); (22238%N, lit "hui");
    (20250%N, lit "hui"); (27963%N, lit "huo");
    (* 几 己 机 基 吉 极 及 即 集 计 记 家 加 间 见 江 将 教 接 今 近 进 经 京 九 久 就 居 局 决 *)
    (20960%N, lit "ji"); (24049%N, lit "ji"); (26426%N, lit "ji");
    (22522%N, lit "ji"); (21513%N, lit "ji"); (26497%N, lit "ji");
    (21450%N, lit "ji"); (21363%N, lit "ji"); (38598%N, lit "ji");
    (35745%N, lit "ji"); (35760%N, lit "ji"); (23478%N, lit "jia");
    (21152%N, lit "jia"); (38388%N, lit "jian"); (35265%N, lit "jian");
    (27743%N, lit "jiang"); (23558%N, lit "jiang"); (25945%N, lit "jiao");
    (25509%N, lit "jie"); (20170%N, lit "jin"); (36817%N, lit "jin");
    (36827%N, lit "jin"); (32463%N, lit "jing"); (20140%N, lit "jing");
    (20061%N, lit "jiu"); (20037%N, lit "jiu"); (23601%N, lit "jiu");
    (23621%N, lit "ju"); (23616%N, lit "ju"); (20915%N, lit "jue");
    (* 开 看 考 科 可 克 空 口 苦 快 宽 况 困 扩 *)
    (24320%N, lit "kai"); (30475%N, lit "kan"); (32771%N, lit "kao");
    (31185%N, lit "ke"); (21487%N, lit "ke"); (20811%N, lit "ke");
    (31354%N, lit "kong"); (21475%N, lit "kou"); (33510%N, lit "ku");
    (24555%N, lit "kuai"); (23485%N, lit "kuan"); (20917%N, lit "kuang");
    (22256%N, lit "kun"); (25193%N, lit "kuo");
    (* 来 蓝 老 了 类 里 理 力 立 利 历 丽 连 两 料 林 临 灵 领 六 流 龙 楼 路 录 陆 乱 论 落 *)
    (26469%N, lit "lai"); (34013%N, lit "lan"); (32769%N, lit "lao");
    (20102%N, lit "le"); (31867%N, lit "lei"); (37324%N, lit "li");
    (29702%N, lit "li"); (21147%N, lit "li"); (31435%N, lit "li");
    (21033%N, lit "li"); (21382%N, lit "li"); (20029%N, lit "li");
    (36830%N, lit "lian"); (20004%N, lit "liang"); (26009%N, lit "liao");
    (26519%N, lit "lin"); (20020%N, lit "lin"); (28789%N, lit "ling");
    (39046%N, lit "ling"); (20845%N, lit "liu"); (27969%N, lit "liu");
    (40857%N, lit "long"); (27004%N, lit "lou"); (36335%N, lit "lu");
    (24405%N, lit "lu"); (38470%N, lit "lu"); (20081%N, lit "luan");
    (35770%N, lit "lun"); (33853%N, lit "luo");
    (* 马 吗 买 卖 满 毛 没 美 门 们 梦 米 面 民 明 命 模 某 目 *)
    (39532%N, lit "ma"); (21527%N, lit "ma"); (20080%N, lit "mai");
    (21334%N, lit "mai"); (28385%N, lit "man"); (27611%N, lit "mao");
    (27809%N, lit "mei"); (32654%N, lit "mei"); (38376%N, lit "men");
    (20204%N, lit "men"); (26790%N, lit "meng"); (31859%N, lit "mi");
    (38754%N, lit "mian"); (27665%N, lit "min"); (26126%N, lit "ming");
    (21629%N, lit "ming"); (27169%N, lit "mo"); (26576%N, lit "mou");
    (30446%N, lit "mu");
    (* 那 南 难 脑 内 能 你 年 念 您 牛 农 女 *)
    (37027%N, lit "na"); (21335%N, lit "nan"); (38590%N, lit "nan");
    (33041%N, lit "nao"); (20869%N, lit "nei"); (33021%N, lit "neng");
    (20320%N, lit "ni"); (24180%N, lit "nian"); (24565%N, lit "nian");
    (24744%N, lit "nin"); (29275%N, lit "niu"); (20892%N, lit "nong");
    (22899%N, lit "nv");
    (* 偶 *)
    (20598%N, lit "ou");
    (* 怕 拍 排 盘 旁 跑 朋 片 品 平 评 破 普 *)
    (24597%N, lit "pa"); (25293%N, lit "pai"); (25490%N, lit "pai");
    (30424%N, lit "pan"); (26049%N, lit "pang"); (36305%N, lit "pao");
    (26379%N, lit "peng"); (29255%N, lit "pian"); (21697%N, lit "pin");
    (24179%N, lit "ping"); (35780%N, lit "ping"); (30772%N, lit "po");
    (26222%N, lit "pu");
    (* 其 起 气 汽 前 钱 强 桥 且 亲 轻 请 秋 区 取 去 全 缺 *)
    (20854%N, lit "qi"); (36215%N, lit "qi"); (27668%N, lit "qi");
    (27773%N, lit "qi"); (21069%N, lit "qian"); (38065%N, lit "qian");
    (24378%N, lit "qiang"); (26725%N, lit "qiao"); (19988%N, lit "qie");
    (20146%N, lit "qin"); (36731%N, lit "qing"); (35831%N, lit "qing");
    (31179%N, lit "qiu"); (21306%N, lit "qu"); (21462%N, lit "qu");
    (21435%N, lit "qu"); (20840%N, lit "quan"); (32570%N, lit "que");
    (* 然 让 热 人 认 任 日 容 如 入 *)
    (28982%N, lit "ran"); (35753%N, lit "rang"); (28909%N, lit "re");
    (20154%N, lit "ren"); (35748%N, lit "ren"); (20219%N, lit "ren");
    (26085%N, lit "ri"); (23481%N, lit "rong"); (22914%N, lit "ru");
    (20837%N, lit "ru");
    (* 三 色 森 杀 山 上 少 社 身 深 什 生 声 省 师 十 时 识 实 始 世 是 事 市 收 手 受 书 术 数 水 说 思 四 送 诉 算 随 岁 所 *)
    (19977%N, lit "san"); (33394%N, lit "se"); (26862%N, lit "sen");
    (26432%N, lit "sha"); (23665%N, lit "shan"); (19978%N, lit "shang");
    (23569%N, lit "shao"); (31038%N, lit "she"); (36523%N, lit "shen");
    (28145%N, lit "shen"); (20160%N, lit "shen"); (29983%N, lit "sheng");
    (22768%N, lit "sheng"); (30465%N, lit "sheng"); (24072%N, lit "shi");
    (21313%N, lit "shi"); (26102%N, lit "shi"); (35782%N, lit "shi");
    (23454%N, lit "shi"); (22987%N, lit "shi"); (19990%N, lit "shi");
    (26159%N, lit "shi"); (20107%N, lit "shi"); (24066%N, lit "shi");
    (25910%N, lit "shou"); (25163%N, lit "shou"); (21463%N, lit "shou");
    (20070%N, lit "shu"); (26415%N, lit "shu"); (25968%N, lit "shu");
    (27700%N, lit "shui"); (35828%N, lit "shuo"); (24605%N, lit "si");
    (22235%N, lit "si"); (36865%N, lit "song"); (35785%N, lit "su");
    (31639%N, lit "suan"); (38543%N, lit "sui"); (23681%N, lit "sui");
    (25152%N, lit "suo");
    (* 他 她 台 太 谈 探 唐 堂 套 特 提 题 体 天 条 听 同 头 图 土 团 推 *)
    (20182%N, lit "ta"); (22905%N, lit "ta"); (21488%N, lit "tai");
    (22826%N, lit "tai"); (35848%N, lit "tan"); (25506%N, lit "tan");
    (21776%N, lit "tang"); (22530%N, lit "tang"); (22871%N, lit "tao");
    (29305%N, lit "te"); (25552%N, lit "ti"); (39064%N, lit "ti");
    (20307%N, lit "ti"); (22825%N, lit "tian"); (26465%N, lit "tiao");
    (21548%N, lit "ting"); (21516%N, lit "tong"); (22836%N, lit "tou");
    (22270%N, lit "tu"); (22303%N, lit "tu"); (22242%N, lit "tuan");
    (25512%N, lit "tui");
    (* 外 完 万 王 网 为 卫 未 位 文 问 我 无 五 物 *)
    (22806%N, lit "wai"); (23436%N, lit "wan"); (19975%N, lit "wan");
    (29579%N, lit "wang"); (32593%N, lit "wang"); (20026%N, lit "wei");
    (21355%N, lit "wei"); (26410%N, lit "wei"); (20301%N, lit "wei");
    (25991%N, lit "wen"); (38382%N, lit "wen"); (25105%N, lit "wo");
    (26080%N, lit "wu"); (20116%N, lit "wu"); (29289%N, lit "wu");
    (* 西 息 希 系 下 先 现 县 向 像 小 校 些 写 谢 心 新 信 星 行 性 兴 修 许 需 选 学 *)
    (35199%N, lit "xi"); (24687%N, lit "xi"); (24076%N, lit "xi");
    (31995%N, lit "xi"); (19979%N, lit "xia"); (20808%N, lit "xian");
    (29616%N, lit "xian"); (21439%N, lit "xian"); (21521%N, lit "xiang");
    (20687%N, lit "xiang"); (23567%N, lit "xiao"); (26657%N, lit "xiao");
    (20123%N, lit "xie"); (20889%N, lit "xie"); (35874%N, lit "xie");
    (24515%N, lit "xin"); (26032%N, lit "xin"); (20449%N, lit "xin");
    (26143%N, lit "xing"); (34892%N, lit "xing"); (24615%N, lit "xing");
    (20852%N, lit "xing"); (20462%N, lit "xiu"); (35768%N, lit "xu");
    (38656%N, lit "xu"); (36873%N, lit "xuan"); (23398%N, lit "xue");
    (* 亚 言 研 验 央 样 要 也 业 一 以 亿 意 艺 易 因 音 印 应 英 影 用 优 有 又 于 与 语 育 预 元 原 远 院 约 越 云 运 *)
    (20122%N, lit "ya"); (35328%N, lit "yan"); (30740%N, lit "yan");
    (39564%N, lit "yan"); (22830%N, lit "yang"); (26679%N, lit "yang");
    (35201%N, lit "yao"); (20063%N, lit "ye"); (19994%N, lit "ye");
    (19968%N, lit "yi"); (20197%N, lit "yi"); (20159%N, lit "yi");
    (24847%N, lit "yi"); (33402%N, lit "yi"); (26131%N, lit "yi");
    (22240%N, lit "yin"); (38899%N, lit "yin"); (21360%N, lit "yin");
    (24212%N, lit "ying"); (33521%N, lit "ying"); (24433%N, lit "ying");
    (29992%N, lit "yong"); (20248%N, lit "you"); (26377%N, lit "you");
    (21448%N, lit "you"); (20110%N, lit "yu"); (19982%N, lit "yu");
    (35821%N, lit "yu"); (32946%N, lit "yu"); (39044%N, lit "yu");
    (20803%N, lit "yuan"); (21407%N, lit "yuan"); (36828%N, lit "yuan");
    (38498%N, lit "yuan"); (32422%N, lit "yue"); (36234%N, lit "yue");
    (20113%N, lit "yun"); (36816%N, lit "yun");
    (* 杂 在 咱 早 造 则 怎 增 展 张 章 找 着 真 正 政 之 知 直 指 至 制 中 种 重 周 州 主 住 助 注 专 转 装 准 资 子 自 总 走 组 最 作 *)
    (26434%N, lit "za"); (22312%N, lit "zai"); (21681%N, lit "zan");
    (26089%N, lit "zao"); (36896%N, lit "zao"); (21017%N, lit "ze");
    (24590%N, lit "zen"); (22686%N, lit "zeng"); (23637%N, lit "zhan");
    (24352%N, lit "zhang"); (31456%N, lit "zhang"); (25214%N, lit "zhao");
    (30528%N, lit "zhe"); (30495%N, lit "zhen"); (27491%N, lit "zheng");
    (25919%N, lit "zheng"); (20043%N, lit "zhi"); (30693%N, lit "zhi");
    (30452%N, lit "zhi"); (25351%N, lit "zhi"); (33267%N, lit "zhi");
    (21046%N, lit "zhi"); (20013%N, lit "zhong"); (31181%N, lit "zhong");
    (37325%N, lit "zhong"); (21608%N, lit "zhou"); (24030%N, lit "zhou");
    (20027%N, lit "zhu"); (20303%N, lit "zhu"); (21161%N, lit "zhu");
    (27880%N, lit "zhu"); (19987%N, lit "zhuan"); (36716%N, lit "zhuan");
    (35013%N, lit "zhuang"); (20934%N, lit "zhun"); (36164%N, lit "zi");
    (23376%N, lit "zi"); (33258%N, lit "zi"); (24635%N, lit "zong");
    (36208%N, lit "zou"); (32452%N, lit "zu"); (26368%N, lit "zui");
    (20316%N, lit "zuo")
  ].

(** [PINYIN_MAP]: in an object literal the last entry of a key wins. *)
Definition PINYIN_MAP : gmap N jsstring :=
  foldl (fun m entry => <[fst entry := snd entry]> m) ∅ PINYIN_ENTRIES.

(** [/[\u4e00-\u9fa5]/.test(char)] for one code unit. *)
Definition is_chinese (c : N) : bool := ((19968 <=? c) && (c <=? 40869))%N.

(** [toPinyin(chinese, firstLetterOnly)] *)
Definition toPinyin (chinese : jsstring) (firstLetterOnly : bool)
  : jsstring :=
  foldl (fun result char =>
           if is_chinese char then
             let pinyin :=
               match PINYIN_MAP !! char with
               | Some (p :: ps) => p :: ps
               | _ => lit "x"
               end in
             result ++ (if firstLetterOnly then charAt pinyin 0 else pinyin)
           else result ++ [char])
        [] chinese.

(** [s.toLowerCase()] of a string of ASCII characters; the case mapping
    of the other characters is not part of this development, and [None]
    stands for a string that has one. *)
Definition toLowerCase (s : jsstring) : option jsstring :=
  if forallb (fun c => c <? 128)%N s
  then Some ((fun c => if (65 <=? c) && (c <=? 90) then c + 32 else c)%N
               <$> s)
  else None.

(** [nameToEmailPrefix(name)] *)
Definition nameToEmailPrefix (name : jsstring) : option jsstring :=
  if falsy name then Some []
  else
    let chineseName := List.filter is_chinese name in
    toLowerCase (toPinyin chineseName false).

(** [this.EMAIL_DOMAINS] *)
Definition EMAIL_DOMAINS : list jsstring :=
  [lit "qq.com"; lit "163.com"; lit "gmail.com"; lit "126.com";
   lit "outlook.com"; lit "sina.com"; lit "sohu.com"].

Section Email.

(** [Mock.Random.word(3, 10)] *)
Variable Mock_Random_word : M jsstring.

(** [_generateEmail(name)]; [None] when the prefix is not modelled. *)
Definition _generateEmail (name : jsstring) : M (option jsstring) :=
  let prefix := nameToEmailPrefix name in
  emailPrefix <- match prefix with
                 | Some (c :: s) => ret (Some (c :: s))
                 | Some [] => word <- Mock_Random_word ;; ret (Some word)
                 | None => ret None
                 end ;;
  r <- Math_random ;;
  let domain := index EMAIL_DOMAINS
                  (Num (floor_times r (arr_length EMAIL_DOMAINS))) in
  r <- Math_random ;;
  ret (match emailPrefix with
       | Some emailPrefix =>
           Some (emailPrefix ++ String_of (Num (floor_times r 1000))
                 ++ lit "@" ++ interpolate domain)
       | None => None
       end).

End Email.

(** What one character adds to the result of [toPinyin]. *)
Definition unit_pinyin (firstLetterOnly : bool) (char : N) : jsstring :=
  if is_chinese char then
    let pinyin :=
      match PINYIN_MAP !! char with
      | Some (p :: ps) => p :: ps
      | _ => lit "x"
      end in
    if firstLetterOnly then charAt pinyin 0 else pinyin
  else [char].

(** The letters [a] to [z]. *)
Definition is_lower_letter (c : N) : bool := ((97 <=? c) && (c <=? 122))%N.

(** A pinyin of the table: some lower-case letters. *)
Definition is_syllable (s : jsstring) : bool :=
  negb (falsy s) && forallb is_lower_letter s.


(** * Properties *)

(** ** The model on concrete inputs *)

Example parseInt_examples :
  parseInt (lit "1990") = Num 1990 /\ parseInt (lit "01") = Num 1
  /\ parseInt (lit " -0x1f") = Num (-31) /\ parseInt (lit "12px") = Num 12
  /\ parseInt (lit "X") = NaN /\ parseInt [] = NaN.
Proof. repeat split. Qed.

Example pad_examples :
  _pad (Num 7) 3 = lit "007" /\ _pad (Num 12) 2 = lit "12"
  /\ _pad (Num 1234) 2 = lit "1234" /\ String_of (Num (-5)) = lit "-5".
Proof. repeat split. Qed.

Example substring_examples :
  substring (lit "110101199001011237") 6 10 = lit "1990"
  /\ substring (lit "abc") 2 9 = lit "c"
  /\ substring (lit "abc") 2 1 = lit "b".
Proof. repeat split. Qed.

Example check_code_examples :
  _calculateCheckCode (lit "11010119900101893") = Some (lit "0")
  /\ _calculateCheckCode (lit "11010519491231002") = Some (lit "X")
  /\ _calculateCheckCode (lit "1101051949123100") = None
  /\ _calculateCheckCode (lit "undefined19900101893") = None.
Proof. repeat split. Qed.

Example leap_year_examples :
  _isLeapYear (Num 2000) = true /\ _isLeapYear (Num 1900) = false
  /\ _isLeapYear (Num 2004) = true /\ _isLeapYear (Num 2005) = false
  /\ _isLeapYear NaN = false.
Proof. repeat split. Qed.

Example age_examples :
  age (_extractInfoFromIdCard Sample.today (lit "110101199011031234"))
  = Num 36
  /\ age (_extractInfoFromIdCard Sample.today (lit "110101199011041234"))
     = Num 35
  /\ age (_extractInfoFromIdCard Sample.today (lit "11010119")) = Num 2007
  /\ age (_extractInfoFromIdCard Sample.today (lit "110101")) = NaN.
Proof. repeat split. Qed.

Example index_examples :
  areaCodeByName (this Sample.world)
  = [ ([21271; 20140; 24066]%N, lit "110000");
      ([28246; 21271; 30465]%N, lit "420000");
      ([28246; 21271; 30465; 27494; 27721; 24066]%N, lit "420100");
      ([27494; 27721; 24066]%N, lit "420100");
      ([21271; 20140; 24066; 19996; 22478; 21306]%N, lit "110101");
      ([19996; 22478; 21306]%N, lit "110101");
      ([28246; 21271; 30465; 27494; 27721; 24066; 24066; 36758; 21306]%N,
       lit "420101");
      ([24066; 36758; 21306]%N, lit "420101");
      ([28246; 21271; 30465; 27494; 27721; 24066; 27743; 23736; 21306]%N,
       lit "420102");
      ([27743; 23736; 21306]%N, lit "420102") ].
Proof. vm_compute. reflexivity. Qed.

(** ** Arithmetic of the random draws *)

Lemma draw_bounds (r : draw) : 0 <= numer r < denom r.
Proof.
  destruct r as [a k H]; unfold denom; simpl.
  apply andb_prop in H as [H _]. apply andb_prop in H as [H H3].
  apply andb_prop in H as [H1 _].
  apply Z.leb_le in H1. apply Z.ltb_lt in H3. lia.
Qed.

Lemma draw_significand (r : draw) : numer r < 2 ^ 53.
Proof.
  destruct r as [a k H]; simpl.
  apply andb_prop in H as [H _]. apply andb_prop in H as [H _].
  apply andb_prop in H as [_ H2]. by apply Z.ltb_lt in H2.
Qed.

(** Rounding to the nearest double moves a number by at most one part in
    [2 ^ 53]. *)
Lemma nearest_double_bounds (p : Z) :
  0 <= p ->
  0 <= nearest_double p
  /\ p * (2 ^ 53 - 1) <= nearest_double p * 2 ^ 53 <= p * (2 ^ 53 + 1).
Proof.
  intros Hp. unfold nearest_double.
  destruct (Z.leb_spec (Z.log2 p - 52) 0) as [Hs | Hs]; [lia|].
  set (s := Z.log2 p - 52) in *.
  assert (0 < p) as Hpos.
  { destruct (Z.eq_dec p 0) as [-> | ?]; [|lia].
    unfold s in Hs. simpl in Hs. lia. }
  pose proof (Z.log2_spec p Hpos) as [Hlo _].
  replace (Z.log2 p) with (s + 52) in Hlo by (unfold s; lia).
  assert (2 ^ (s + 52) = 2 ^ (s - 1) * 2 ^ 53) as E1.
  { rewrite <- Z.pow_add_r by lia. f_equal. lia. }
  assert (2 ^ s = 2 * 2 ^ (s - 1)) as E2.
  { replace s with (1 + (s - 1)) at 1 by lia.
    rewrite Z.pow_add_r by lia. reflexivity. }
  assert (0 < 2 ^ (s - 1)) as Hh by (apply Z.pow_pos_nonneg; lia).
  pose proof (Z.div_mod p (2 ^ s) ltac:(lia)) as Hdm.
  pose proof (Z.mod_pos_bound p (2 ^ s) ltac:(lia)) as Hm.
  assert (0 <= p / 2 ^ s) as Hq by (apply Z.div_pos; lia).
  clearbody s.
  set (q := p / 2 ^ s) in *. set (rest := p mod 2 ^ s) in *.
  set (half := 2 ^ (s - 1)) in *.
  rewrite E2 in *. rewrite E1 in Hlo.
  change (2 ^ 53) with 9007199254740992 in *.
  clearbody q rest half.
  destruct ((half <? rest) || ((rest =? half) && Z.odd q)) eqn:Eup.
  - assert (half <= rest) as Hup.
    { apply orb_prop in Eup as [H | H].
      - apply Z.ltb_lt in H. lia.
      - apply andb_prop in H as [H _]. apply Z.eqb_eq in H. lia. }
    split; [nia|]. split; nia.
  - assert (rest <= half) as Hdown.
    { apply orb_false_elim in Eup as [H _]. apply Z.ltb_ge in H. lia. }
    split; [nia|]. split; nia.
Qed.

Lemma floor_times_range (r : draw) (n : Z) :
  0 < n -> 0 <= floor_times r n < n.
Proof.
  intros Hn. pose proof (draw_bounds r) as Hr.
  pose proof (draw_significand r) as Hsig.
  unfold floor_times.
  destruct (nearest_double_bounds (numer r * n) ltac:(nia)) as (H0 & _ & Hup).
  assert (0 < denom r) as Hd by lia.
  assert (denom r = 2 ^ scale r) as Hpow by reflexivity.
  assert (denom r < 2 ^ 53 \/ 2 ^ 53 <= denom r) as Hcase by lia.
  change (2 ^ 53) with 9007199254740992 in *.
  set (v := nearest_double (numer r * n)) in *.
  clearbody v. clear Hpow.
  split.
  - apply Z.div_pos; lia.
  - apply Z.div_lt_upper_bound; [lia|].
    destruct Hcase; nia.
Qed.

(** The draw [middle k n] makes [Math.floor(r * n)] the number [k]. *)
Lemma middle_hits (k n : Z) :
  0 <= k < n -> n <= 2 ^ 32 -> floor_times (middle k n) n = k.
Proof.
  intros Hk Hn. unfold middle.
  set (h := 2 ^ 51). set (q := (2 * k + 1) * h / n).
  pose proof (Z.div_mod ((2 * k + 1) * h) n ltac:(lia)) as Hdm.
  pose proof (Z.mod_pos_bound ((2 * k + 1) * h) n ltac:(lia)) as Hm.
  fold q in Hdm.
  assert (0 <= q) as Hq0 by (apply Z.div_pos; unfold h; lia).
  assert (q + 1 < 2 ^ 52) as Hq1.
  { assert (q < 2 ^ 52 - 1); [|lia].
    apply Z.div_lt_upper_bound; [lia|]. unfold h.
    change (2 ^ 32) with 4294967296 in Hn.
    change (2 ^ 51) with 2251799813685248.
    change (2 ^ 52) with 4503599627370496. lia. }
  unfold double_of.
  destruct (decide _) as [H | H].
  2:{ exfalso. apply H. rewrite !andb_true_iff.
      rewrite Z.leb_le, !Z.ltb_lt.
      change (2 ^ 53) with (2 * 2 ^ 52).
      repeat split; (lia || reflexivity). }
  unfold floor_times, denom. cbn [numer scale].
  destruct (nearest_double_bounds ((q + 1) * n) ltac:(nia))
    as (_ & Hlo & Hhi).
  set (v := nearest_double ((q + 1) * n)) in *. clearbody v.
  assert ((2 * k + 1) * h < (q + 1) * n <= (2 * k + 1) * h + n) as Hp by nia.
  set (p := (q + 1) * n) in *. clearbody p. clear H Hdm Hm Hq0 Hq1.
  clearbody q. unfold h in *. clear h.
  change (2 ^ 32) with 4294967296 in Hn.
  change (2 ^ 51) with 2251799813685248 in *.
  change (2 ^ 52) with 4503599627370496 in *.
  change (2 ^ 53) with 9007199254740992 in *.
  symmetry. apply Z.div_unique with (r := v - 4503599627370496 * k); lia.
Qed.

Lemma round_bit (r : draw) : round r = 0 \/ round r = 1.
Proof.
  pose proof (draw_bounds r) as Hr. unfold round.
  assert (0 <= (2 * numer r + denom r) / (2 * denom r) < 2) as H.
  { split; [apply Z.div_pos; lia | apply Z.div_lt_upper_bound; lia]. }
  lia.
Qed.

Lemma check_range_correct (P : Z -> bool) (lo : Z) (len : nat) :
  check_range P lo len = true ->
  forall z, lo <= z < lo + Z.of_nat len -> P z = true.
Proof.
  unfold check_range. intros H z Hz.
  rewrite forallb_forall in H.
  specialize (H (Z.to_nat (z - lo))).
  rewrite Z2Nat.id in H by lia.
  replace (lo + (z - lo)) with z in H by lia.
  apply H. apply in_seq. lia.
Qed.

(** ** Strings of digits *)

Lemma is_digit_cases (c : N) :
  is_digit c = true ->
  (c = 48 \/ c = 49 \/ c = 50 \/ c = 51 \/ c = 52 \/ c = 53 \/ c = 54
   \/ c = 55 \/ c = 56 \/ c = 57)%N.
Proof.
  unfold is_digit. intros H. apply andb_prop in H as [H1 H2].
  apply N.leb_le in H1. apply N.leb_le in H2. lia.
Qed.

Ltac digit_cases H :=
  apply is_digit_cases in H;
  repeat (destruct H as [H | H]); subst.

Lemma digit_of_digit (c : N) :
  is_digit c = true -> digit_of 10 c = Some (Spec.digit_value c).
Proof. intros H. digit_cases H; reflexivity. Qed.

Lemma digit_value_range (c : N) :
  is_digit c = true -> 0 <= Spec.digit_value c <= 9.
Proof. intros H. digit_cases H; unfold Spec.digit_value; lia. Qed.

Lemma parse_digits_all (a : Z) (s : jsstring) :
  forallb is_digit s = true ->
  parse_digits 10 (Num a) s
  = Num (foldl (fun acc c => 10 * acc + Spec.digit_value c) a s).
Proof.
  revert a. induction s as [|c s IH]; intros a H; simpl in *; [done|].
  apply andb_prop in H as [Hc Hs].
  rewrite (digit_of_digit c Hc). apply IH, Hs.
Qed.

Lemma parse_digits_first (s : jsstring) :
  s <> [] -> forallb is_digit s = true ->
  parse_digits 10 NaN s = Num (Spec.decimal_value s).
Proof.
  destruct s as [|c s]; [done|]. intros _ H. simpl in *.
  apply andb_prop in H as [Hc Hs].
  rewrite (digit_of_digit c Hc).
  unfold Spec.decimal_value. simpl. apply parse_digits_all, Hs.
Qed.

(** [parseInt] reads a non-empty string of digits as its decimal value. *)
Lemma parseInt_digits (s : jsstring) :
  s <> [] -> forallb is_digit s = true ->
  parseInt s = Num (Spec.decimal_value s).
Proof.
  intros Hne H.
  assert (parseInt s = num_mul (Num 1) (parse_digits 10 NaN s)) as ->.
  { destruct s as [|c s]; [done|]. simpl in H.
    apply andb_prop in H as [Hc Hs].
    digit_cases Hc; try reflexivity.
    destruct s as [|c2 s]; [reflexivity|]. simpl in Hs.
    apply andb_prop in Hs as [Hc2 _].
    digit_cases Hc2; reflexivity. }
  rewrite parse_digits_first by done. simpl. f_equal. lia.
Qed.

Lemma parseInt_digit (c : N) :
  is_digit c = true -> parseInt [c] = Num (Spec.digit_value c).
Proof. intros H. digit_cases H; reflexivity. Qed.

Lemma decimal_length (w : nat) (n : Z) : length (Spec.decimal w n) = w.
Proof.
  revert n. induction w as [|w IH]; intros n; simpl; [done|].
  rewrite length_app, IH. simpl. lia.
Qed.

Lemma decimal_digits (w : nat) (n : Z) :
  forallb is_digit (Spec.decimal w n) = true.
Proof.
  revert n. induction w as [|w IH]; intros n; simpl; [done|].
  rewrite forallb_app, IH. simpl.
  pose proof (Z.mod_pos_bound n 10 ltac:(lia)) as Hm.
  unfold is_digit. rewrite andb_true_r.
  apply andb_true_intro. split; apply N.leb_le; lia.
Qed.

Lemma decimal_value_app (s t : jsstring) :
  Spec.decimal_value (s ++ t)
  = foldl (fun acc c => 10 * acc + Spec.digit_value c)
          (Spec.decimal_value s) t.
Proof. unfold Spec.decimal_value. apply foldl_app. Qed.

Lemma decimal_value_decimal (w : nat) (n : Z) :
  0 <= n -> Spec.decimal_value (Spec.decimal w n) = n `mod` 10 ^ Z.of_nat w.
Proof.
  revert n. induction w as [|w IH]; intros n Hn.
  - simpl. rewrite Z.mod_1_r. reflexivity.
  - cbn [Spec.decimal]. rewrite decimal_value_app. cbn [foldl].
    rewrite IH by (apply Z.div_pos; lia).
    unfold Spec.digit_value.
    pose proof (Z.mod_pos_bound n 10 ltac:(lia)) as Hm.
    rewrite Z2N.id by lia.
    rewrite Nat2Z.inj_succ, Z.pow_succ_r by lia.
    assert (0 < 10 ^ Z.of_nat w) as Hp by (apply Z.pow_pos_nonneg; lia).
    rewrite Z.rem_mul_r by lia. lia.
Qed.

Lemma decimal_value_exact (w : nat) (n : Z) :
  0 <= n < 10 ^ Z.of_nat w -> Spec.decimal_value (Spec.decimal w n) = n.
Proof.
  intros Hn. rewrite decimal_value_decimal by lia. apply Z.mod_small, Hn.
Qed.

Lemma parseInt_decimal (w : nat) (n : Z) :
  (0 < w)%nat -> 0 <= n < 10 ^ Z.of_nat w ->
  parseInt (Spec.decimal w n) = Num n.
Proof.
  intros Hw Hn. rewrite parseInt_digits.
  - by rewrite decimal_value_exact.
  - intros E. apply (f_equal length) in E.
    rewrite decimal_length in E. simpl in E. lia.
  - apply decimal_digits.
Qed.

Lemma same_string_eq (s t : jsstring) : same_string s t = true -> s = t.
Proof. unfold same_string. apply bool_decide_eq_true_1. Qed.

(** [_pad] and [String] on the ranges the generator uses. *)
Lemma pad3_decimal (n : Z) :
  0 <= n <= 999 -> _pad (Num n) 3 = Spec.decimal 3 n.
Proof.
  intros Hn.
  apply same_string_eq.
  apply (check_range_correct
           (fun n => same_string (_pad (Num n) 3) (Spec.decimal 3 n)) 0 1000);
    [vm_compute; reflexivity | lia].
Qed.

Lemma pad2_decimal (n : Z) :
  0 <= n <= 99 -> _pad (Num n) 2 = Spec.decimal 2 n.
Proof.
  intros Hn.
  apply same_string_eq.
  apply (check_range_correct
           (fun n => same_string (_pad (Num n) 2) (Spec.decimal 2 n)) 0 100);
    [vm_compute; reflexivity | lia].
Qed.

Lemma String_year_decimal (y : Z) :
  1900 <= y <= 2100 -> String_of (Num y) = Spec.decimal 4 y.
Proof.
  intros Hy.
  apply same_string_eq.
  apply (check_range_correct
           (fun n => same_string (String_of (Num n)) (Spec.decimal 4 n)) 1900 201);
    [vm_compute; reflexivity | lia].
Qed.

(** ** Running the monad *)

Lemma bind_inr {A B} (m : M A) (k : A -> M B) (w : World) (b : B)
  (w' : World) :
  bind m k w = inr (b, w')
  <-> exists a w1, m w = inr (a, w1) /\ k a w1 = inr (b, w').
Proof.
  unfold bind. split.
  - destruct (m w) as [e | [a w1]]; [done|]. intros H. by exists a, w1.
  - intros (a & w1 & -> & H). exact H.
Qed.

Lemma bind_run {A B} (m : M A) (k : A -> M B) (w : World) (a : A)
  (w1 : World) :
  m w = inr (a, w1) -> bind m k w = k a w1.
Proof. unfold bind. by intros ->. Qed.

Lemma forEach_invariant {A} (I : World -> Prop) (l : list A)
  (f : A -> M unit) :
  (forall x w u w', I w -> f x w = inr (u, w') -> I w') ->
  forall w u w', I w -> forEach l f w = inr (u, w') -> I w'.
Proof.
  intros Hf. induction l as [|x l IH]; intros w u w' HI H.
  - inversion H. by subst.
  - cbn [forEach] in H. apply bind_inr in H as (a & w1 & H1 & H2).
    eapply IH; [|exact H2]. eapply Hf; [exact HI | exact H1].
Qed.

Lemma frame_refl (w : World) : frame w w.
Proof. by unfold frame. Qed.

Lemma frame_trans (w1 w2 w3 : World) :
  frame w1 w2 -> frame w2 w3 -> frame w1 w3.
Proof. unfold frame. intros (-> & -> & ->) (-> & -> & ->). done. Qed.

Lemma addAreaCodeMapping_frame (code name : jsstring) (w : World) (u : unit)
  (w' : World) :
  _addAreaCodeMapping code name w = inr (u, w') -> frame w w'.
Proof. intros H. inversion H. by unfold frame. Qed.

Lemma getProvinceName_pure (provinceCode : jsstring) (w : World)
  (a : jsstring) (w' : World) :
  _getProvinceName provinceCode w = inr (a, w') -> w' = w.
Proof.
  unfold _getProvinceName, bind, self, ret, throw.
  cbn [this]. intros H. repeat case_match; by simplify_eq.
Qed.

Lemma getCityInfo_pure (provinceCode cityCode : jsstring) (w : World)
  (a : option CityItem) (w' : World) :
  _getCityInfo provinceCode cityCode w = inr (a, w') -> w' = w.
Proof.
  unfold _getCityInfo, bind, self, ret. intros H. by simplify_eq.
Qed.

(** Splits a successful run of a sequence of steps into its steps. *)
Ltac bind_steps H :=
  repeat (apply bind_inr in H as (? & ? & ? & H)).

Ltac frame_steps :=
  repeat match goal with
         | H : update _ _ = inr _ |- _ => inversion H; clear H; subst
         | H : _addAreaCodeMapping _ _ _ = inr _ |- _ =>
             inversion H; clear H; subst
         | H : _getProvinceName _ _ = inr _ |- _ =>
             apply getProvinceName_pure in H; subst
         | H : _getCityInfo _ _ _ = inr _ |- _ =>
             apply getCityInfo_pure in H; subst
         end.

Section Init.

Variable province : list ProvinceItem.
Variable city : list CityItem.
Variable area : list AreaItem.
Variable town : list TownItem.

Lemma buildProvinceMaps_frame (w : World) (u : unit) (w' : World) :
  _buildProvinceMaps province w = inr (u, w') -> frame w w'.
Proof.
  apply (forEach_invariant (frame w)); [|apply frame_refl].
  clear. intros p w1 u w2 HI H. inversion H. subst.
  eapply frame_trans; [exact HI|]. by unfold frame.
Qed.

Lemma buildCityMaps_frame (w : World) (u : unit) (w' : World) :
  _buildCityMaps city w = inr (u, w') -> frame w w'.
Proof.
  apply (forEach_invariant (frame w)); [|apply frame_refl].
  clear. intros c w1 u w2 HI H.
  eapply frame_trans; [exact HI|].
  bind_steps H. frame_steps. by unfold frame.
Qed.

Lemma buildAreaMaps_frame (w : World) (u : unit) (w' : World) :
  _buildAreaMaps area w = inr (u, w') -> frame w w'.
Proof.
  apply (forEach_invariant (frame w)); [|apply frame_refl].
  clear. intros a w1 u w2 HI H.
  eapply frame_trans; [exact HI|].
  bind_steps H. frame_steps. by unfold frame.
Qed.

Lemma buildTownMaps_frame (w : World) (u : unit) (w' : World) :
  _buildTownMaps town w = inr (u, w') -> frame w w'.
Proof.
  apply (forEach_invariant (frame w)); [|apply frame_refl].
  clear. intros t w1 u w2 HI H. inversion H. subst.
  eapply frame_trans; [exact HI|]. by unfold frame.
Qed.

(** A successful initialisation sets [initialized] and leaves the random
    source and the two lazy caches alone. *)
Lemma ensureInitialized_frame (w : World) (u : unit) (w' : World) :
  _ensureInitialized province city area town w = inr (u, w') ->
  initialized (this w') = true /\ frame w w'.
Proof.
  unfold _ensureInitialized, _initData. intros H.
  apply bind_inr in H as (g & w0 & Hg & H). inversion Hg; subst; clear Hg.
  destruct (initialized (this w0)) eqn:Hinit; cbn [negb] in H.
  { inversion H. subst. split; [done | apply frame_refl]. }
  apply bind_inr in H as (g & w1 & Hg & H). inversion Hg; subst; clear Hg.
  rewrite Hinit in H.
  apply bind_inr in H as (? & w2 & H2 & H).
  apply bind_inr in H as (? & w3 & H3 & H).
  apply bind_inr in H as (? & w4 & H4 & H).
  apply bind_inr in H as (? & w5 & H5 & H).
  inversion H. subst. split; [done|].
  apply buildProvinceMaps_frame in H2. apply buildCityMaps_frame in H3.
  apply buildAreaMaps_frame in H4. apply buildTownMaps_frame in H5.
  eapply frame_trans; [exact H2|]. eapply frame_trans; [exact H3|].
  eapply frame_trans; [exact H4|]. eapply frame_trans; [exact H5|].
  by unfold frame.
Qed.

Lemma ensureInitialized_done (w : World) :
  initialized (this w) = true ->
  _ensureInitialized province city area town w = inr (tt, w).
Proof.
  intros H. unfold _ensureInitialized, bind, self. by rewrite H.
Qed.

End Init.

(** ** The sequence code *)

Lemma decimal3_last (n : Z) :
  0 <= n ->
  exists c, Spec.decimal 3 n !! 2%nat = Some c
            /\ Spec.digit_value c `mod` 2 = n `mod` 2.
Proof.
  intros Hn. exists (Z.to_N (48 + n `mod` 10)). split; [reflexivity|].
  pose proof (Z.mod_pos_bound n 10 ltac:(lia)) as Hm.
  unfold Spec.digit_value. rewrite Z2N.id by lia.
  replace (48 + n `mod` 10 - 48) with (n `mod` 10) by lia.
  apply Z.mod_mod_divide. exists 5. lia.
Qed.

(** The sequence code of a gender 0 or 1, in full. *)
Lemma sequence_code_adjusted (gender_bit : Z) (w : World) :
  gender_bit = 0 \/ gender_bit = 1 ->
  let raw := floor_times (entropy w 0%nat) 999 + 1 in
  exists num,
    _generateSequenceCode (Num gender_bit) w
      = inr (Spec.decimal 3 num, consume 1 w)
    /\ 1 <= raw <= 999
    /\ 1 <= num <= 999
    /\ num `mod` 2 = gender_bit
    /\ parseInt (Spec.decimal 3 num) = Num num
    /\ (exists c, Spec.decimal 3 num !! 2%nat = Some c
                  /\ Spec.digit_value c `mod` 2 = gender_bit)
    /\ (raw `mod` 2 = gender_bit -> num = raw)
    /\ (raw `mod` 2 <> gender_bit -> gender_bit = 1 ->
        num = Z.min (raw + 1) 999)
    /\ (raw `mod` 2 <> gender_bit -> gender_bit = 0 ->
        num = Z.max (raw - 1) 2 /\ (raw - 1 < 1 -> num = 2)).
Proof.
  intros Hg raw.
  pose proof (floor_times_range (entropy w 0%nat) 999 ltac:(lia)) as Hr.
  assert (1 <= raw <= 999) as Hraw by (unfold raw; lia).
  assert (Z.rem raw 2 = raw `mod` 2) as Hrem
    by (apply Z.rem_mod_nonneg; lia).
  pose proof (Z.mod_pos_bound raw 2 ltac:(lia)) as Hm.
  unfold _generateSequenceCode, bind, Math_random, ret. fold raw.
  rewrite Hrem.
  set (num := if (num_eq (Num gender_bit) (Num 1)
                  && negb (raw `mod` 2 =? 1))
                 || (num_eq (Num gender_bit) (Num 0) && (raw `mod` 2 =? 1))
              then _ else raw).
  assert (1 <= num <= 999 /\ num `mod` 2 = gender_bit
          /\ (raw `mod` 2 = gender_bit -> num = raw)
          /\ (raw `mod` 2 <> gender_bit -> gender_bit = 1 ->
              num = Z.min (raw + 1) 999)
          /\ (raw `mod` 2 <> gender_bit -> gender_bit = 0 ->
              num = Z.max (raw - 1) 2 /\ (raw - 1 < 1 -> num = 2)))
    as (Hn & Hpar & Hsame & Hup & Hdown).
  { subst num. clear Hrem Hr. clearbody raw.
    destruct Hg as [-> | ->]; cbn [num_eq Z.eqb Pos.eqb andb orb negb];
      destruct (Z.eqb_spec (raw `mod` 2) 1) as [E | E];
      cbn [andb orb negb].
    - (* gender 0, the draw is odd *)
      change (raw + -1) with (raw - 1).
      destruct (Z.ltb_spec 999 (raw - 1)); [lia|].
      destruct (Z.ltb_spec (raw - 1) 1); Z.div_mod_to_equations; lia.
    - Z.div_mod_to_equations; lia.
    - Z.div_mod_to_equations; lia.
    - (* gender 1, the draw is even *)
      destruct (Z.ltb_spec 999 (raw + 1)); [Z.div_mod_to_equations; lia|].
      destruct (Z.ltb_spec (raw + 1) 1); Z.div_mod_to_equations; lia. }
  exists num. split.
  { rewrite pad3_decimal by lia. reflexivity. }
  repeat split; try done; try lia.
  - apply parseInt_decimal; [lia | simpl; lia].
  - destruct (decimal3_last num ltac:(lia)) as (c & Hc & Hv).
    exists c. split; [done | congruence].
Qed.

(** Whatever the gender, the sequence code is three digits of a number of
    [1, 999]. *)
Lemma sequence_code_shape (gender : number) (w : World) :
  exists num,
    _generateSequenceCode gender w = inr (Spec.decimal 3 num, consume 1 w)
    /\ 1 <= num <= 999.
Proof.
  pose proof (floor_times_range (entropy w 0%nat) 999 ltac:(lia)) as Hr.
  unfold _generateSequenceCode, bind, Math_random, ret.
  set (raw := floor_times (entropy w 0%nat) 999 + 1) in *.
  match goal with |- context [_pad (Num ?n) 3] => set (num := n) end.
  assert (1 <= num <= 999) as Hn.
  { assert (1 <= raw <= 999) as Hraw by (unfold raw; lia).
    subst num. clearbody raw. destruct (_ || _); [|lia].
    destruct (num_eq gender (Num 1)); cbv zeta.
    - destruct (Z.ltb_spec 999 (raw + 1));
        match goal with |- context [?a <? 1] => destruct (Z.ltb_spec a 1) end;
        lia.
    - destruct (Z.ltb_spec 999 (raw + -1));
        match goal with |- context [?a <? 1] => destruct (Z.ltb_spec a 1) end;
        lia. }
  exists num. split; [|done].
  rewrite pad3_decimal by lia. reflexivity.
Qed.

(** C3. For each gender 0 or 1 and each random draw, [_generateSequenceCode]
    returns three decimal digits whose number lies in [1, 999] and is odd
    for gender 1 and even for gender 0 (so is its last digit); the number is
    the drawn one when its parity fits, and otherwise the drawn one plus 1
    (at most 999) for gender 1, minus 1 (2 instead of 0) for gender 0. *)
Theorem sequence_code_parity (gender_bit : Z) (w : World) :
  gender_bit = 0 \/ gender_bit = 1 ->
  let raw := floor_times (entropy w 0%nat) 999 + 1 in
  exists num,
    _generateSequenceCode (Num gender_bit) w
      = inr (Spec.decimal 3 num, consume 1 w)
    /\ 1 <= raw <= 999
    /\ 1 <= num <= 999
    /\ num `mod` 2 = gender_bit
    /\ parseInt (Spec.decimal 3 num) = Num num
    /\ (exists c, Spec.decimal 3 num !! 2%nat = Some c
                  /\ Spec.digit_value c `mod` 2 = gender_bit)
    /\ (raw `mod` 2 = gender_bit -> num = raw)
    /\ (raw `mod` 2 <> gender_bit -> gender_bit = 1 ->
        num = Z.min (raw + 1) 999)
    /\ (raw `mod` 2 <> gender_bit -> gender_bit = 0 ->
        num = Z.max (raw - 1) 2 /\ (raw - 1 < 1 -> num = 2)).
Proof. apply sequence_code_adjusted. Qed.

Lemma sequence_code_parity_witness :
  (1 = 0 \/ 1 = 1)
  /\ exists num,
       _generateSequenceCode (Num 1) Sample.world
         = inr (Spec.decimal 3 num, consume 1 Sample.world)
       /\ num `mod` 2 = 1.
Proof.
  split; [right; reflexivity|].
  destruct (sequence_code_parity 1 Sample.world (or_intror eq_refl))
    as (num & H1 & _ & _ & H2 & _).
  exists num. split; [exact H1 | exact H2].
Defined.

(** The product is rounded before [Math.floor]. For the draw
    1199156657538090 / 2^53 the exact product with 999 is a little below
    133 and the double nearest to it is 133: the drawn number is 134, and
    the sequence code of the gender 1 is 135. *)
Example sequence_code_rounded_product :
  let r := Sample.double 1199156657538090 53 eq_refl in
  numer r * 999 / denom r = 132
  /\ floor_times r 999 = 133
  /\ exists w',
       _generateSequenceCode (Num 1)
         {| this := Sample.blank; entropy := fun _ => r |}
       = inr (lit "135", w').
Proof.
  split; [reflexivity|]. split; [reflexivity|].
  eexists. vm_compute. reflexivity.
Qed.

(** ** Random birth dates *)

Lemma rem_zero_iff (y k : Z) : k <> 0 -> Z.rem y k = 0 <-> y `mod` k = 0.
Proof.
  intros Hk. rewrite Z.rem_divide, Z.mod_divide by done. reflexivity.
Qed.

Lemma isLeapYear_spec (y : Z) :
  _isLeapYear (Num y) = true <-> Spec.leap_year y.
Proof.
  unfold _isLeapYear, Spec.leap_year. cbn [num_rem num_eq Z.eqb].
  rewrite orb_true_iff, andb_true_iff, negb_true_iff.
  rewrite !Z.eqb_eq, Z.eqb_neq.
  rewrite !rem_zero_iff by lia. reflexivity.
Qed.

Lemma days_in_month_range (y m : Z) : 28 <= Spec.days_in_month y m <= 31.
Proof.
  unfold Spec.days_in_month.
  repeat case_bool_decide; try case_decide; lia.
Qed.

(** The day count that the generators compute from the padded month. *)
Lemma maxDay_spec (year : number) (y m : Z) :
  year = Num y -> 1 <= m <= 12 ->
  (if includes [lit "04"; lit "06"; lit "09"; lit "11"] (_pad (Num m) 2)
   then 30
   else if bool_decide (_pad (Num m) 2 = lit "02")
        then (if _isLeapYear year then 29 else 28)
        else 31)
  = Spec.days_in_month y m.
Proof.
  intros -> Hm.
  assert (m = 1 \/ m = 2 \/ m = 3 \/ m = 4 \/ m = 5 \/ m = 6 \/ m = 7
          \/ m = 8 \/ m = 9 \/ m = 10 \/ m = 11 \/ m = 12) as Hc by lia.
  repeat (destruct Hc as [Hc | Hc]); subst m; try reflexivity.
  change (includes _ (_pad (Num 2) 2)) with false.
  change (bool_decide (_pad (Num 2) 2 = lit "02")) with true.
  unfold Spec.days_in_month.
  change (bool_decide (2 ∈ [4; 6; 9; 11])) with false.
  change (bool_decide (2 = 2)) with true. cbn iota.
  pose proof (isLeapYear_spec y) as H.
  destruct (_isLeapYear (Num y)); case_decide; try done.
  - exfalso. tauto.
  - exfalso. assert (false = true) by tauto. done.
Qed.

Lemma days_in_short_month (y m : Z) :
  m ∈ [4; 6; 9; 11] -> Spec.days_in_month y m = 30.
Proof.
  intros Hin. unfold Spec.days_in_month.
  by rewrite bool_decide_eq_true_2.
Qed.

Lemma days_in_february (y : Z) :
  Spec.days_in_month y 2 = if decide (Spec.leap_year y) then 29 else 28.
Proof. reflexivity. Qed.

(** The random birth date, in full. *)
Lemma random_birthday_shape (w : World) :
  let y := 1950 + floor_times (entropy w 0%nat) 56 in
  let m := floor_times (entropy w 1%nat) 12 + 1 in
  let d := floor_times (entropy w 2%nat) (Spec.days_in_month y m) + 1 in
  _getRandomBirthday w
    = inr (Spec.decimal 4 y ++ Spec.decimal 2 m ++ Spec.decimal 2 d,
           consume 3 w)
  /\ 1950 <= y <= 2005
  /\ 1 <= m <= 12
  /\ 1 <= d <= Spec.days_in_month y m.
Proof.
  intros y m d.
  pose proof (floor_times_range (entropy w 0%nat) 56 ltac:(lia)) as Hy.
  pose proof (floor_times_range (entropy w 1%nat) 12 ltac:(lia)) as Hm.
  pose proof (days_in_month_range y m) as Hdim.
  pose proof (floor_times_range (entropy w 2%nat) (Spec.days_in_month y m)
                ltac:(lia)) as Hd.
  fold y in Hy. fold m in Hm. fold d in Hd.
  split; [|subst y m d; lia].
  unfold _getRandomBirthday, bind, Math_random, ret. cbn [entropy this].
  change (2005 - 1950 + 1) with 56. fold y. fold m.
  rewrite (maxDay_spec (Num y) y m) by (subst m; done || lia).
  fold d.
  rewrite String_year_decimal by (subst y; lia).
  rewrite !pad2_decimal by (subst m d; lia).
  reflexivity.
Qed.

(** Every valid date of the range is drawn by some random source. *)
Lemma random_birthday_reached (g : Generator) (y m d : Z) :
  1950 <= y <= 2005 -> 1 <= m <= 12 -> 1 <= d <= Spec.days_in_month y m ->
  _getRandomBirthday {| this := g; entropy := birthday_source y m d |}
  = inr (Spec.decimal 4 y ++ Spec.decimal 2 m ++ Spec.decimal 2 d,
         consume 3 {| this := g; entropy := birthday_source y m d |}).
Proof.
  intros Hy Hm Hd.
  pose proof (days_in_month_range y m) as Hdim.
  destruct (random_birthday_shape
              {| this := g; entropy := birthday_source y m d |})
    as (Hrun & _).
  cbv zeta in Hrun. cbn [entropy birthday_source] in Hrun.
  rewrite (middle_hits (y - 1950) 56) in Hrun by (simpl; lia).
  rewrite (middle_hits (m - 1) 12) in Hrun by (simpl; lia).
  replace (1950 + (y - 1950)) with y in Hrun by lia.
  replace (m - 1 + 1) with m in Hrun by lia.
  rewrite (middle_hits (d - 1) (Spec.days_in_month y m)) in Hrun
    by (simpl; lia).
  replace (d - 1 + 1) with d in Hrun by lia.
  exact Hrun.
Qed.

(** The three numbers of a date are read off its eight digits. *)
Lemma birth_date_inj (y m d y' m' d' : Z) :
  0 <= y < 10000 -> 0 <= m < 100 -> 0 <= d < 100 ->
  0 <= y' < 10000 -> 0 <= m' < 100 -> 0 <= d' < 100 ->
  Spec.decimal 4 y ++ Spec.decimal 2 m ++ Spec.decimal 2 d
  = Spec.decimal 4 y' ++ Spec.decimal 2 m' ++ Spec.decimal 2 d' ->
  y = y' /\ m = m' /\ d = d'.
Proof.
  intros Hy Hm Hd Hy' Hm' Hd' E.
  apply app_inj_1 in E as [Ey E]; [|by rewrite !decimal_length].
  apply app_inj_1 in E as [Em Ed]; [|by rewrite !decimal_length].
  apply (f_equal Spec.decimal_value) in Ey, Em, Ed.
  rewrite !decimal_value_exact in Ey, Em, Ed by (simpl; lia).
  done.
Qed.

(** C9. A random birth date is [YYYYMMDD] with a year in [1950, 2005], a
    month in [1, 12] and a day between 1 and the day count of that month
    under the Gregorian leap rule (30 for months 4, 6, 9 and 11; for
    February 29 exactly in leap years, else 28): the year, the month and
    the day are the ones that the three draws choose among 56 years, 12
    months and the days of that month. Every such date is drawn
    by some random source, so that for each year from 1950 to 2005 the
    29th of February is drawn by some source exactly when the year is a
    leap year. [_isLeapYear] is the Gregorian rule, so 2000 is a leap year
    and a year divisible by 100 but not by 400 is not; and 2000-02-29 is
    drawn by some random source. *)
Theorem random_birthday_valid (w : World) :
  (let y := 1950 + floor_times (entropy w 0%nat) 56 in
   let m := floor_times (entropy w 1%nat) 12 + 1 in
   let d := floor_times (entropy w 2%nat) (Spec.days_in_month y m) + 1 in
   _getRandomBirthday w
     = inr (Spec.decimal 4 y ++ Spec.decimal 2 m ++ Spec.decimal 2 d,
            consume 3 w)
   /\ 1950 <= y <= 2005
   /\ 1 <= m <= 12
   /\ 1 <= d <= Spec.days_in_month y m
   /\ (m ∈ [4; 6; 9; 11] -> d <= 30)
   /\ (m = 2 -> d <= 29 /\ (d = 29 -> Spec.leap_year y)))
  /\ (forall y m d,
        1950 <= y <= 2005 -> 1 <= m <= 12 ->
        1 <= d <= Spec.days_in_month y m ->
        exists w',
          _getRandomBirthday
            {| this := this w; entropy := birthday_source y m d |}
          = inr (Spec.decimal 4 y ++ Spec.decimal 2 m ++ Spec.decimal 2 d,
                 w'))
  /\ (forall y,
        1950 <= y <= 2005 ->
        (exists w0 w1,
            _getRandomBirthday w0 = inr (Spec.decimal 4 y ++ lit "0229", w1))
        <-> Spec.leap_year y)
  /\ (forall y, _isLeapYear (Num y) = true
                <-> (y `mod` 4 = 0 /\ y `mod` 100 <> 0) \/ y `mod` 400 = 0)
  /\ _isLeapYear (Num 2000) = true
  /\ Spec.days_in_month 2000 2 = 29
  /\ (forall y, y `mod` 100 = 0 -> y `mod` 400 <> 0 ->
                _isLeapYear (Num y) = false /\ Spec.days_in_month y 2 = 28)
  /\ (exists w0 w1, _getRandomBirthday w0 = inr (lit "20000229", w1)).
Proof.
  split; [|split; [|split; [|split; [|split; [|split; [|split]]]]]].
  - destruct (random_birthday_shape w) as (Hrun & Hy & Hm & Hd).
    cbv zeta in Hrun, Hy, Hm, Hd |- *. split; [exact Hrun|].
    split; [done|]. split; [done|]. split; [done|]. split.
    + intros Hin.
      pose proof (days_in_short_month
                    (1950 + floor_times (entropy w 0%nat) 56) _ Hin). lia.
    + intros E. rewrite E in Hd |- *.
      pose proof (days_in_february (1950 + floor_times (entropy w 0%nat) 56))
        as Hfeb.
      case_decide; [|lia]. split; [lia | done].
  - intros y m d Hy Hm Hd. eexists.
    by apply random_birthday_reached.
  - intros y Hy. split.
    + intros (w0 & w1 & Hrun).
      destruct (random_birthday_shape w0) as (Hshape & Hy' & Hm' & Hd').
      cbv zeta in Hshape, Hy', Hm', Hd'.
      set (y' := 1950 + floor_times (entropy w0 0%nat) 56) in *.
      set (m' := floor_times (entropy w0 1%nat) 12 + 1) in *.
      set (d' := floor_times (entropy w0 2%nat) (Spec.days_in_month y' m')
                 + 1) in *.
      pose proof (days_in_month_range y' m') as Hdim.
      rewrite Hshape in Hrun.
      assert (forall (a b : jsstring) (u v : World),
                @inr Error _ (a, u) = inr (b, v) -> a = b) as Hinj
        by (by intros a b u v [= -> _]).
      apply Hinj in Hrun as E. clear Hinj.
      change (lit "0229") with (Spec.decimal 2 2 ++ Spec.decimal 2 29) in E.
      apply birth_date_inj in E as (Ey & Em & Ed); try lia.
      rewrite Ey, Em, Ed in Hd'. rewrite days_in_february in Hd'.
      case_decide; [done | lia].
    + intros Hleap.
      assert (Spec.days_in_month y 2 = 29) as Hfeb.
      { rewrite days_in_february. by rewrite decide_True. }
      eexists _, _.
      apply (random_birthday_reached (this w) y 2 29); lia.
  - apply isLeapYear_spec.
  - reflexivity.
  - reflexivity.
  - intros y H100 H400. split.
    + destruct (_isLeapYear (Num y)) eqn:E; [|done].
      apply isLeapYear_spec in E. unfold Spec.leap_year in E. lia.
    + unfold Spec.days_in_month.
      change (bool_decide (2 ∈ [4; 6; 9; 11])) with false.
      change (bool_decide (2 = 2)) with true. cbn iota.
      case_decide as E; [|done]. unfold Spec.leap_year in E. lia.
  - exists (consume 1 Sample.world), (consume 4 Sample.world).
    vm_compute. reflexivity.
Qed.

(** The 29th of February 1996, from doubles: the year is a leap year
    though it is not divisible by 400. *)
Example leap_day_of_1996 :
  exists w',
    _getRandomBirthday
      {| this := Sample.blank; entropy := birthday_source 1996 2 29 |}
    = inr (lit "19960229", w').
Proof. eexists. vm_compute. reflexivity. Qed.

(** ** Decoding an identity number *)

(** The three numbers that [_extractInfoFromIdCard] reads in a string
    whose characters 7 to 14 are digits. *)
Lemma extract_birth_fields (today : Date) (idCard : jsstring) :
  (14 <= length idCard)%nat ->
  forallb is_digit (take 8 (drop 6 idCard)) = true ->
  let info := _extractInfoFromIdCard today idCard in
  birthYear info = Num (SpecAge.birth_year_of idCard)
  /\ birthMonth info = Num (SpecAge.birth_month_of idCard)
  /\ birthDay info = Num (SpecAge.birth_day_of idCard).
Proof.
  intros Hlen Hdig.
  do 14 (destruct idCard as [|? idCard]; [simpl in Hlen; lia|]).
  cbn [drop take forallb] in Hdig.
  repeat (apply andb_prop in Hdig as [? Hdig]).
  assert (forall a b,
            (a <= b)%nat -> (b <= 14)%nat ->
            substring (n :: n0 :: n1 :: n2 :: n3 :: n4 :: n5 :: n6 :: n7
                         :: n8 :: n9 :: n10 :: n11 :: n12 :: idCard) a b
            = take (b - a)
                (drop a (n :: n0 :: n1 :: n2 :: n3 :: n4 :: n5 :: n6 :: n7
                           :: n8 :: n9 :: n10 :: n11 :: n12 :: idCard)))
    as Hsub.
  { intros a b Hab Hb. unfold substring. cbn [length].
    rewrite !Nat.min_l by lia. rewrite Nat.max_r by lia. reflexivity. }
  unfold _extractInfoFromIdCard, SpecAge.birth_year_of,
    SpecAge.birth_month_of, SpecAge.birth_day_of.
  cbn [birthYear birthMonth birthDay].
  rewrite !Hsub by lia. cbn [drop take Nat.sub].
  repeat split; apply parseInt_digits; try done; cbn [forallb];
    repeat match goal with
           | H : is_digit ?c = true |- context [is_digit ?c] => rewrite H
           end; reflexivity.
Qed.

Lemma extract_age (today : Date) (idCard : jsstring) (y m d : Z) :
  let info := _extractInfoFromIdCard today idCard in
  birthYear info = Num y -> birthMonth info = Num m ->
  birthDay info = Num d ->
  age info = Num (SpecAge.age_on today y m d).
Proof.
  unfold _extractInfoFromIdCard. cbn [birthYear birthMonth birthDay age].
  intros -> -> ->. unfold SpecAge.age_on, SpecAge.birthday_pending.
  cbn [num_lt num_eq num_sub].
  destruct (Z.ltb_spec (getMonth today + 1) m);
    destruct (Z.eqb_spec (getMonth today + 1) m);
    destruct (Z.ltb_spec (getDate today) d);
    cbn [orb andb num_sub]; case_decide; f_equal; lia.
Qed.

(** C8. For an identity number (eighteen characters, the first seventeen
    of them digits) the decoded age is the current year minus the birth
    year, minus one exactly when the current month is before the birth
    month, or is the birth month with the current day before the birth day.
    So a birth date on today's month and day N years ago gives N, and the
    month and day of tomorrow (in this year), N years ago, give N - 1. *)
Theorem decoded_age (today : Date) (idCard : jsstring) :
  length idCard = 18%nat ->
  forallb is_digit (take 17 idCard) = true ->
  let y := SpecAge.birth_year_of idCard in
  let m := SpecAge.birth_month_of idCard in
  let d := SpecAge.birth_day_of idCard in
  let info := _extractInfoFromIdCard today idCard in
  birthYear info = Num y /\ birthMonth info = Num m /\ birthDay info = Num d
  /\ (getMonth today + 1 < m \/ (getMonth today + 1 = m /\ getDate today < d)
      -> age info = Num (getFullYear today - y - 1))
  /\ (~ (getMonth today + 1 < m
         \/ (getMonth today + 1 = m /\ getDate today < d))
      -> age info = Num (getFullYear today - y))
  /\ (forall N, y = getFullYear today - N -> m = getMonth today + 1 ->
                d = getDate today -> age info = Num N)
  /\ (forall N, y = getFullYear today - N ->
                SpecAge.tomorrow today = Some (m, d) ->
                age info = Num (N - 1)).
Proof.
  intros Hlen Hdig y m d info.
  assert (forallb is_digit (take 8 (drop 6 idCard)) = true) as Hdig8.
  { do 18 (destruct idCard as [|? idCard]; [simpl in Hlen; lia|]).
    cbn [drop take forallb] in *.
    repeat (apply andb_prop in Hdig as [? Hdig]).
    repeat match goal with
           | H : is_digit ?c = true |- context [is_digit ?c] => rewrite H
           end; reflexivity. }
  destruct (extract_birth_fields today idCard ltac:(lia) Hdig8)
    as (Hy & Hm & Hd).
  pose proof (extract_age today idCard y m d Hy Hm Hd) as Hage.
  fold info in Hage, Hy, Hm, Hd.
  split; [done|]. split; [done|]. split; [done|].
  rewrite Hage. clear Hage Hy Hm Hd. clearbody y m d.
  unfold SpecAge.age_on, SpecAge.birthday_pending.
  repeat split.
  - intros Hp. case_decide; [f_equal; lia | done].
  - intros Hp. case_decide; [done | f_equal; lia].
  - intros N Hy Hm Hd. case_decide; f_equal; lia.
  - intros N Hy Ht. unfold SpecAge.tomorrow in Ht.
    destruct (getDate today <? _) eqn:E1.
    + inversion Ht as [[E2 E3]]. case_decide; f_equal; lia.
    + destruct (getMonth today + 1 <? 12) eqn:E4; [|done].
      inversion Ht as [[E2 E3]]. case_decide; f_equal; lia.
Qed.

Lemma decoded_age_witness :
  length (lit "110101199011041234") = 18%nat
  /\ forallb is_digit (take 17 (lit "110101199011041234")) = true
  /\ age (_extractInfoFromIdCard Sample.today (lit "110101199011041234"))
     = Num 35.
Proof.
  split; [reflexivity|]. split; [reflexivity|].
  destruct (decoded_age Sample.today (lit "110101199011041234")
              eq_refl eq_refl) as (_ & _ & _ & Hpending & _).
  apply Hpending. right. split; [reflexivity | vm_compute; reflexivity].
Defined.

(** ** The check character *)

Lemma check_tables_agree :
  ID_CHECK_CODES = (fun c => [c]) <$> Spec.check_table.
Proof. reflexivity. Qed.

Lemma weights_agree : ID_WEIGHTS = Spec.weights.
Proof. reflexivity. Qed.

Lemma weighted_sum_nonneg (b : jsstring) :
  forallb is_digit b = true -> 0 <= Spec.weighted_sum b.
Proof.
  unfold Spec.weighted_sum.
  assert (Forall (fun w => 0 <= w) Spec.weights) as Hw.
  { unfold Spec.weights. repeat constructor; lia. }
  revert Hw. generalize Spec.weights as ws0.
  induction b as [|c b IH]; intros ws0 Hw H; [done|].
  destruct ws0 as [|w0 ws0]; [done|].
  simpl in H. apply andb_prop in H as [Hc Hb].
  apply Forall_cons in Hw as [Hw0 Hw].
  pose proof (digit_value_range c Hc). simpl.
  specialize (IH ws0 Hw Hb). nia.
Qed.

(** The loop of [_calculateCheckCode] on seventeen digits computes the
    check character of the specification. *)
Lemma calculateCheckCode_spec (b : jsstring) :
  length b = 17%nat -> forallb is_digit b = true ->
  exists c, Spec.check_code b = Some c
            /\ _calculateCheckCode b = Some [c].
Proof.
  intros Hlen Hdig.
  pose proof (weighted_sum_nonneg b Hdig) as Hpos.
  assert (_calculateCheckCode b
          = index ID_CHECK_CODES (num_rem (Num (Spec.weighted_sum b)) 11))
    as ->.
  { do 17 (destruct b as [|? b]; [simpl in Hlen; lia|]).
    destruct b; [|simpl in Hlen; lia].
    cbn [forallb] in Hdig.
    repeat (apply andb_prop in Hdig as [? Hdig]).
    unfold _calculateCheckCode. f_equal. f_equal.
    cbn [seq foldl charAt lookup list_lookup ID_WEIGHTS operand].
    rewrite !parseInt_digit by done.
    cbn [num_mul num_add]. f_equal.
    unfold Spec.weighted_sum, Spec.weights. cbn [zip_with foldr]. lia. }
  cbn [num_rem Z.eqb]. unfold index.
  rewrite Z.rem_mod_nonneg by lia.
  pose proof (Z.mod_pos_bound (Spec.weighted_sum b) 11 ltac:(lia)) as Hm.
  destruct (Z.ltb_spec (Spec.weighted_sum b `mod` 11) 0); [lia|].
  unfold Spec.check_code. rewrite check_tables_agree, list_lookup_fmap.
  destruct (Spec.check_table !! _) as [c|] eqn:E.
  - exists c. done.
  - apply lookup_ge_None in E. simpl in E. lia.
Qed.

(** ** [generateIdCard] step by step *)

Lemma validate_accepted (options : IdCardOptions) (w : World) :
  accepted options -> _validateIdCardOptions options w = inr (tt, w).
Proof.
  intros (Ha & Hb & Hg). unfold _validateIdCardOptions, bind, throw_if.
  assert (match areaCode options with
          | Some s => negb (falsy s) && negb (test_digits 6 s)
          | None => false
          end = false) as ->.
  { destruct (areaCode options) as [s|]; [|done].
    destruct (Ha s eq_refl) as [-> | ->]; [done | apply andb_false_r]. }
  assert (match birthday options with
          | Some s => negb (falsy s) && negb (test_digits 8 s)
          | None => false
          end = false) as ->.
  { destruct (birthday options) as [s|]; [|done].
    destruct (Hb s eq_refl) as [-> | ->]; [done | apply andb_false_r]. }
  assert (match gender options with
          | Some x => negb (includes [Num 0; Num 1] x)
          | None => false
          end = false) as ->.
  { destruct (gender options) as [x|]; [|done].
    destruct (Hg x eq_refl) as [-> | ->]; reflexivity. }
  reflexivity.
Qed.

Lemma pool_index {A} (pool : list A) (r : draw) :
  pool <> [] ->
  exists c, index pool (Num (floor_times r (arr_length pool))) = Some c
            /\ c ∈ pool.
Proof.
  intros Hne. unfold index, arr_length.
  assert (0 < Z.of_nat (length pool)) as Hlen.
  { destruct pool; [done | simpl; lia]. }
  pose proof (floor_times_range r _ Hlen) as Hr.
  destruct (Z.ltb_spec (floor_times r (Z.of_nat (length pool))) 0); [lia|].
  destruct (pool !! Z.to_nat (floor_times r (Z.of_nat (length pool))))
    as [c|] eqn:E.
  - exists c. split; [done|]. by eapply list_elem_of_lookup_2.
  - apply lookup_ge_None in E. lia.
Qed.

Section Generate.

Variable province : list ProvinceItem.
Variable city : list CityItem.
Variable area : list AreaItem.
Variable town : list TownItem.

Lemma getRandomAreaCode_run (w : World) :
  initialized (this w) = true ->
  cache_coherent area (this w) ->
  exists w',
    _getRandomAreaCode province city area town w
      = inr (index (district_pool area)
                   (Num (floor_times (entropy w 0%nat)
                                     (arr_length (district_pool area)))),
             w')
    /\ initialized (this w') = true
    /\ cache_coherent area (this w')
    /\ entropy w' = (fun n => entropy w (S n)).
Proof.
  intros Hinit Hcache. unfold _getRandomAreaCode.
  rewrite (bind_run _ _ _ _ _ (ensureInitialized_done _ _ _ _ w Hinit)).
  unfold bind, self, update, ret, Math_random.
  destruct Hcache as [Hc | Hc]; rewrite Hc;
    cbn [this randomAreaCodes set_randomAreaCodes entropy]; rewrite ?Hc.
  - eexists. split; [reflexivity|]. split; [exact Hinit|].
    split; [by right | reflexivity].
  - eexists. split; [reflexivity|]. split; [exact Hinit|].
    split; [right; exact Hc | reflexivity].
Qed.

(** The identity number that [generateIdCard] builds from accepted
    options: the area code, the birth date, the sequence code and the
    check character computed from them. *)
Lemma generateIdCard_parts (options : IdCardOptions) (w w1 : World) :
  _ensureInitialized province city area town w = inr (tt, w1) ->
  accepted options ->
  supplied (areaCode options) = true \/ cache_coherent area (this w) ->
  exists areaPart bday num g w',
    generateIdCard province city area town options w
      = inr (let base := interpolate areaPart ++ bday ++ Spec.decimal 3 num in
             base ++ interpolate (_calculateCheckCode base), w')
    /\ match areaCode options with
       | Some (c :: s) => areaPart = Some (c :: s)
       | _ => exists r : draw,
                areaPart = index (district_pool area)
                             (Num (floor_times r
                                     (arr_length (district_pool area))))
       end
    /\ match birthday options with
       | Some (c :: s) => bday = c :: s
       | _ => exists y m d,
                bday = Spec.decimal 4 y ++ Spec.decimal 2 m ++ Spec.decimal 2 d
                /\ 1950 <= y <= 2005 /\ 1 <= m <= 12
                /\ 1 <= d <= Spec.days_in_month y m
       end
    /\ 1 <= num <= 999
    /\ (g = 0 \/ g = 1)
    /\ (forall x, gender options = Some x -> x = Num g)
    /\ num `mod` 2 = g.
Proof.
  intros Hinit Hacc Hcache.
  destruct (ensureInitialized_frame _ _ _ _ _ _ _ Hinit)
    as (Hdone & He & Hr & _).
  unfold generateIdCard.
  rewrite (bind_run _ _ _ _ _ Hinit).
  rewrite (bind_run _ _ _ _ _ (validate_accepted options w1 Hacc)).
  (* the area code *)
  assert (exists areaPart w2,
            match areaCode options with
            | Some (c :: s) => ret (Some (c :: s))
            | _ => _getRandomAreaCode province city area town
            end w1 = inr (areaPart, w2)
            /\ match areaCode options with
               | Some (c :: s) => areaPart = Some (c :: s)
               | _ => exists r : draw,
                        areaPart = index (district_pool area)
                                     (Num (floor_times r
                                             (arr_length (district_pool area))))
               end)
    as (areaPart & w2 & Harea & HareaP).
  { destruct (areaCode options) as [[|c s]|] eqn:E.
    - destruct Hcache as [Hs | Hc]; [done|].
      destruct (getRandomAreaCode_run w1 Hdone) as (w2 & H2 & _).
      { unfold cache_coherent. rewrite Hr. exact Hc. }
      eexists _, w2. split; [exact H2 | by eexists].
    - by eexists _, w1.
    - destruct Hcache as [Hs | Hc]; [done|].
      destruct (getRandomAreaCode_run w1 Hdone) as (w2 & H2 & _).
      { unfold cache_coherent. rewrite Hr. exact Hc. }
      eexists _, w2. split; [exact H2 | by eexists]. }
  rewrite (bind_run _ _ _ _ _ Harea).
  (* the birth date *)
  assert (exists bday w3,
            match birthday options with
            | Some (c :: s) => ret (c :: s)
            | _ => _getRandomBirthday
            end w2 = inr (bday, w3)
            /\ match birthday options with
               | Some (c :: s) => bday = c :: s
               | _ => exists y m d,
                        bday = Spec.decimal 4 y ++ Spec.decimal 2 m
                               ++ Spec.decimal 2 d
                        /\ 1950 <= y <= 2005 /\ 1 <= m <= 12
                        /\ 1 <= d <= Spec.days_in_month y m
               end)
    as (bday & w3 & Hbday & HbdayP).
  { destruct (random_birthday_shape w2) as (Hrun & Hy & Hm & Hd).
    destruct (birthday options) as [[|c s]|] eqn:E.
    - eexists _, _. split; [exact Hrun|]. by eexists _, _, _.
    - by eexists _, w2.
    - eexists _, _. split; [exact Hrun|]. by eexists _, _, _. }
  rewrite (bind_run _ _ _ _ _ Hbday).
  (* the gender *)
  destruct Hacc as (_ & _ & Hgender).
  assert (exists g w4,
            match gender options with
            | Some x => ret x
            | None => r <- Math_random ;; ret (Num (round r))
            end w3 = inr (Num g, w4)
            /\ (g = 0 \/ g = 1)
            /\ (forall x, gender options = Some x -> x = Num g))
    as (g & w4 & Hg & Hbit & Hsame).
  { destruct (gender options) as [x|] eqn:E.
    - destruct (Hgender x eq_refl) as [-> | ->].
      + exists 0, w3. split; [done|]. split; [by left|].
        by intros ? [= <-].
      + exists 1, w3. split; [done|]. split; [by right|].
        by intros ? [= <-].
    - eexists (round (entropy w3 0%nat)), _. split; [reflexivity|].
      split; [apply round_bit | done]. }
  rewrite (bind_run _ _ _ _ _ Hg).
  destruct (sequence_code_adjusted g w4 Hbit)
    as (num & Hseq & _ & Hnum & Hpar & _).
  rewrite (bind_run _ _ _ _ _ Hseq).
  exists areaPart, bday, num, g, (consume 1 w4).
  split; [reflexivity|]. done.
Qed.

End Generate.

Lemma test_digits_spec (n : nat) (s : jsstring) :
  test_digits n s = true <-> length s = n /\ forallb is_digit s = true.
Proof.
  unfold test_digits. rewrite andb_true_iff, bool_decide_eq_true. done.
Qed.

Lemma birth_date_digits (y m d : Z) :
  test_digits 8 (Spec.decimal 4 y ++ Spec.decimal 2 m ++ Spec.decimal 2 d)
  = true.
Proof.
  apply test_digits_spec. split.
  - rewrite !length_app, !decimal_length. reflexivity.
  - rewrite !forallb_app, !decimal_digits. reflexivity.
Qed.

(** The test of [_validateIdCardOptions] on a string option. *)
Lemma string_check (n : nat) (o : option jsstring) :
  match o with
  | Some s => negb (falsy s) && negb (test_digits n s)
  | None => false
  end
  = supplied o && negb (match o with
                        | Some s => test_digits n s
                        | None => true
                        end).
Proof. by destruct o as [[|c s]|]. Qed.

Lemma string_check_true (n : nat) (o : option jsstring) :
  match o with
  | Some s => negb (falsy s) && negb (test_digits n s)
  | None => false
  end = true ->
  supplied o = true /\ (forall s, o = Some s -> test_digits n s = false).
Proof.
  rewrite string_check. intros [H1 H2]%andb_prop. split; [done|].
  intros s ->. by apply negb_true_iff.
Qed.

Lemma string_check_false (n : nat) (o : option jsstring) :
  match o with
  | Some s => negb (falsy s) && negb (test_digits n s)
  | None => false
  end = false ->
  forall s, o = Some s -> s = [] \/ test_digits n s = true.
Proof.
  intros H s ->. destruct s as [|c s]; [by left|]. right.
  cbn [falsy negb andb] in H. by apply negb_false_iff.
Qed.

Lemma string_check_ok (n : nat) (o : option jsstring) :
  (forall s, o = Some s -> s = [] \/ test_digits n s = true) ->
  match o with
  | Some s => negb (falsy s) && negb (test_digits n s)
  | None => false
  end = false.
Proof.
  intros H. destruct o as [s|]; [|done].
  destruct (H s eq_refl) as [-> | ->]; [done | apply andb_false_r].
Qed.

Lemma gender_check_true (o : option number) :
  match o with
  | Some x => negb (includes [Num 0; Num 1] x)
  | None => false
  end = true ->
  exists x, o = Some x /\ x <> Num 0 /\ x <> Num 1.
Proof.
  destruct o as [x|]; [|done]. intros H%negb_true_iff.
  apply bool_decide_eq_false in H. exists x. split; [done|].
  split; intros ->; apply H; repeat constructor.
Qed.

Lemma gender_check_false (o : option number) :
  match o with
  | Some x => negb (includes [Num 0; Num 1] x)
  | None => false
  end = false ->
  forall x, o = Some x -> x = Num 0 \/ x = Num 1.
Proof.
  intros H x ->. apply negb_false_iff, bool_decide_eq_true in H.
  apply elem_of_cons in H as [-> | H]; [by left|].
  apply elem_of_cons in H as [-> | H]; [by right|].
  by apply elem_of_nil in H.
Qed.

(** What [_validateIdCardOptions] answers: the first offending field, or
    nothing when the options are accepted. *)
Lemma validate_cases (options : IdCardOptions) (w : World) :
  (supplied (areaCode options) = true
   /\ (forall s, areaCode options = Some s -> test_digits 6 s = false)
   /\ _validateIdCardOptions options w = inl Error_areaCode)
  \/ ((forall s, areaCode options = Some s -> s = [] \/ test_digits 6 s = true)
      /\ supplied (birthday options) = true
      /\ (forall s, birthday options = Some s -> test_digits 8 s = false)
      /\ _validateIdCardOptions options w = inl Error_birthday)
  \/ ((forall s, areaCode options = Some s -> s = [] \/ test_digits 6 s = true)
      /\ (forall s, birthday options = Some s ->
                    s = [] \/ test_digits 8 s = true)
      /\ (exists x, gender options = Some x /\ x <> Num 0 /\ x <> Num 1)
      /\ _validateIdCardOptions options w = inl Error_gender)
  \/ (accepted options /\ _validateIdCardOptions options w = inr (tt, w)).
Proof.
  unfold _validateIdCardOptions, bind, throw_if, accepted.
  destruct (match areaCode options with Some _ => _ | None => _ end) eqn:Ea.
  { left. apply string_check_true in Ea as [? ?]. done. }
  pose proof (string_check_false _ _ Ea) as Ha.
  destruct (match birthday options with Some _ => _ | None => _ end) eqn:Eb.
  { right. left. apply string_check_true in Eb as [? ?]. done. }
  pose proof (string_check_false _ _ Eb) as Hb.
  destruct (match gender options with Some _ => _ | None => _ end) eqn:Eg.
  { right. right. left. apply gender_check_true in Eg. done. }
  pose proof (gender_check_false _ Eg) as Hg.
  right. right. right. done.
Qed.

Section Codec.

Variable province : list ProvinceItem.
Variable city : list CityItem.
Variable area : list AreaItem.
Variable town : list TownItem.

Lemma generateIdCard_rejects (options : IdCardOptions) (w w1 : World)
  (e : Error) :
  _ensureInitialized province city area town w = inr (tt, w1) ->
  _validateIdCardOptions options w1 = inl e ->
  generateIdCard province city area town options w = inl e.
Proof.
  intros Hinit Hval. unfold generateIdCard.
  rewrite (bind_run _ _ _ _ _ Hinit). unfold bind at 1. by rewrite Hval.
Qed.

End Codec.

(** ** The identity numbers that [generateIdCard] returns *)

Section Numbers.

Variable province : list ProvinceItem.
Variable city : list CityItem.
Variable area : list AreaItem.
Variable town : list TownItem.

(** An identity number made of seventeen digits and their check
    character. *)
Lemma well_formed_number (code bday : jsstring) (num : Z) :
  test_digits 6 code = true -> test_digits 8 bday = true ->
  let base := code ++ bday ++ Spec.decimal 3 num in
  let number := base ++ interpolate (_calculateCheckCode base) in
  length number = 18%nat
  /\ take 17 number = base
  /\ forallb is_digit base = true
  /\ (exists c, number !! 17%nat = Some c
                /\ Spec.check_code base = Some c
                /\ _calculateCheckCode base = Some [c]).
Proof.
  intros [Hc1 Hc2]%test_digits_spec [Hb1 Hb2]%test_digits_spec base number.
  assert (length base = 17%nat) as Hlen.
  { unfold base. rewrite !length_app, decimal_length. lia. }
  assert (forallb is_digit base = true) as Hdig.
  { unfold base. rewrite !forallb_app, Hc2, Hb2, decimal_digits. done. }
  destruct (calculateCheckCode_spec base Hlen Hdig) as (c & Hspec & Hcode).
  unfold number. rewrite Hcode. cbn [interpolate].
  split; [rewrite length_app; simpl; lia|].
  split; [by apply take_app_length'|].
  split; [done|].
  exists c. split; [by apply list_lookup_middle | done].
Qed.

(** C1. An identity number returned by [generateIdCard] for options that
    are absent or structurally valid has eighteen characters, the first
    seventeen are digits and the eighteenth is the check character of the
    specification (weighted sum of the digits, modulo 11, looked up in the
    table), which is what [_calculateCheckCode] computes: the checksum
    verification succeeds. *)
Theorem generated_number_checksum (options : IdCardOptions) (w w1 : World) :
  _ensureInitialized province city area town w = inr (tt, w1) ->
  cache_coherent area (this w) ->
  district_pool area <> [] ->
  forallb (test_digits 6) (district_pool area) = true ->
  accepted options ->
  exists number w',
    generateIdCard province city area town options w = inr (number, w')
    /\ length number = 18%nat
    /\ forallb is_digit (take 17 number) = true
    /\ (exists c, number !! 17%nat = Some c
                  /\ Spec.check_code (take 17 number) = Some c
                  /\ _calculateCheckCode (take 17 number) = Some [c])
    /\ Spec.verifyChecksum number = true.
Proof.
  intros Hinit Hcache Hne Hpool Hacc.
  destruct (generateIdCard_parts province city area town options w w1
              Hinit Hacc (or_intror Hcache))
    as (areaPart & bday & num & g & w' & Hrun & Harea & Hbday & _).
  assert (exists code, areaPart = Some code /\ test_digits 6 code = true)
    as (code & -> & Hcode).
  { destruct Hacc as (Ha & _ & _).
    destruct (areaCode options) as [[|c s]|] eqn:E.
    - destruct Harea as (r & ->).
      destruct (pool_index (district_pool area) r Hne) as (c & -> & Hin).
      exists c. split; [done|].
      rewrite forallb_forall in Hpool. by apply Hpool, list_elem_of_In.
    - exists (c :: s). split; [done|]. by destruct (Ha _ eq_refl).
    - destruct Harea as (r & ->).
      destruct (pool_index (district_pool area) r Hne) as (c & -> & Hin).
      exists c. split; [done|].
      rewrite forallb_forall in Hpool. by apply Hpool, list_elem_of_In. }
  assert (test_digits 8 bday = true) as Hb.
  { destruct Hacc as (_ & Hb & _).
    destruct (birthday options) as [[|c s]|] eqn:E.
    - destruct Hbday as (y & m & d & -> & _). apply birth_date_digits.
    - subst bday. by destruct (Hb _ eq_refl).
    - destruct Hbday as (y & m & d & -> & _). apply birth_date_digits. }
  destruct (well_formed_number code bday num Hcode Hb)
    as (Hlen & Htake & Hdig & c & Hc & Hspec & Hcalc).
  eexists _, w'. split; [exact Hrun|]. cbn [interpolate] in *.
  split; [done|]. rewrite Htake. split; [done|].
  split; [by exists c|].
  unfold Spec.verifyChecksum. rewrite Htake, Hdig, Hc, Hspec.
  rewrite !bool_decide_eq_true_2 by done. reflexivity.
Qed.

End Numbers.

Lemma generated_number_checksum_witness :
  exists number w',
    generateIdCard Sample.province Sample.city Sample.area Sample.town
      {| areaCode := None; birthday := None; gender := None |} Sample.world
    = inr (number, w')
    /\ Spec.verifyChecksum number = true.
Proof.
  destruct (generated_number_checksum
              Sample.province Sample.city Sample.area Sample.town
              {| areaCode := None; birthday := None; gender := None |}
              Sample.world Sample.world)
    as (number & w' & Hrun & _ & _ & _ & Hok).
  - vm_compute. reflexivity.
  - left. reflexivity.
  - vm_compute. discriminate.
  - vm_compute. reflexivity.
  - repeat split; intros ? [=].
  - exists number, w'. split; [exact Hrun | exact Hok].
Defined.

Section RoundTrip.

Variable province : list ProvinceItem.
Variable city : list CityItem.
Variable area : list AreaItem.
Variable town : list TownItem.

(** C2. For a region code of six digits, a birth date of eight digits and
    a gender 0 or 1, [generateIdCard] returns a number whose characters 1
    to 6 are the region code and whose characters 7 to 14 are the birth
    date, and [_extractInfoFromIdCard] reads in it the year, the month and
    the day that the digits of the birth date denote. *)
Theorem decode_encode_roundtrip (regionCode birthDate : jsstring) (g : Z)
  (today : Date) (w w1 : World) :
  test_digits 6 regionCode = true ->
  test_digits 8 birthDate = true ->
  g = 0 \/ g = 1 ->
  _ensureInitialized province city area town w = inr (tt, w1) ->
  exists number w',
    generateIdCard province city area town
      {| areaCode := Some regionCode; birthday := Some birthDate;
         gender := Some (Num g) |} w
    = inr (number, w')
    /\ substring number 0 6 = regionCode
    /\ substring number 6 14 = birthDate
    /\ birthYear (_extractInfoFromIdCard today number)
       = Num (Spec.decimal_value (take 4 birthDate))
    /\ birthMonth (_extractInfoFromIdCard today number)
       = Num (Spec.decimal_value (take 2 (drop 4 birthDate)))
    /\ birthDay (_extractInfoFromIdCard today number)
       = Num (Spec.decimal_value (take 2 (drop 6 birthDate))).
Proof.
  intros Hcode Hdate Hg Hinit.
  assert (accepted {| areaCode := Some regionCode;
                      birthday := Some birthDate;
                      gender := Some (Num g) |}) as Hacc.
  { repeat split; cbn; intros ? [= <-]; auto.
    destruct Hg as [-> | ->]; auto. }
  pose proof Hcode as [Hc1 Hc2]%test_digits_spec.
  pose proof Hdate as [Hb1 Hb2]%test_digits_spec.
  do 6 (destruct regionCode as [|? regionCode]; [simpl in Hc1; lia|]).
  destruct regionCode; [|simpl in Hc1; lia].
  do 8 (destruct birthDate as [|? birthDate]; [simpl in Hb1; lia|]).
  destruct birthDate; [|simpl in Hb1; lia].
  destruct (generateIdCard_parts province city area town _ w w1
              Hinit Hacc (or_introl eq_refl))
    as (areaPart & bday & num & g' & w' & Hrun & Harea & Hbday & _).
  cbn [areaCode birthday] in Harea, Hbday. subst areaPart bday.
  destruct (well_formed_number _ _ num Hcode Hdate)
    as (Hlen & _ & _ & c & _ & _ & Hcalc).
  cbv zeta in Hrun, Hcalc, Hlen. cbn [interpolate] in Hrun.
  rewrite Hcalc in Hrun, Hlen. cbn [interpolate] in Hrun, Hlen.
  eexists _, w'. split; [exact Hrun|].
  split; [reflexivity|]. split; [reflexivity|].
  apply extract_birth_fields.
  - cbn [length app]. lia.
  - exact Hb2.
Qed.

(** A code of the pool is the code of a district-level entry of the
    reference data that does not end in 00. *)
Lemma district_pool_member (c : jsstring) :
  c ∈ district_pool area ->
  exists a, a ∈ area /\ a_code a = c
            /\ endsWith (a_code a) (lit "00") = false.
Proof.
  unfold district_pool. intros (a & -> & Hin)%list_elem_of_fmap.
  apply list_elem_of_In, filter_In in Hin as [Hin Hend].
  exists a. split; [by apply list_elem_of_In|]. split; [done|].
  by apply negb_true_iff.
Qed.


(** C7, as the code has it. [generateIdCard] throws the error of the
    first offending field when [areaCode] is a non-empty string that is
    not six digits, when [birthday] is a non-empty string that is not
    eight digits, or when [gender] is given and is neither 0 nor 1;
    [generatePersonInfoByAreaAndAge] throws when the area name is empty
    and, for a non-empty name, when the age is undefined, below 0 or
    above 120. *)
Theorem invalid_options_rejected (options : IdCardOptions) (today : Date)
  (areaName : jsstring) (age : option number) (w w1 : World) :
  _ensureInitialized province city area town w = inr (tt, w1) ->
  let area_ok :=
    forall s, areaCode options = Some s -> s = [] \/ test_digits 6 s = true in
  let birthday_ok :=
    forall s, birthday options = Some s -> s = [] \/ test_digits 8 s = true in
  (forall c s, areaCode options = Some (c :: s) ->
               test_digits 6 (c :: s) = false ->
               generateIdCard province city area town options w
               = inl Error_areaCode)
  /\ (forall c s, area_ok -> birthday options = Some (c :: s) ->
                  test_digits 8 (c :: s) = false ->
                  generateIdCard province city area town options w
                  = inl Error_birthday)
  /\ (forall x, area_ok -> birthday_ok -> gender options = Some x ->
                x <> Num 0 -> x <> Num 1 ->
                generateIdCard province city area town options w
                = inl Error_gender)
  /\ (areaName = [] ->
      generatePersonInfoByAreaAndAge province city area town today
        areaName age options w = inl Error_areaName)
  /\ (areaName <> [] ->
      age = None \/ (exists a, age = Some (Num a) /\ (a < 0 \/ 120 < a)) ->
      generatePersonInfoByAreaAndAge province city area town today
        areaName age options w = inl Error_age).
Proof.
  intros Hinit area_ok birthday_ok.
  pose proof (generateIdCard_rejects province city area town options w w1)
    as Hrej.
  split; [|split; [|split; [|split]]].
  - intros c s E T. apply Hrej; [done|].
    unfold _validateIdCardOptions, bind, throw_if.
    rewrite E. cbn [falsy negb andb]. by rewrite T.
  - intros c s Ha E T. apply Hrej; [done|].
    unfold _validateIdCardOptions, bind, throw_if.
    rewrite (string_check_ok 6 _ Ha).
    rewrite E. cbn [falsy negb andb]. by rewrite T.
  - intros x Ha Hb E H0 H1. apply Hrej; [done|].
    unfold _validateIdCardOptions, bind, throw_if.
    rewrite (string_check_ok 6 _ Ha), (string_check_ok 8 _ Hb).
    rewrite E. unfold includes. rewrite bool_decide_eq_false_2; [done|].
    intros [-> | [-> | []%elem_of_nil]%elem_of_cons]%elem_of_cons; done.
  - intros ->. unfold generatePersonInfoByAreaAndAge.
    by rewrite (bind_run _ _ _ _ _ Hinit).
  - intros Hne Hage. unfold generatePersonInfoByAreaAndAge.
    rewrite (bind_run _ _ _ _ _ Hinit).
    destruct areaName as [|c s]; [done|].
    unfold throw_if, bind, ret, throw. cbn [falsy].
    destruct Hage as [-> | (a & -> & Ha)]; [reflexivity|].
    cbn [num_lt].
    destruct (Z.ltb_spec a 0); [reflexivity|].
    destruct (Z.ltb_spec 120 a); [reflexivity | lia].
Qed.

End RoundTrip.

Lemma decode_encode_roundtrip_witness :
  test_digits 6 (lit "420102") = true
  /\ test_digits 8 (lit "19900101") = true
  /\ exists number w',
       generateIdCard Sample.province Sample.city Sample.area Sample.town
         {| areaCode := Some (lit "420102");
            birthday := Some (lit "19900101");
            gender := Some (Num 0) |} Sample.lazy_world
       = inr (number, w')
       /\ substring number 0 6 = lit "420102"
       /\ substring number 6 14 = lit "19900101"
       /\ birthYear (_extractInfoFromIdCard Sample.today number) = Num 1990.
Proof.
  split; [reflexivity|]. split; [reflexivity|].
  destruct (decode_encode_roundtrip
              Sample.province Sample.city Sample.area Sample.town
              (lit "420102") (lit "19900101") 0 Sample.today
              Sample.lazy_world Sample.world)
    as (number & w' & Hrun & Hregion & Hdate & Hyear & _).
  - reflexivity.
  - reflexivity.
  - left. reflexivity.
  - vm_compute. reflexivity.
  - exists number, w'. split; [exact Hrun|]. split; [exact Hregion|].
    split; [exact Hdate | exact Hyear].
Defined.


Lemma invalid_options_rejected_witness :
  generateIdCard Sample.province Sample.city Sample.area Sample.town
    {| areaCode := Some (lit "1234"); birthday := None; gender := None |}
    Sample.world
  = inl Error_areaCode.
Proof.
  refine (proj1 (invalid_options_rejected
                   Sample.province Sample.city Sample.area Sample.town
                   {| areaCode := Some (lit "1234"); birthday := None;
                      gender := None |}
                   Sample.today [] None Sample.world Sample.world _)
                49%N (lit "234") _ _).
  - vm_compute. reflexivity.
  - reflexivity.
  - reflexivity.
Defined.

(** C7 as the specification states it fails: the empty string is a supplied
    [areaCode] that is not six digits (and a supplied [birthday] that is
    not eight digits), and [generateIdCard] returns a number instead of
    throwing. *)
Lemma empty_strings_not_rejected :
  test_digits 6 [] = false
  /\ test_digits 8 [] = false
  /\ exists w',
       generateIdCard Sample.province Sample.city Sample.area Sample.town
         {| areaCode := Some []; birthday := Some []; gender := Some (Num 1) |}
         Sample.world
       = inr (lit "110101200002295011", w').
Proof.
  split; [reflexivity|]. split; [reflexivity|].
  eexists. vm_compute. reflexivity.
Qed.

(** ** From a municipal-level code to a district *)



Section District.

Variable area : list AreaItem.




End District.



(** ** Building the index of region codes *)

Lemma InsertionMap_get_set (m : InsertionMap.t) (k v k' : jsstring) :
  InsertionMap.get (InsertionMap.set m k v) k'
  = if decide (k' = k) then Some v else InsertionMap.get m k'.
Proof.
  induction m as [|[k0 v0] m IH]; simpl.
  - by destruct (decide (k' = k)).
  - destruct (decide (k = k0)) as [-> | Hne]; simpl.
    + by destruct (decide (k' = k0)).
    + rewrite IH. destruct (decide (k' = k0)) as [-> | ?]; [|done].
      by rewrite decide_False.
Qed.

Lemma InsertionMap_get_None (m : InsertionMap.t) (k : jsstring) :
  InsertionMap.get m k = None <-> k ∉ fst <$> m.
Proof.
  induction m as [|[k0 v0] m IH]; simpl.
  - split; [intros _; apply not_elem_of_nil | done].
  - rewrite not_elem_of_cons. destruct (decide (k = k0)); [|tauto].
    split; [done | tauto].
Qed.

Lemma InsertionMap_set_fresh (m : InsertionMap.t) (k v : jsstring) :
  InsertionMap.get m k = None -> InsertionMap.set m k v = m ++ [(k, v)].
Proof.
  induction m as [|[k0 v0] m IH]; simpl; [done|].
  destruct (decide (k = k0)); [done|]. intros H. by rewrite IH.
Qed.

Lemma find_snoc {A} (P : A -> bool) (l : list A) (x : A) :
  find P (l ++ [x])
  = match find P l with
    | Some y => Some y
    | None => if P x then Some x else None
    end.
Proof.
  induction l as [|y l IH]; simpl; [done|]. by destruct (P y).
Qed.

Lemma indexed_add (ins : list (jsstring * jsstring)) (code name : jsstring)
  (w : World) (u : unit) (w' : World) :
  SpecIndex.indexed ins (this w) ->
  _addAreaCodeMapping code name w = inr (u, w') ->
  SpecIndex.indexed (ins ++ [(code, name)]) (this w').
Proof.
  intros (Hnd & Hfirst & Hlast) H. inversion H; subst; clear H.
  unfold SpecIndex.indexed, SpecIndex.first_code, SpecIndex.last_name,
    InsertionMap.entries in *.
  cbn [this areaCodeByName nameByAreaCode set_areaCodeMapping].
  unfold InsertionMap.has.
  destruct (InsertionMap.get (areaCodeByName (this w)) name) as [c0|] eqn:E;
    cbn [negb].
  - split; [done|]. split.
    + intros n. rewrite find_snoc, Hfirst. cbn [snd].
      destruct (find _ ins) as [i|] eqn:Ef; [done|].
      case_bool_decide as En; [|done]. subst n.
      rewrite Hfirst in E. unfold SpecIndex.first_code in E.
      by rewrite Ef in E.
    + intros c. rewrite reverse_snoc. cbn [find fst].
      rewrite lookup_insert. case_decide as Ec.
      * subst c. by rewrite bool_decide_eq_true_2.
      * rewrite bool_decide_eq_false_2 by done. apply Hlast.
  - rewrite (InsertionMap_set_fresh _ _ _ E). split.
    + rewrite fmap_app. apply NoDup_app. split; [done|]. split.
      * intros k Hk Hin. apply list_elem_of_singleton in Hin. subst k.
        by apply InsertionMap_get_None in E.
      * apply NoDup_singleton.
    + split.
      * intros n. rewrite find_snoc. cbn [snd].
        rewrite <- (InsertionMap_set_fresh _ _ _ E), InsertionMap_get_set.
        rewrite Hfirst. unfold SpecIndex.first_code.
        destruct (decide (n = name)) as [-> | Hn].
        -- rewrite Hfirst in E. unfold SpecIndex.first_code in E.
           destruct (find _ ins); [done|].
           by rewrite bool_decide_eq_true_2.
        -- destruct (find _ ins); [done|].
           by rewrite bool_decide_eq_false_2.
      * intros c. rewrite reverse_snoc. cbn [find fst].
        rewrite lookup_insert. case_decide as Ec.
        -- subst c. by rewrite bool_decide_eq_true_2.
        -- rewrite bool_decide_eq_false_2 by done. apply Hlast.
Qed.

Lemma forEach_fold {A} (I : list A -> World -> Prop) (l : list A)
  (f : A -> M unit) :
  (forall done x w u w',
     I done w -> f x w = inr (u, w') -> I (done ++ [x]) w') ->
  forall w u w', I [] w -> forEach l f w = inr (u, w') -> I l w'.
Proof.
  intros Hf.
  assert (forall done w u w',
            I done w -> forEach l f w = inr (u, w') -> I (done ++ l) w')
    as Hgen.
  { induction l as [|x l IH]; intros done w u w' HI H.
    - inversion H. subst. by rewrite app_nil_r.
    - cbn [forEach] in H. apply bind_inr in H as (a & w1 & H1 & H2).
      rewrite (cons_middle x done l), app_assoc.
      eapply IH; [|exact H2]. eapply Hf; [exact HI | exact H1]. }
  intros w u w'. apply (Hgen []).
Qed.

Lemma indexed_same_caches (ins : list (jsstring * jsstring))
  (g g' : Generator) :
  areaCodeByName g' = areaCodeByName g ->
  nameByAreaCode g' = nameByAreaCode g ->
  SpecIndex.indexed ins g -> SpecIndex.indexed ins g'.
Proof. unfold SpecIndex.indexed. by intros -> ->. Qed.

Lemma getProvinceName_value (provinceCode : jsstring) (w : World)
  (a : jsstring) (w' : World) :
  _getProvinceName provinceCode w = inr (a, w') ->
  a = SpecIndex.province_name (provinceMap (this w)) provinceCode /\ w' = w.
Proof.
  unfold _getProvinceName, SpecIndex.province_name, bind, self, ret, throw.
  cbn [this]. intros H. repeat case_match; by simplify_eq.
Qed.

Lemma getCityInfo_value (provinceCode cityCode : jsstring) (w : World)
  (info : option CityItem) (w' : World) :
  _getCityInfo provinceCode cityCode w = inr (info, w') ->
  match info with Some c => c_name c | None => [] end
  = SpecIndex.city_name (cityMap (this w)) provinceCode cityCode
  /\ w' = w.
Proof.
  unfold _getCityInfo, SpecIndex.city_name, bind, self, ret.
  intros H. simplify_eq. split; [|done].
  by destruct (cityMap (this w') !! provinceCode).
Qed.

Section Index.

Variable province : list ProvinceItem.
Variable city : list CityItem.
Variable area : list AreaItem.
Variable town : list TownItem.

Lemma buildProvinceMaps_indexed (w : World) (u : unit) (w' : World) :
  SpecIndex.indexed [] (this w) ->
  _buildProvinceMaps province w = inr (u, w') ->
  SpecIndex.indexed (SpecIndex.province_insertions province) (this w').
Proof.
  apply (forEach_fold
           (fun done w =>
              SpecIndex.indexed (SpecIndex.province_insertions done)
                                (this w))).
  clear. intros done p w u w' HI H.
  apply bind_inr in H as (? & w1 & H1 & H2). inversion H1; subst; clear H1.
  unfold SpecIndex.province_insertions. rewrite fmap_app. cbn [fmap list_fmap].
  eapply indexed_add; [|exact H2]. exact HI.
Qed.

Lemma buildCityMaps_indexed (pre : list (jsstring * jsstring))
  (pm : gmap jsstring ProvinceItem) (w : World) (u : unit) (w' : World) :
  SpecIndex.indexed pre (this w) ->
  provinceMap (this w) = pm ->
  _buildCityMaps city w = inr (u, w') ->
  SpecIndex.indexed (pre ++ SpecIndex.city_insertions pm city) (this w')
  /\ provinceMap (this w') = pm.
Proof.
  intros Hpre Hpm.
  apply (forEach_fold
           (fun done w =>
              SpecIndex.indexed (pre ++ SpecIndex.city_insertions pm done)
                                (this w)
              /\ provinceMap (this w) = pm)).
  - clear. intros done c w u w' [HI Hpm] H.
    apply bind_inr in H as (? & w1 & H1 & H). inversion H1; subst; clear H1.
    apply bind_inr in H as (name & w2 & H2 & H).
    apply getProvinceName_value in H2 as [-> ->].
    apply bind_inr in H as (? & w3 & H3 & H4).
    cbn [this provinceMap set_cityMap] in *.
    unfold SpecIndex.city_insertions. rewrite bind_app. cbn [mbind list_bind].
    rewrite app_nil_r, app_assoc.
    change [?x; ?y] with ([x] ++ [y]). rewrite app_assoc.
    split.
    + eapply indexed_add; [|exact H4]. eapply indexed_add; [|exact H3].
      exact HI.
    + inversion H3; subst. inversion H4; subst. reflexivity.
  - unfold SpecIndex.city_insertions. cbn [mbind list_bind].
    by rewrite app_nil_r.
Qed.

Lemma buildAreaMaps_indexed (pre : list (jsstring * jsstring))
  (pm : gmap jsstring ProvinceItem)
  (cm : gmap jsstring (gmap jsstring CityItem))
  (w : World) (u : unit) (w' : World) :
  SpecIndex.indexed pre (this w) ->
  provinceMap (this w) = pm -> cityMap (this w) = cm ->
  _buildAreaMaps area w = inr (u, w') ->
  SpecIndex.indexed (pre ++ SpecIndex.area_insertions pm cm area) (this w')
  /\ provinceMap (this w') = pm /\ cityMap (this w') = cm.
Proof.
  intros Hpre Hpm Hcm.
  apply (forEach_fold
           (fun done w =>
              SpecIndex.indexed (pre ++ SpecIndex.area_insertions pm cm done)
                                (this w)
              /\ provinceMap (this w) = pm /\ cityMap (this w) = cm)).
  - clear. intros done a w u w' (HI & Hpm & Hcm) H.
    apply bind_inr in H as (? & w1 & H1 & H). inversion H1; subst; clear H1.
    apply bind_inr in H as (name & w2 & H2 & H).
    apply getProvinceName_value in H2 as [-> ->].
    apply bind_inr in H as (info & w2 & H2 & H).
    apply getCityInfo_value in H2 as [Hname ->].
    apply bind_inr in H as (? & w3 & H3 & H4).
    cbn [this provinceMap cityMap set_areaMap] in *. rewrite Hname in H3.
    unfold SpecIndex.area_insertions. rewrite bind_app. cbn [mbind list_bind].
    rewrite app_nil_r, app_assoc.
    change [?x; ?y] with ([x] ++ [y]). rewrite app_assoc.
    split.
    + eapply indexed_add; [|exact H4]. eapply indexed_add; [|exact H3].
      exact HI.
    + inversion H3; subst. inversion H4; subst. done.
  - unfold SpecIndex.area_insertions. cbn [mbind list_bind].
    by rewrite app_nil_r.
Qed.

Lemma buildTownMaps_caches (w : World) (u : unit) (w' : World) :
  _buildTownMaps town w = inr (u, w') ->
  areaCodeByName (this w') = areaCodeByName (this w)
  /\ nameByAreaCode (this w') = nameByAreaCode (this w)
  /\ provinceMap (this w') = provinceMap (this w)
  /\ cityMap (this w') = cityMap (this w).
Proof.
  apply (forEach_invariant
           (fun w0 =>
              areaCodeByName (this w0) = areaCodeByName (this w)
              /\ nameByAreaCode (this w0) = nameByAreaCode (this w)
              /\ provinceMap (this w0) = provinceMap (this w)
              /\ cityMap (this w0) = cityMap (this w))); [|done].
  clear. intros t w1 u w2 HI H. inversion H. subst. exact HI.
Qed.

(** The index that a first [_initData] builds. *)
Lemma initData_indexed (w : World) (u : unit) (w' : World) :
  initialized (this w) = false ->
  areaCodeByName (this w) = [] ->
  nameByAreaCode (this w) = ∅ ->
  _initData province city area town w = inr (u, w') ->
  SpecIndex.indexed
    (SpecIndex.insertions province city area
       (provinceMap (this w')) (cityMap (this w')))
    (this w').
Proof.
  intros Hinit Hnames Hcodes H. unfold _initData in H.
  apply bind_inr in H as (g & w0 & Hg & H). inversion Hg; subst; clear Hg.
  rewrite Hinit in H.
  apply bind_inr in H as (? & w2 & H2 & H).
  apply bind_inr in H as (? & w3 & H3 & H).
  apply bind_inr in H as (? & w4 & H4 & H).
  apply bind_inr in H as (? & w5 & H5 & H).
  inversion H; subst; clear H.
  apply buildProvinceMaps_indexed in H2.
  2:{ unfold SpecIndex.indexed, SpecIndex.first_code, SpecIndex.last_name,
        InsertionMap.entries.
      rewrite Hnames, Hcodes. split; [constructor|]. split; [done|].
      intros code. by rewrite lookup_empty. }
  destruct (buildCityMaps_indexed _ (provinceMap (this w2)) w2 _ w3
              H2 eq_refl H3) as [I3 Hpm3].
  destruct (buildAreaMaps_indexed _ (provinceMap (this w2))
              (cityMap (this w3)) w3 _ w4 I3 Hpm3 eq_refl H4)
    as (I4 & Hpm4 & Hcm4).
  apply buildTownMaps_caches in H5 as (E1 & E2 & E3 & E4).
  cbn [this provinceMap cityMap set_initialized].
  rewrite E3, E4, Hpm4, Hcm4.
  eapply indexed_same_caches; [| |rewrite <- app_assoc in I4; exact I4].
  - cbn [areaCodeByName set_initialized]. exact E1.
  - cbn [nameByAreaCode set_initialized]. exact E2.
Qed.

End Index.

Section IndexOrder.

Variable province : list ProvinceItem.
Variable city : list CityItem.
Variable area : list AreaItem.
Variable town : list TownItem.

(** C6, as the code has it. [_addAreaCodeMapping] writes the name -> code
    mapping only when the name is new (first write wins: a name that was
    inserted keeps its code) and always overwrites the code -> name mapping
    (last write wins). So after the build province, city, district every
    name is a key once, bound to the code of the first insertion under that
    name, and every code is bound to the name of its last insertion: a
    code inserted under its fully-qualified name and then under its bare
    name ends with the bare name. *)
Theorem index_write_order (w w' : World) :
  initialized (this w) = false ->
  areaCodeByName (this w) = [] ->
  nameByAreaCode (this w) = ∅ ->
  _initData province city area town w = inr (tt, w') ->
  let g := this w' in
  let ins := SpecIndex.insertions province city area
               (provinceMap g) (cityMap g) in
  NoDup (fst <$> InsertionMap.entries (areaCodeByName g))
  /\ (forall name,
        InsertionMap.get (areaCodeByName g) name
        = SpecIndex.first_code ins name)
  /\ (forall code, nameByAreaCode g !! code = SpecIndex.last_name ins code)
  /\ (forall w0 code name,
        exists w1,
          _addAreaCodeMapping code name w0 = inr (tt, w1)
          /\ (forall n c0,
                InsertionMap.get (areaCodeByName (this w0)) n = Some c0 ->
                InsertionMap.get (areaCodeByName (this w1)) n = Some c0)
          /\ (InsertionMap.get (areaCodeByName (this w0)) name = None ->
              InsertionMap.get (areaCodeByName (this w1)) name = Some code)
          /\ nameByAreaCode (this w1) !! code = Some name
          /\ (forall c, c <> code ->
                        nameByAreaCode (this w1) !! c
                        = nameByAreaCode (this w0) !! c)).
Proof.
  intros Hinit Hnames Hcodes Hrun g ins.
  destruct (initData_indexed province city area town w tt w'
              Hinit Hnames Hcodes Hrun) as (Hnd & Hfirst & Hlast).
  split; [exact Hnd|]. split; [exact Hfirst|]. split; [exact Hlast|].
  intros w0 code name. eexists. split; [reflexivity|].
  cbn [this areaCodeByName nameByAreaCode set_areaCodeMapping].
  unfold InsertionMap.has. split; [|split; [|split]].
  - intros n c0 Hn.
    destruct (InsertionMap.get (areaCodeByName (this w0)) name) eqn:E;
      cbn [negb]; [done|].
    rewrite InsertionMap_get_set. case_decide; [congruence | done].
  - intros E. rewrite E. cbn [negb].
    rewrite InsertionMap_get_set. by rewrite decide_True.
  - apply lookup_insert_eq.
  - intros c Hc. by apply lookup_insert_ne.
Qed.

End IndexOrder.

Lemma index_write_order_witness :
  InsertionMap.get (areaCodeByName (this Sample.world))
    [27494; 27721; 24066]%N = Some (lit "420100")
  /\ nameByAreaCode (this Sample.world) !! lit "420100"
     = Some [27494; 27721; 24066]%N.
Proof.
  destruct (index_write_order
              Sample.province Sample.city Sample.area Sample.town
              Sample.lazy_world Sample.world)
    as (_ & Hfirst & Hlast & _).
  - reflexivity.
  - reflexivity.
  - reflexivity.
  - vm_compute. reflexivity.
  - split; [rewrite Hfirst | rewrite Hlast]; vm_compute; reflexivity.
Defined.

(** C6 as the specification states it fails for the code -> name mapping:
    the code 420100 of 武汉市 is first inserted under the fully-qualified
    name 湖北省武汉市 and, after the build, is bound to the bare name. *)
Lemma code_name_overwritten :
  let g := this Sample.world in
  let ins := SpecIndex.insertions Sample.province Sample.city Sample.area
               (provinceMap g) (cityMap g) in
  snd <$> find (fun i => bool_decide (fst i = lit "420100")) ins
  = Some [28246; 21271; 30465; 27494; 27721; 24066]%N
  /\ nameByAreaCode g !! lit "420100" = Some [27494; 27721; 24066]%N
  /\ nameByAreaCode g !! lit "420100"
     <> (snd <$> find (fun i => bool_decide (fst i = lit "420100")) ins).
Proof.
  split; [vm_compute; reflexivity|]. split; [vm_compute; reflexivity|].
  vm_compute. discriminate.
Qed.

(** ** Resolving a region name *)

Lemma head_snoc {A} (l : list A) (x : A) :
  head (l ++ [x]) = match head l with Some y => Some y | None => Some x end.
Proof. by destruct l. Qed.

Lemma bucket_push_head (m : gmap jsstring (list jsstring))
  (k c key : jsstring) :
  bucket_head (bucket_push m k c) key
  = if decide (key = k)
    then match bucket_head m k with
         | Some c0 => Some c0
         | None => Some c
         end
    else bucket_head m key.
Proof.
  unfold bucket_head, bucket_push, includes.
  case_bool_decide as Hin; cbn [negb].
  - rewrite lookup_insert. case_decide as Hk.
    + subst key. rewrite decide_True by done.
      destruct (m !! k) as [[|c0 b]|]; cbn; [|done|].
      * by apply elem_of_nil in Hin.
      * by apply elem_of_nil in Hin.
    + by rewrite decide_False.
  - rewrite lookup_insert. case_decide as Hk.
    + subst key. rewrite decide_True by done.
      destruct (m !! k) as [b|]; cbn; [|done]. apply head_snoc.
    + by rewrite decide_False.
Qed.

Lemma push_all_head (ks : list jsstring) (c key : jsstring)
  (m : gmap jsstring (list jsstring)) :
  bucket_head (foldl (fun m k => bucket_push m k c) m ks) key
  = match bucket_head m key with
    | Some c0 => Some c0
    | None => if bool_decide (key ∈ ks) then Some c else None
    end.
Proof.
  revert m. induction ks as [|k ks IH]; intros m; cbn [foldl].
  - by destruct (bucket_head m key).
  - rewrite IH, bucket_push_head.
    destruct (decide (key = k)) as [-> | Hk].
    + rewrite (bool_decide_eq_true_2 (k ∈ k :: ks)) by (apply elem_of_cons; by left).
      by destruct (bucket_head m k).
    + destruct (bucket_head m key); [done|].
      rewrite (bool_decide_ext (key ∈ k :: ks) (key ∈ ks)); [done|].
      rewrite elem_of_cons. tauto.
Qed.

Lemma fuzzy_entry_prefix (fz : FuzzyAreaNameMap) (name code : jsstring) :
  prefix (fuzzy_entry fz (name, code))
  = foldl (fun m k => bucket_push m k code) (prefix fz) (prefix_keys name).
Proof.
  unfold fuzzy_entry, prefix_keys.
  assert (forall l fz0,
            prefix (foldl (fun fz i =>
                             {| prefix := prefix fz;
                                include := bucket_push (include fz)
                                             (charAt name i) code |})
                          fz0 l) = prefix fz0) as ->.
  { induction l as [|i l IH]; intros fz0; cbn [foldl]; [done|].
    by rewrite IH. }
  destruct (1 <? length name)%nat; [|done].
  generalize (seq 1 (length name `min` 3)) as l. revert fz.
  induction l as [|i l IH] using rev_ind; [done|].
  by rewrite fmap_app, !foldl_app, <- IH.
Qed.

Lemma fuzzy_entry_include (fz : FuzzyAreaNameMap) (name code : jsstring) :
  include (fuzzy_entry fz (name, code))
  = foldl (fun m k => bucket_push m k code) (include fz) (include_keys name).
Proof.
  unfold fuzzy_entry, include_keys.
  set (fz1 := if (1 <? length name)%nat then _ else fz).
  assert (include fz1 = include fz) as <-.
  { subst fz1. destruct (1 <? length name)%nat; [|done].
    generalize (seq 1 (length name `min` 3)) as l.
    induction l as [|i l IH] using rev_ind; [done|].
    by rewrite foldl_app. }
  generalize (seq 0 (length name)) as l. clearbody fz1.
  induction l as [|i l IH] using rev_ind; [done|].
  by rewrite fmap_app, !foldl_app, <- IH.
Qed.

Lemma substring_prefix (name : jsstring) (i : nat) :
  (i <= length name)%nat -> substring name 0 i = take i name.
Proof.
  intros Hi. unfold substring.
  rewrite Nat.min_0_l, (Nat.min_l i) by done.
  rewrite Nat.min_0_l, Nat.max_r by lia.
  by rewrite Nat.sub_0_r.
Qed.

Lemma prefix_keys_spec (key name : jsstring) :
  key ∈ prefix_keys name <-> SpecResolve.prefix_key key name = true.
Proof.
  unfold prefix_keys, SpecResolve.prefix_key.
  destruct (1 <? length name)%nat eqn:E; cbn [andb].
  - rewrite list_elem_of_fmap, !andb_true_iff, bool_decide_eq_true.
    rewrite !Nat.leb_le. split.
    + intros (i & -> & Hi%elem_of_seq).
      rewrite substring_prefix by lia.
      rewrite length_take, Nat.min_l by lia. split; [lia | done].
    + intros [[H1 H3] Ht].
      assert (length key <= length name)%nat as Hle.
      { rewrite <- Ht at 1. rewrite length_take. lia. }
      exists (length key). split.
      * by rewrite substring_prefix.
      * apply elem_of_seq. lia.
  - split; [by intros ?%elem_of_nil | done].
Qed.

Lemma include_keys_spec (key name : jsstring) :
  key ∈ include_keys name <-> SpecResolve.char_key key name = true.
Proof.
  unfold include_keys, SpecResolve.char_key, charAt.
  rewrite list_elem_of_fmap. split.
  - intros (i & -> & Hi%elem_of_seq).
    destruct (name !! i) as [c|] eqn:E.
    + apply bool_decide_eq_true. by eapply list_elem_of_lookup_2.
    + apply lookup_ge_None in E. lia.
  - destruct key as [|c [|]]; [done| |done].
    intros Hc%bool_decide_eq_true.
    apply list_elem_of_lookup in Hc as (i & Hi).
    exists i. rewrite Hi. split; [done|].
    apply elem_of_seq. apply lookup_lt_Some in Hi. lia.
Qed.

(** The first code of a bucket of the built index is the code of the first
    entry, in insertion order, that was filed under the key. *)
Lemma build_heads (entries : list (jsstring * jsstring)) (key : jsstring)
  (fz : FuzzyAreaNameMap) :
  bucket_head (prefix (foldl fuzzy_entry fz entries)) key
  = match bucket_head (prefix fz) key with
    | Some c => Some c
    | None => SpecResolve.first_entry (SpecResolve.prefix_key key) entries
    end
  /\ bucket_head (include (foldl fuzzy_entry fz entries)) key
     = match bucket_head (include fz) key with
       | Some c => Some c
       | None => SpecResolve.first_entry (SpecResolve.char_key key) entries
       end.
Proof.
  revert fz. induction entries as [|[n c] es IH]; intros fz; cbn [foldl].
  - unfold SpecResolve.first_entry. cbn.
    split; by destruct (bucket_head _ key).
  - destruct (IH (fuzzy_entry fz (n, c))) as [-> ->].
    rewrite fuzzy_entry_prefix, fuzzy_entry_include, !push_all_head.
    unfold SpecResolve.first_entry. cbn [find fst].
    split.
    + destruct (bucket_head (prefix fz) key); [done|].
      pose proof (prefix_keys_spec key n) as Hk.
      destruct (SpecResolve.prefix_key key n).
      * by rewrite bool_decide_eq_true_2 by tauto.
      * rewrite bool_decide_eq_false_2; [done|]. intros ?%Hk. done.
    + destruct (bucket_head (include fz) key); [done|].
      pose proof (include_keys_spec key n) as Hk.
      destruct (SpecResolve.char_key key n).
      * by rewrite bool_decide_eq_true_2 by tauto.
      * rewrite bool_decide_eq_false_2; [done|]. intros ?%Hk. done.
Qed.

Lemma build_fuzzy_heads (entries : list (jsstring * jsstring))
  (key : jsstring) :
  bucket_head (prefix (build_fuzzy entries)) key
  = SpecResolve.first_entry (SpecResolve.prefix_key key) entries
  /\ bucket_head (include (build_fuzzy entries)) key
     = SpecResolve.first_entry (SpecResolve.char_key key) entries.
Proof.
  unfold build_fuzzy.
  destruct (build_heads entries key {| prefix := ∅; include := ∅ |})
    as [-> ->].
  unfold bucket_head. cbn [prefix include]. by rewrite !lookup_empty.
Qed.

Lemma bucket_first (m : gmap jsstring (list jsstring)) (key : jsstring) :
  match m !! key with
  | Some (first :: _) => Some first
  | _ => None
  end = bucket_head m key.
Proof. unfold bucket_head. by destruct (m !! key) as [[|]|]. Qed.

(** ** Reading [commonCities] *)

Lemma includes_spec `{EqDecision A} (l : list A) (x : A) :
  includes l x = true <-> x ∈ l.
Proof. unfold includes. apply bool_decide_eq_true. Qed.

(** No common city bears the name of a member of [Object.prototype]. *)
Lemma commonCities_not_inherited (key : jsstring) :
  key ∈ Object_prototype -> commonCities !! key = None.
Proof.
  intros Hin.
  assert (Forall (fun k => commonCities !! k = None) Object_prototype) as H.
  { unfold Object_prototype. repeat constructor. }
  rewrite Forall_forall in H. by apply H.
Qed.


Lemma get_property_inherited (own : gmap jsstring jsstring) (key : jsstring) :
  own !! key = None -> key ∈ Object_prototype ->
  get_property own key = Some (Inherited key).
Proof.
  intros E Hin. unfold get_property. rewrite E.
  by rewrite (proj2 (includes_spec _ _) Hin).
Qed.


(** Outside the names of [Object.prototype] the read is the one of the
    finite map. *)
Lemma get_property_plain (own : gmap jsstring jsstring) (key : jsstring) :
  key ∉ Object_prototype -> get_property own key = Code <$> own !! key.
Proof.
  intros Hn. unfold get_property. destruct (own !! key); [done|].
  destruct (includes Object_prototype key) eqn:E; [|done].
  by apply includes_spec in E.
Qed.

Lemma not_inherited_name (name : jsstring) :
  includes Object_prototype name = false -> name ∉ Object_prototype.
Proof. intros E Hin%includes_spec. congruence. Qed.

Section Resolve.

Variable province : list ProvinceItem.
Variable city : list CityItem.
Variable area : list AreaItem.
Variable town : list TownItem.

(** [_getAreaCodeByName] on an initialised generator. *)
Lemma getAreaCodeByName_run (areaName : jsstring) (w : World) :
  initialized (this w) = true ->
  fuzzy_coherent (this w) ->
  exists w',
    _getAreaCodeByName province city area town areaName w
    = inr (SpecResolve.resolve (areaCodeByName (this w)) areaName, w')
    /\ initialized (this w') = true
    /\ areaCodeByName (this w') = areaCodeByName (this w)
    /\ fuzzy_coherent (this w')
    /\ entropy w' = entropy w
    /\ (is_Some (InsertionMap.get (areaCodeByName (this w)) areaName)
        \/ is_Some (get_property commonCities areaName) -> w' = w).
Proof.
  intros Hinit Hfz. unfold _getAreaCodeByName, SpecResolve.resolve.
  rewrite (bind_run _ _ _ _ _ (ensureInitialized_done _ _ _ _ w Hinit)).
  unfold bind at 1, self at 1. unfold InsertionMap.has.
  destruct (InsertionMap.get (areaCodeByName (this w)) areaName) eqn:Eg.
  { exists w. by repeat split. }
  destruct (get_property commonCities areaName) eqn:Ec.
  { exists w. by repeat split. }
  destruct (build_fuzzy_heads (areaCodeByName (this w)) areaName)
    as [Hp Hi].
  assert (forall w0,
            fuzzyAreaNameMap (this w0)
            = Some (build_fuzzy (areaCodeByName (this w))) ->
            (g <- self ;;
             match fuzzyAreaNameMap g with
             | None => throw TypeError
             | Some fz =>
                 match prefix fz !! areaName with
                 | Some (first :: _) => ret (Some (Code first))
                 | _ =>
                     match include fz !! areaName with
                     | Some (first :: _) => ret (Some (Code first))
                     | _ => ret None
                     end
                 end
             end) w0
            = inr (match SpecResolve.first_entry
                           (SpecResolve.prefix_key areaName)
                           (areaCodeByName (this w)) with
                   | Some code => Some (Code code)
                   | None =>
                       Code <$>
                         SpecResolve.first_entry
                           (SpecResolve.char_key areaName)
                           (areaCodeByName (this w))
                   end, w0)) as Htiers.
  { intros w0 E. unfold bind, self. rewrite E.
    rewrite <- Hp, <- Hi, <- !bucket_first.
    destruct (prefix (build_fuzzy (areaCodeByName (this w))) !! areaName)
      as [[|]|];
      destruct (include (build_fuzzy (areaCodeByName (this w))) !! areaName)
        as [[|]|]; reflexivity. }
  destruct Hfz as [Hn | Hs].
  - rewrite Hn. unfold _buildFuzzyAreaNameCache.
    unfold bind at 1 2, update at 1, self at 1.
    cbn [this fuzzyAreaNameMap set_fuzzyAreaNameMap areaCodeByName].
    unfold bind at 1, update at 1.
    cbn [this fuzzyAreaNameMap set_fuzzyAreaNameMap areaCodeByName
         InsertionMap.entries].
    eexists. split.
    + apply Htiers. reflexivity.
    + cbn [this initialized areaCodeByName set_fuzzyAreaNameMap entropy].
      split; [done|]. split; [done|]. split; [by right|]. split; [done|].
      intros [[? ?] | [? ?]]; done.
  - rewrite Hs. unfold bind at 1, ret at 1.
    exists w. split; [by apply Htiers|].
    split; [done|]. split; [done|]. split; [by right | done].
Qed.


End Resolve.



(** The name [constructor] is no region, and the resolver answers it: with
    the function that [commonCities] inherits under this name. *)
Example constructor_is_resolved :
  _getAreaCodeByName Sample.province Sample.city Sample.area Sample.town
    (lit "constructor") Sample.world
  = inr (Some (Inherited (lit "constructor")), Sample.world).
Proof. vm_compute. reflexivity. Qed.

(** ** What the check character detects *)

Lemma weighted_sum_insert_gen (ws : list Z) (b : jsstring) (i : nat)
  (c old : N) (w : Z) :
  b !! i = Some old -> ws !! i = Some w ->
  foldr Z.add 0 (zip_with (fun c w => Spec.digit_value c * w) (<[i:=c]> b) ws)
  = foldr Z.add 0 (zip_with (fun c w => Spec.digit_value c * w) b ws)
    + (Spec.digit_value c - Spec.digit_value old) * w.
Proof.
  revert ws i. induction b as [|d b IH]; intros ws i Hb Hw; [done|].
  destruct ws as [|w0 ws]; [done|].
  destruct i as [|i]; simpl in *.
  - simplify_eq. lia.
  - rewrite (IH ws i Hb Hw). lia.
Qed.

Lemma weighted_sum_insert (b : jsstring) (i : nat) (c old : N) (w : Z) :
  b !! i = Some old -> Spec.weights !! i = Some w ->
  Spec.weighted_sum (<[i:=c]> b)
  = Spec.weighted_sum b + (Spec.digit_value c - Spec.digit_value old) * w.
Proof. apply weighted_sum_insert_gen. Qed.

Lemma forallb_insert (b : jsstring) (i : nat) (c : N) :
  forallb is_digit b = true -> is_digit c = true ->
  forallb is_digit (<[i:=c]> b) = true.
Proof.
  revert i. induction b as [|d b IH]; intros i Hb Hc; [done|].
  simpl in Hb. apply andb_prop in Hb as [Hd Hb].
  destruct i as [|i]; simpl.
  - by rewrite Hc, Hb.
  - by rewrite Hd, IH.
Qed.

(** Two strings of seventeen digits with the same check character have
    weighted sums that agree modulo 11. *)
Lemma same_check_code_same_residue (b b' : jsstring) :
  length b = 17%nat -> forallb is_digit b = true ->
  length b' = 17%nat -> forallb is_digit b' = true ->
  _calculateCheckCode b = _calculateCheckCode b' ->
  Spec.weighted_sum b `mod` 11 = Spec.weighted_sum b' `mod` 11.
Proof.
  intros Hl Hd Hl' Hd' Heq.
  destruct (calculateCheckCode_spec b Hl Hd) as (c & Hc & Hcode).
  destruct (calculateCheckCode_spec b' Hl' Hd') as (c' & Hc' & Hcode').
  rewrite Hcode, Hcode' in Heq. simplify_eq.
  pose proof (Z.mod_pos_bound (Spec.weighted_sum b) 11 ltac:(lia)) as H1.
  pose proof (Z.mod_pos_bound (Spec.weighted_sum b') 11 ltac:(lia)) as H2.
  unfold Spec.check_code in Hc, Hc'.
  assert (NoDup Spec.check_table) as Hnd.
  { apply (bool_decide_unpack _). vm_compute. exact I. }
  pose proof (NoDup_lookup _ _ _ _ Hnd Hc Hc') as E. lia.
Qed.

(** X1. The check character detects every substitution of one digit:
    replacing one of the seventeen digits by a different digit changes the
    character that [_calculateCheckCode] returns. *)
Theorem check_code_detects_substitution (b : jsstring) (i : nat) (c : N) :
  length b = 17%nat -> forallb is_digit b = true ->
  (i < 17)%nat -> is_digit c = true -> b !! i <> Some c ->
  _calculateCheckCode (<[i:=c]> b) <> _calculateCheckCode b.
Proof.
  intros Hl Hd Hi Hc Hne Heq.
  destruct (lookup_lt_is_Some_2 b i ltac:(lia)) as [old Hold].
  destruct (lookup_lt_is_Some_2 Spec.weights i ltac:(simpl; lia)) as [w Hw].
  apply same_check_code_same_residue in Heq;
    [|by rewrite length_insert|by apply forallb_insert|done|done].
  rewrite (weighted_sum_insert b i c old w Hold Hw) in Heq.
  assert (is_digit old = true) as Hod.
  { rewrite forallb_forall in Hd. apply Hd.
    apply list_elem_of_In. by eapply list_elem_of_lookup_2. }
  pose proof (digit_value_range c Hc) as Rc.
  pose proof (digit_value_range old Hod) as Ro.
  assert (Spec.digit_value c <> Spec.digit_value old) as Hdiff.
  { unfold Spec.digit_value. intros E. apply Hne. rewrite Hold. f_equal. lia. }
  do 17 (destruct i as [|i]; [simpl in Hw; simplify_eq;
                              Z.div_mod_to_equations; lia|]).
  lia.
Qed.

(** X2. The check character detects every transposition of two adjacent
    digits that differ. *)
Theorem check_code_detects_transposition (b : jsstring) (i : nat) (x y : N) :
  length b = 17%nat -> forallb is_digit b = true ->
  b !! i = Some x -> b !! S i = Some y -> x <> y ->
  _calculateCheckCode (<[i:=y]> (<[S i:=x]> b)) <> _calculateCheckCode b.
Proof.
  intros Hl Hd Hx Hy Hne Heq.
  assert (S i < 17)%nat as Hi by (apply lookup_lt_Some in Hy; lia).
  assert (forall k c, b !! k = Some c -> is_digit c = true) as Hdig.
  { intros k c Hk. rewrite forallb_forall in Hd. apply Hd.
    apply list_elem_of_In. by eapply list_elem_of_lookup_2. }
  pose proof (Hdig _ _ Hx) as Dx. pose proof (Hdig _ _ Hy) as Dy.
  destruct (lookup_lt_is_Some_2 Spec.weights i ltac:(simpl; lia)) as [w Hw].
  destruct (lookup_lt_is_Some_2 Spec.weights (S i) ltac:(simpl; lia))
    as [w' Hw'].
  apply same_check_code_same_residue in Heq;
    [|by rewrite !length_insert|by repeat apply forallb_insert|done|done].
  rewrite (weighted_sum_insert _ i y x w) in Heq;
    [|by rewrite list_lookup_insert_ne by lia|done].
  rewrite (weighted_sum_insert b (S i) x y w' Hy Hw') in Heq.
  pose proof (digit_value_range x Dx) as Rx.
  pose proof (digit_value_range y Dy) as Ry.
  assert (Spec.digit_value x <> Spec.digit_value y) as Hdiff.
  { unfold Spec.digit_value. intros E. apply Hne. lia. }
  do 16 (destruct i as [|i]; [simpl in Hw, Hw'; simplify_eq;
                              Z.div_mod_to_equations; lia|]).
  lia.
Qed.

Lemma check_code_detects_substitution_witness :
  _calculateCheckCode (<[3%nat:=57%N]> (lit "11010119900101893"))
  <> _calculateCheckCode (lit "11010119900101893").
Proof.
  apply check_code_detects_substitution.
  - reflexivity.
  - reflexivity.
  - lia.
  - reflexivity.
  - vm_compute. discriminate.
Defined.

Lemma check_code_detects_transposition_witness :
  _calculateCheckCode (<[6%nat:=57%N]> (<[7%nat:=49%N]> (lit "11010119900101893")))
  <> _calculateCheckCode (lit "11010119900101893").
Proof.
  apply check_code_detects_transposition.
  - reflexivity.
  - reflexivity.
  - reflexivity.
  - reflexivity.
  - discriminate.
Defined.

(** X3. The check character makes the weighted sum of the eighteen
    characters congruent to 1 modulo 11, the eighteenth character counting
    with the weight 1 and X standing for 10 (the rule of ISO 7064, MOD
    11-2): this is what the table of check characters encodes. *)
Theorem check_code_mod_11 (b : jsstring) :
  length b = 17%nat -> forallb is_digit b = true ->
  exists c,
    _calculateCheckCode b = Some [c]
    /\ (is_digit c = true \/ c = 88%N)
    /\ (Spec.weighted_sum b + check_value c) `mod` 11 = 1.
Proof.
  intros Hl Hd.
  destruct (calculateCheckCode_spec b Hl Hd) as (c & Hc & Hcode).
  exists c. split; [exact Hcode|].
  unfold Spec.check_code in Hc.
  pose proof (Z.mod_pos_bound (Spec.weighted_sum b) 11 ltac:(lia)) as Hr.
  assert (Spec.weighted_sum b
          = 11 * (Spec.weighted_sum b / 11) + Spec.weighted_sum b `mod` 11)
    as Hdiv by (apply Z.div_mod; lia).
  set (r := Spec.weighted_sum b `mod` 11) in *.
  set (q := Spec.weighted_sum b / 11) in *. clearbody r q.
  rewrite Hdiv.
  assert (r = 0 \/ r = 1 \/ r = 2 \/ r = 3 \/ r = 4 \/ r = 5 \/ r = 6
          \/ r = 7 \/ r = 8 \/ r = 9 \/ r = 10) as Hcases by lia.
  repeat (destruct Hcases as [-> | Hcases]); [..|subst r];
    cbn in Hc; injection Hc as <-;
    (split; [first [left; reflexivity | right; reflexivity]|]);
    match goal with
    | |- context [check_value ?c] =>
        let v := eval vm_compute in (check_value c) in
        change (check_value c) with v
    end;
    Z.div_mod_to_equations; lia.
Qed.

Lemma check_code_mod_11_witness :
  exists c,
    _calculateCheckCode (lit "11010119900101893") = Some [c]
    /\ (Spec.weighted_sum (lit "11010119900101893") + check_value c)
       `mod` 11 = 1.
Proof.
  destruct (check_code_mod_11 (lit "11010119900101893"))
    as (c & Hc & _ & Hm).
  - reflexivity.
  - reflexivity.
  - exists c. split; [exact Hc | exact Hm].
Defined.

(** ** What [generateIdCard] does to the generator, and each option on its
    own *)

Lemma validate_pure (options : IdCardOptions) (w : World) (u : unit)
  (w' : World) :
  _validateIdCardOptions options w = inr (u, w') -> w' = w.
Proof.
  intros H.
  destruct (validate_cases options w)
    as [(_ & _ & E) | [(_ & _ & _ & E) | [(_ & _ & _ & E) | (_ & E)]]];
    rewrite E in H; by simplify_eq.
Qed.

Lemma substring_take_drop (s : jsstring) (a b : nat) :
  (a <= b)%nat -> (b <= length s)%nat ->
  substring s a b = take (b - a) (drop a s).
Proof.
  intros Hab Hb. unfold substring.
  by rewrite (Nat.min_l a), (Nat.min_l b), (Nat.min_l a), Nat.max_r by lia.
Qed.

Lemma substring_app_first (s t : jsstring) (n : nat) :
  length s = n -> substring (s ++ t) 0 n = s.
Proof.
  intros <-. rewrite substring_take_drop; [|lia|rewrite length_app; lia].
  rewrite Nat.sub_0_r, drop_0. by rewrite take_app_length.
Qed.

Lemma substring_app_second (s t u : jsstring) (a b : nat) :
  length s = a -> length t = (b - a)%nat -> (a <= b)%nat ->
  substring (s ++ t ++ u) a b = t.
Proof.
  intros <- Ht Hab.
  rewrite substring_take_drop; [|lia|rewrite !length_app; lia].
  rewrite drop_app_length, <- Ht. by rewrite take_app_length.
Qed.

Section Honoured.

Variable province : list ProvinceItem.
Variable city : list CityItem.
Variable area : list AreaItem.
Variable town : list TownItem.

Lemma getRandomAreaCode_this (w : World) (r : option jsstring) (w' : World) :
  initialized (this w) = true ->
  _getRandomAreaCode province city area town w = inr (r, w') ->
  this w' = this w
  \/ (randomAreaCodes (this w) = None
      /\ this w' = set_randomAreaCodes (Some (district_pool area)) (this w)).
Proof.
  intros Hinit H. unfold _getRandomAreaCode in H.
  rewrite (bind_run _ _ _ _ _ (ensureInitialized_done _ _ _ _ w Hinit)) in H.
  unfold bind, self, update, ret, Math_random, throw in H.
  destruct (randomAreaCodes (this w)) eqn:E;
    cbn [this randomAreaCodes set_randomAreaCodes] in H.
  - rewrite E in H. simplify_eq. by left.
  - simplify_eq. by right.
Qed.

(** On an initialised generator a successful [generateIdCard] changes
    nothing of [this] but, at most, the list of random area codes, which it
    fills when the area code is not supplied. *)
Lemma generateIdCard_this (options : IdCardOptions) (w : World)
  (number : jsstring) (w' : World) :
  initialized (this w) = true ->
  generateIdCard province city area town options w = inr (number, w') ->
  this w' = this w
  \/ (randomAreaCodes (this w) = None
      /\ supplied (areaCode options) = false
      /\ this w' = set_randomAreaCodes (Some (district_pool area)) (this w)).
Proof.
  intros Hinit H. unfold generateIdCard in H.
  rewrite (bind_run _ _ _ _ _ (ensureInitialized_done _ _ _ _ w Hinit)) in H.
  apply bind_inr in H as (? & w1 & Hv & H). apply validate_pure in Hv as ->.
  apply bind_inr in H as (ac & w2 & Ha & H).
  apply bind_inr in H as (bd & w3 & Hb & H).
  apply bind_inr in H as (g & w4 & Hg & H).
  apply bind_inr in H as (sq & w5 & Hs & H).
  inversion H; subst; clear H.
  assert (this w3 = this w2) as E3.
  { destruct (birthday options) as [[|? ?]|];
      [|by inversion Hb|];
      destruct (random_birthday_shape w2) as (Hrun & _);
      rewrite Hrun in Hb; by inversion Hb. }
  assert (this w4 = this w3) as E4.
  { destruct (gender options); by inversion Hg. }
  assert (this w' = this w4) as E5.
  { destruct (sequence_code_shape g w4) as (num & Hrun & _).
    rewrite Hrun in Hs. by inversion Hs. }
  rewrite E5, E4, E3.
  destruct (areaCode options) as [[|? ?]|] eqn:Eo.
  - destruct (getRandomAreaCode_this _ _ _ Hinit Ha) as [? | [? ?]]; auto.
  - inversion Ha. by left.
  - destruct (getRandomAreaCode_this _ _ _ Hinit Ha) as [? | [? ?]]; auto.
Qed.

(** The number that [generateIdCard] returns, field by field. *)
Lemma generateIdCard_fields (options : IdCardOptions) (w : World) :
  initialized (this w) = true ->
  accepted options ->
  supplied (areaCode options) = true
  \/ (cache_coherent area (this w)
      /\ district_pool area <> []
      /\ forallb (test_digits 6) (district_pool area) = true) ->
  exists code bday num g c w',
    generateIdCard province city area town options w
    = inr (code ++ bday ++ Spec.decimal 3 num ++ [c], w')
    /\ test_digits 6 code = true
    /\ test_digits 8 bday = true
    /\ 1 <= num <= 999
    /\ (g = 0 \/ g = 1) /\ num `mod` 2 = g
    /\ (forall x, gender options = Some x -> x = Num g)
    /\ (supplied (areaCode options) = true -> areaCode options = Some code)
    /\ (supplied (areaCode options) = false -> code ∈ district_pool area)
    /\ (supplied (birthday options) = true -> birthday options = Some bday)
    /\ _calculateCheckCode (code ++ bday ++ Spec.decimal 3 num) = Some [c].
Proof.
  intros Hinit Hacc Hpool.
  pose proof (ensureInitialized_done province city area town w Hinit) as Hi.
  destruct (generateIdCard_parts province city area town options w w
              Hi Hacc) as (areaPart & bday & num & g & w' & Hrun & Harea
                           & Hbday & Hnum & Hg & Hgs & Hpar).
  { destruct Hpool as [? | (? & _)]; auto. }
  assert (exists code, areaPart = Some code /\ test_digits 6 code = true
                       /\ (supplied (areaCode options) = true ->
                           areaCode options = Some code)
                       /\ (supplied (areaCode options) = false ->
                           code ∈ district_pool area))
    as (code & -> & Hcode & Hsup & Hrand).
  { destruct Hacc as (Ha & _ & _).
    destruct (areaCode options) as [[|c0 s]|] eqn:E; cbn [supplied] in *.
    - destruct Hpool as [? | (_ & Hne & Hp)]; [done|].
      destruct Harea as (r & ->).
      destruct (pool_index (district_pool area) r Hne) as (c & -> & Hin).
      exists c. split; [done|]. split; [|done].
      rewrite forallb_forall in Hp. by apply Hp, list_elem_of_In.
    - exists (c0 :: s). split; [done|].
      split; [by destruct (Ha _ eq_refl) | done].
    - destruct Hpool as [? | (_ & Hne & Hp)]; [done|].
      destruct Harea as (r & ->).
      destruct (pool_index (district_pool area) r Hne) as (c & -> & Hin).
      exists c. split; [done|]. split; [|done].
      rewrite forallb_forall in Hp. by apply Hp, list_elem_of_In. }
  assert (test_digits 8 bday = true
          /\ (supplied (birthday options) = true ->
              birthday options = Some bday)) as [Hb Hbs].
  { destruct Hacc as (_ & Hb & _).
    destruct (birthday options) as [[|c0 s]|] eqn:E; cbn [supplied].
    - destruct Hbday as (y & m & d & -> & _).
      split; [apply birth_date_digits | done].
    - subst bday. split; [by destruct (Hb _ eq_refl) | done].
    - destruct Hbday as (y & m & d & -> & _).
      split; [apply birth_date_digits | done]. }
  destruct (well_formed_number code bday num Hcode Hb)
    as (_ & _ & _ & c & _ & _ & Hcalc).
  cbv zeta in Hrun, Hcalc. cbn [interpolate] in Hrun.
  rewrite Hcalc in Hrun. cbn [interpolate] in Hrun.
  rewrite <- !app_assoc in Hrun.
  exists code, bday, num, g, c, w'. done.
Qed.

(** X4. [generateIdCard] honours each option on its own, whatever the
    other two are: on an initialised generator and for options that pass
    the validation, the number has eighteen characters, the first seventeen
    are digits, a supplied area code makes characters 1 to 6, a supplied
    birthday makes characters 7 to 14, and a supplied gender is the parity
    of the seventeenth digit. *)
Theorem generateIdCard_honours_options (options : IdCardOptions)
  (w : World) :
  initialized (this w) = true ->
  accepted options ->
  supplied (areaCode options) = true
  \/ (cache_coherent area (this w)
      /\ district_pool area <> []
      /\ forallb (test_digits 6) (district_pool area) = true) ->
  exists number w',
    generateIdCard province city area town options w = inr (number, w')
    /\ length number = 18%nat
    /\ forallb is_digit (take 17 number) = true
    /\ (forall c s, areaCode options = Some (c :: s) ->
          substring number 0 6 = c :: s)
    /\ (forall c s, birthday options = Some (c :: s) ->
          substring number 6 14 = c :: s)
    /\ (forall g, gender options = Some (Num g) ->
          exists d, number !! 16%nat = Some d
                    /\ Spec.digit_value d `mod` 2 = g).
Proof.
  intros Hinit Hacc Hpool.
  destruct (generateIdCard_fields options w Hinit Hacc Hpool)
    as (code & bday & num & g & c & w' & Hrun & Hcode & Hbday & Hnum & Hg
        & Hpar & Hgs & Hsa & _ & Hsb & _).
  apply test_digits_spec in Hcode as [Lc Dc].
  apply test_digits_spec in Hbday as [Lb Db].
  exists (code ++ bday ++ Spec.decimal 3 num ++ [c]), w'.
  split; [exact Hrun|].
  split. { rewrite !length_app, decimal_length, Lc, Lb. reflexivity. }
  split.
  { rewrite !app_assoc. rewrite take_app_length'.
    - rewrite !forallb_app, Dc, Db, decimal_digits. reflexivity.
    - rewrite !length_app, decimal_length, Lc, Lb. reflexivity. }
  split.
  { intros c0 s E. rewrite E in Hsa. specialize (Hsa eq_refl).
    injection Hsa as <-. by apply substring_app_first. }
  split.
  { intros c0 s E. rewrite E in Hsb. specialize (Hsb eq_refl).
    injection Hsb as <-. apply substring_app_second; [done| |lia].
    rewrite Lb. reflexivity. }
  intros g0 E. specialize (Hgs _ E). injection Hgs as ->.
  destruct (decimal3_last num ltac:(lia)) as (d & Hd & Hdp).
  exists d. split; [|lia].
  rewrite !app_assoc, lookup_app_l.
  - rewrite lookup_app_r by (rewrite length_app; lia).
    rewrite length_app, Lc, Lb. exact Hd.
  - rewrite !length_app, decimal_length, Lc, Lb. lia.
Qed.

(** X5. What [generateIdCard] does to the generator object: on an
    initialised generator a successful call changes at most the cached list
    of random area codes, which it fills with the codes of the area table
    that do not end in 00, and it changes nothing at all when the area code
    is supplied. *)
Theorem generateIdCard_leaves_tables (options : IdCardOptions)
  (w : World) (number : jsstring) (w' : World) :
  initialized (this w) = true ->
  generateIdCard province city area town options w = inr (number, w') ->
  this w' = set_randomAreaCodes (randomAreaCodes (this w')) (this w)
  /\ (cache_coherent area (this w) -> cache_coherent area (this w'))
  /\ (supplied (areaCode options) = true -> this w' = this w).
Proof.
  intros Hinit H.
  destruct (generateIdCard_this options w number w' Hinit H)
    as [E | (Hnone & Hsup & E)]; rewrite E.
  - split; [by destruct (this w)|]. done.
  - split; [reflexivity|]. split; [intros _; by right|].
    rewrite Hsup. discriminate.
Qed.

End Honoured.

Lemma generateIdCard_honours_options_witness :
  exists number w',
    generateIdCard Sample.province Sample.city Sample.area Sample.town
      {| areaCode := None; birthday := Some (lit "20000229");
         gender := Some (Num 1) |} Sample.world
    = inr (number, w')
    /\ substring number 6 14 = lit "20000229"
    /\ exists d, number !! 16%nat = Some d
                 /\ Spec.digit_value d `mod` 2 = 1.
Proof.
  destruct (generateIdCard_honours_options
              Sample.province Sample.city Sample.area Sample.town
              {| areaCode := None; birthday := Some (lit "20000229");
                 gender := Some (Num 1) |} Sample.world)
    as (number & w' & Hrun & _ & _ & _ & Hb & Hg).
  - vm_compute. reflexivity.
  - repeat split; cbn; intros ? [= <-]; auto.
  - right. split; [left; vm_compute; reflexivity|].
    split; [vm_compute; discriminate | vm_compute; reflexivity].
  - exists number, w'. split; [exact Hrun|].
    split; [exact (Hb _ _ eq_refl) | exact (Hg 1 eq_refl)].
Defined.

Lemma generateIdCard_leaves_tables_witness :
  exists number w',
    generateIdCard Sample.province Sample.city Sample.area Sample.town
      {| areaCode := None; birthday := None; gender := None |} Sample.world
    = inr (number, w')
    /\ this w'
       = set_randomAreaCodes (randomAreaCodes (this w')) (this Sample.world).
Proof.
  eexists _, _. split; [vm_compute; reflexivity|].
  refine (proj1 (generateIdCard_leaves_tables
                   Sample.province Sample.city Sample.area Sample.town
                   {| areaCode := None; birthday := None; gender := None |}
                   Sample.world _ _ _ _)).
  - vm_compute. reflexivity.
  - vm_compute. reflexivity.
Defined.

(** ** The constructor *)

(** A loop whose body succeeds on the items that [ok] accepts, keeping an
    invariant, and throws [e] on the others: it runs to its end when every
    item is accepted and throws [e] otherwise. *)
Lemma forEach_outcome {A} (I : World -> Prop) (ok : A -> bool)
  (f : A -> M unit) (e : Error) (l : list A) :
  (forall x w, I w -> ok x = true -> exists w', f x w = inr (tt, w') /\ I w') ->
  (forall x w, I w -> ok x = false -> f x w = inl e) ->
  forall w, I w ->
    if forallb ok l
    then exists w', forEach l f w = inr (tt, w') /\ I w'
    else forEach l f w = inl e.
Proof.
  intros Hok Hko. induction l as [|x l IH]; intros w HI.
  - cbn. by exists w.
  - cbn [forallb forEach]. destruct (ok x) eqn:E; cbn [andb].
    + destruct (Hok x w HI E) as (w1 & H1 & I1).
      rewrite (bind_run _ _ _ _ _ H1). exact (IH w1 I1).
    + unfold bind. by rewrite (Hko x w HI E).
Qed.

Section Constructor.

Variable province : list ProvinceItem.
Variable city : list CityItem.
Variable area : list AreaItem.
Variable town : list TownItem.

Lemma getProvinceName_loading (w0 w : World) (code : jsstring) :
  loading province w0 w ->
  if province_known province code
  then exists name, _getProvinceName code w = inr (name, w)
  else _getProvinceName code w = inl RangeError_stack.
Proof.
  intros (Hinit & _ & Hkeys).
  unfold _getProvinceName, bind, self, ret, throw, province_known.
  rewrite Hinit. cbn [negb]. specialize (Hkeys code).
  destruct (provinceMap (this w) !! code) as [p|] eqn:E.
  - rewrite bool_decide_eq_true_2 by (apply Hkeys; eauto). eauto.
  - rewrite bool_decide_eq_false_2; [done|].
    intros Hin. apply Hkeys in Hin as [? ?]. done.
Qed.

Lemma buildProvinceMaps_loading (w : World) :
  initialized (this w) = false -> provinceMap (this w) = ∅ ->
  exists w',
    _buildProvinceMaps province w = inr (tt, w') /\ loading province w w'.
Proof.
  intros Hinit Hpm.
  assert (exists w', _buildProvinceMaps province w = inr (tt, w'))
    as (w' & Hrun).
  { unfold _buildProvinceMaps. generalize w. clear.
    induction province as [|p l IH]; intros w; [by exists w|].
    cbn [forEach]. unfold bind at 1. cbn. apply IH. }
  exists w'. split; [exact Hrun|].
  split; [|split].
  - revert Hrun. apply (forEach_invariant
                          (fun w => initialized (this w) = false));
      [|exact Hinit].
    clear. intros p w u w' HI H. inversion H. subst. exact HI.
  - eapply buildProvinceMaps_frame. exact Hrun.
  - revert Hrun.
    apply (forEach_fold
             (fun done w =>
                forall k, is_Some (provinceMap (this w) !! k)
                          <-> k ∈ p_province <$> done)).
    + clear. intros done p w u w' HI H. inversion H. subst. clear H.
      intros k. cbn [this provinceMap set_provinceMap set_areaCodeMapping].
      rewrite fmap_app, elem_of_app. cbn [fmap list_fmap].
      rewrite list_elem_of_singleton.
      destruct (decide (k = p_province p)) as [-> | Hne].
      * rewrite lookup_insert_eq. split; [by right | eauto].
      * rewrite lookup_insert_ne by done. rewrite HI. tauto.
    + intros k. rewrite Hpm, lookup_empty. cbn.
      split; [by intros [? ?] | by intros ?%elem_of_nil].
Qed.

Lemma buildCityMaps_loading (w0 w : World) :
  loading province w0 w ->
  if forallb (fun c => province_known province (c_province c)) city
  then exists w', _buildCityMaps city w = inr (tt, w')
                  /\ loading province w0 w'
  else _buildCityMaps city w = inl RangeError_stack.
Proof.
  apply (forEach_outcome (loading province w0)).
  - clear. intros c w HI Hok.
    set (w1 := {| this := set_cityMap
                    (<[c_province c :=
                         <[c_city c := c]>
                           (default ∅ (cityMap (this w) !! c_province c))]>
                       (cityMap (this w))) (this w);
                  entropy := entropy w |}).
    assert (loading province w0 w1) as HI1.
    { destruct HI as (? & (? & ? & ?) & ?). unfold w1.
      split; [done|]. split; [by unfold frame | done]. }
    pose proof (getProvinceName_loading w0 w1 (c_province c) HI1) as Hn.
    rewrite Hok in Hn. destruct Hn as (name & Hn).
    unfold bind at 1. cbn [update]. fold w1.
    rewrite (bind_run _ _ _ _ _ Hn).
    eexists. split; [reflexivity|].
    destruct HI1 as (? & (? & ? & ?) & ?).
    split; [done|]. split; [by unfold frame | done].
  - clear. intros c w HI Hko.
    set (w1 := {| this := set_cityMap
                    (<[c_province c :=
                         <[c_city c := c]>
                           (default ∅ (cityMap (this w) !! c_province c))]>
                       (cityMap (this w))) (this w);
                  entropy := entropy w |}).
    assert (loading province w0 w1) as HI1.
    { destruct HI as (? & (? & ? & ?) & ?). unfold w1.
      split; [done|]. split; [by unfold frame | done]. }
    pose proof (getProvinceName_loading w0 w1 (c_province c) HI1) as Hn.
    rewrite Hko in Hn.
    unfold bind at 1. cbn [update]. fold w1.
    unfold bind at 1. by rewrite Hn.
Qed.

Lemma buildAreaMaps_loading (w0 w : World) :
  loading province w0 w ->
  if forallb (fun a => province_known province (a_province a)) area
  then exists w', _buildAreaMaps area w = inr (tt, w')
                  /\ loading province w0 w'
  else _buildAreaMaps area w = inl RangeError_stack.
Proof.
  apply (forEach_outcome (loading province w0)).
  - clear. intros a w HI Hok.
    unfold bind at 1. cbn [update].
    match goal with
    | |- context [bind (_getProvinceName _) _ ?w] => set (w1 := w)
    end.
    assert (loading province w0 w1) as HI1.
    { destruct HI as (? & (? & ? & ?) & ?). unfold w1.
      split; [done|]. split; [by unfold frame | done]. }
    pose proof (getProvinceName_loading w0 w1 (a_province a) HI1) as Hn.
    rewrite Hok in Hn. destruct Hn as (name & Hn).
    rewrite (bind_run _ _ _ _ _ Hn).
    eexists. split; [reflexivity|].
    destruct HI1 as (? & (? & ? & ?) & ?).
    split; [done|]. split; [by unfold frame | done].
  - clear. intros a w HI Hko.
    unfold bind at 1. cbn [update].
    match goal with
    | |- context [bind (_getProvinceName _) _ ?w] => set (w1 := w)
    end.
    assert (loading province w0 w1) as HI1.
    { destruct HI as (? & (? & ? & ?) & ?). unfold w1.
      split; [done|]. split; [by unfold frame | done]. }
    pose proof (getProvinceName_loading w0 w1 (a_province a) HI1) as Hn.
    rewrite Hko in Hn.
    unfold bind at 1. by rewrite Hn.
Qed.

Lemma buildTownMaps_runs (w : World) :
  exists w', _buildTownMaps town w = inr (tt, w').
Proof.
  unfold _buildTownMaps. generalize w. clear.
  induction town as [|t l IH]; intros w; [by exists w|].
  cbn [forEach]. unfold bind at 1. cbn. apply IH.
Qed.

(** [_initData] on an object whose tables are still empty. *)
Lemma initData_outcome (w : World) :
  initialized (this w) = false -> provinceMap (this w) = ∅ ->
  if provinces_known province city area
  then exists w', _initData province city area town w = inr (tt, w')
                  /\ initialized (this w') = true /\ frame w w'
  else _initData province city area town w = inl RangeError_stack.
Proof.
  intros Hinit Hpm.
  assert (_initData province city area town w
          = (_buildProvinceMaps province ;;;
             _buildCityMaps city ;;;
             _buildAreaMaps area ;;;
             _buildTownMaps town ;;;
             update (set_initialized true)) w) as ->.
  { unfold _initData. unfold bind at 1. cbn [self]. by rewrite Hinit. }
  unfold provinces_known.
  destruct (buildProvinceMaps_loading w Hinit Hpm) as (w1 & H1 & I1).
  rewrite (bind_run _ _ _ _ _ H1).
  pose proof (buildCityMaps_loading w w1 I1) as H2.
  destruct (forallb _ city); cbn [andb].
  2:{ unfold bind at 1. by rewrite H2. }
  destruct H2 as (w2 & H2 & I2). rewrite (bind_run _ _ _ _ _ H2).
  pose proof (buildAreaMaps_loading w w2 I2) as H3.
  destruct (forallb _ area).
  2:{ unfold bind at 1. by rewrite H3. }
  destruct H3 as (w3 & H3 & I3). rewrite (bind_run _ _ _ _ _ H3).
  destruct (buildTownMaps_runs w3) as (w4 & H4).
  rewrite (bind_run _ _ _ _ _ H4).
  eexists. split; [reflexivity|]. split; [reflexivity|].
  apply buildTownMaps_frame in H4.
  destruct I3 as (_ & F3 & _).
  pose proof (frame_trans _ _ _ F3 H4) as (? & ? & ?). by unfold frame.
Qed.

(** X6. The constructor of an eager generator ([lazyLoad] false) either
    loads the tables or overflows the stack, and the reference data alone
    decides which: it succeeds, leaving an initialised generator, when every
    city and every area names a province of the province table; otherwise
    [_getProvinceName] re-enters [_initData] without end and the call
    throws [RangeError]. It draws no random number, leaves the list of
    random area codes unset, and builds the fuzzy index exactly when
    [precomputeFuzzyMatch] is set. *)
Theorem constructor_outcome (precompute : bool) (w : World) :
  if provinces_known province city area
  then exists w',
         constructor province city area town false precompute w
         = inr (tt, w')
         /\ initialized (this w') = true
         /\ entropy w' = entropy w
         /\ randomAreaCodes (this w') = None
         /\ fuzzyAreaNameMap (this w')
            = (if precompute
               then Some (build_fuzzy (areaCodeByName (this w')))
               else None)
  else constructor province city area town false precompute w
       = inl RangeError_stack.
Proof.
  set (w0 := {| this :=
                  {| initialized := false; lazyLoad := false;
                     precomputeFuzzyMatch := precompute;
                     provinceMap := ∅; cityMap := ∅; areaMap := ∅;
                     townMap := ∅; areaCodeByName := [];
                     nameByAreaCode := ∅; randomAreaCodes := None;
                     fuzzyAreaNameMap := None |};
                entropy := entropy w |}).
  assert (constructor province city area town false precompute w
          = (_initData province city area town ;;;
             if precompute then _buildFuzzyAreaNameCache else ret tt) w0)
    as ->.
  { reflexivity. }
  pose proof (initData_outcome w0 eq_refl eq_refl) as H.
  destruct (provinces_known province city area).
  2:{ unfold bind at 1. by rewrite H. }
  destruct H as (w1 & H1 & Hinit & He & Hr & Hf).
  rewrite (bind_run _ _ _ _ _ H1).
  cbn in He, Hr, Hf.
  destruct precompute.
  - unfold _buildFuzzyAreaNameCache, bind, update, self, ret.
    cbn [this fuzzyAreaNameMap set_fuzzyAreaNameMap].
    eexists. split; [reflexivity|]. cbn. by repeat split.
  - exists w1. by repeat split.
Qed.

End Constructor.

(** ** Lazy loading *)

Lemma option_blind_ret {A} (a : A) : option_blind (ret a).
Proof. by intros l p w. Qed.

Lemma option_blind_bind {A B} (m : M A) (k : A -> M B) :
  option_blind m -> (forall a, option_blind (k a)) -> option_blind (bind m k).
Proof.
  intros Hm Hk l p w. unfold bind. rewrite Hm.
  destruct (m w) as [e | [a w1]]; [done|]. cbn [on_world]. apply Hk.
Qed.

Lemma option_blind_update (f : Generator -> Generator) :
  (forall l p g, f (with_options l p g) = with_options l p (f g)) ->
  option_blind (update f).
Proof.
  intros Hf l p w. unfold update, on_world, world_with_options.
  cbn [this entropy]. by rewrite Hf.
Qed.

Lemma option_blind_forEach {A} (l : list A) (f : A -> M unit) :
  (forall x, option_blind (f x)) -> option_blind (forEach l f).
Proof.
  intros Hf. induction l as [|x l IH]; cbn [forEach].
  - apply option_blind_ret.
  - apply option_blind_bind; [apply Hf | intros _; exact IH].
Qed.

Lemma option_blind_addAreaCodeMapping (code name : jsstring) :
  option_blind (_addAreaCodeMapping code name).
Proof. by apply option_blind_update. Qed.

Lemma option_blind_getProvinceName (code : jsstring) :
  option_blind (_getProvinceName code).
Proof.
  intros l p w. unfold _getProvinceName, bind, self, ret, throw.
  cbn [this world_with_options with_options initialized provinceMap].
  destruct (initialized (this w)), (provinceMap (this w) !! code); done.
Qed.

Lemma option_blind_getCityInfo (provinceCode cityCode : jsstring) :
  option_blind (_getCityInfo provinceCode cityCode).
Proof. by intros l p w. Qed.

Section Lazy.

Variable province : list ProvinceItem.
Variable city : list CityItem.
Variable area : list AreaItem.
Variable town : list TownItem.

Lemma initData_body (w : World) :
  _initData province city area town w
  = if initialized (this w) then inr (tt, w)
    else (_buildProvinceMaps province ;;;
          _buildCityMaps city ;;;
          _buildAreaMaps area ;;;
          _buildTownMaps town ;;;
          update (set_initialized true)) w.
Proof. unfold _initData, bind at 1, self. by destruct (initialized (this w)). Qed.

Lemma option_blind_initData :
  option_blind (_initData province city area town).
Proof.
  intros l p w. rewrite !initData_body.
  cbn [this world_with_options with_options initialized].
  destruct (initialized (this w)); [done|].
  revert l p w.
  change (option_blind
            (_buildProvinceMaps province ;;;
             _buildCityMaps city ;;;
             _buildAreaMaps area ;;;
             _buildTownMaps town ;;;
             update (set_initialized true))).
  apply option_blind_bind; [|intros _; apply option_blind_bind;
    [|intros _; apply option_blind_bind;
      [|intros _; apply option_blind_bind; [|intros _]]]].
  - apply option_blind_forEach. intros x.
    apply option_blind_bind; [by apply option_blind_update|].
    intros _. apply option_blind_addAreaCodeMapping.
  - apply option_blind_forEach. intros x.
    apply option_blind_bind; [by apply option_blind_update|]. intros _.
    apply option_blind_bind; [apply option_blind_getProvinceName|].
    intros name.
    apply option_blind_bind; intros; apply option_blind_addAreaCodeMapping.
  - apply option_blind_forEach. intros x.
    apply option_blind_bind; [by apply option_blind_update|]. intros _.
    apply option_blind_bind; [apply option_blind_getProvinceName|].
    intros name.
    apply option_blind_bind; [apply option_blind_getCityInfo|]. intros info.
    apply option_blind_bind; intros; apply option_blind_addAreaCodeMapping.
  - apply option_blind_forEach. intros x. by apply option_blind_update.
  - by apply option_blind_update.
Qed.

(** X7. A generator made with [lazyLoad] is left without tables by its
    constructor, and its first [_ensureInitialized] does then what the
    constructor of an eager generator does at once: the same outcome
    (tables loaded, or stack overflow) and the same tables, the two
    options apart. *)
Theorem lazy_first_use (precompute : bool) (w : World) :
  exists w0,
    constructor province city area town true precompute w = inr (tt, w0)
    /\ initialized (this w0) = false
    /\ _ensureInitialized province city area town w0
       = on_world (world_with_options true precompute)
                  (constructor province city area town false false w).
Proof.
  eexists. split; [reflexivity|]. split; [reflexivity|].
  set (w0 := {| this :=
                  {| initialized := false; lazyLoad := false;
                     precomputeFuzzyMatch := false;
                     provinceMap := ∅; cityMap := ∅; areaMap := ∅;
                     townMap := ∅; areaCodeByName := [];
                     nameByAreaCode := ∅; randomAreaCodes := None;
                     fuzzyAreaNameMap := None |};
                entropy := entropy w |}).
  assert (constructor province city area town false false w
          = _initData province city area town w0) as ->.
  { change (constructor province city area town false false w)
      with ((_initData province city area town ;;; ret tt) w0).
    unfold bind, ret.
    by destruct (_initData province city area town w0) as [e | [[] w1]]. }
  rewrite <- option_blind_initData. reflexivity.
Qed.

End Lazy.

(** ** The invariant of the generator object *)

Lemma towns_of_snoc (l : list TownItem) (t : TownItem) (code : jsstring) :
  towns_of (l ++ [t]) code
  = towns_of l code ++ (if bool_decide (t_code t = code) then [t] else []).
Proof.
  unfold towns_of. rewrite List.filter_app. cbn [List.filter].
  by destruct (bool_decide (t_code t = code)).
Qed.

Section Loaded.

Variable province : list ProvinceItem.
Variable city : list CityItem.
Variable area : list AreaItem.
Variable town : list TownItem.

Lemma buildTownMaps_towns (w : World) (u : unit) (w' : World) :
  townMap (this w) = ∅ ->
  _buildTownMaps town w = inr (u, w') ->
  forall code, default [] (townMap (this w') !! code) = towns_of town code.
Proof.
  intros Hempty.
  apply (forEach_fold
           (fun done w =>
              forall code,
                default [] (townMap (this w) !! code) = towns_of done code)).
  - clear. intros done t w u w' HI H. inversion H; subst; clear H.
    intros code. cbn [this townMap set_townMap]. rewrite towns_of_snoc.
    destruct (decide (t_code t = code)) as [<- | Hne].
    + rewrite lookup_insert_eq, bool_decide_eq_true_2 by done.
      cbn [default]. by rewrite HI.
    + rewrite lookup_insert_ne, bool_decide_eq_false_2 by done.
      by rewrite HI, app_nil_r.
  - intros code. by rewrite Hempty, lookup_empty.
Qed.

Lemma tables_keep_towns (w : World) (u : unit) (w1 w2 w3 : World) :
  _buildProvinceMaps province w = inr (u, w1) ->
  _buildCityMaps city w1 = inr (u, w2) ->
  _buildAreaMaps area w2 = inr (u, w3) ->
  townMap (this w3) = townMap (this w).
Proof.
  intros H1 H2 H3.
  assert (townMap (this w1) = townMap (this w)) as E1.
  { revert H1.
    apply (forEach_invariant
             (fun w0 => townMap (this w0) = townMap (this w))); [|done].
    clear. intros p wa u wb HI H. inversion H. subst. exact HI. }
  assert (townMap (this w2) = townMap (this w1)) as E2.
  { revert H2.
    apply (forEach_invariant
             (fun w0 => townMap (this w0) = townMap (this w1))); [|done].
    clear. intros c wa u wb HI H. bind_steps H. frame_steps. exact HI. }
  assert (townMap (this w3) = townMap (this w2)) as E3.
  { revert H3.
    apply (forEach_invariant
             (fun w0 => townMap (this w0) = townMap (this w2))); [|done].
    clear. intros a wa u wb HI H. bind_steps H. frame_steps. exact HI. }
  congruence.
Qed.

(** What the first [_initData] leaves. *)
Lemma initData_loaded (w : World) (w' : World) :
  pristine (this w) ->
  _initData province city area town w = inr (tt, w') ->
  loaded province city area town (this w') /\ entropy w' = entropy w
  /\ randomAreaCodes (this w') = None /\ fuzzyAreaNameMap (this w') = None.
Proof.
  intros (Hinit & Hpm & Htm & Hnames & Hcodes & Hr & Hf) Hrun.
  pose proof (initData_indexed province city area town w tt w'
                Hinit Hnames Hcodes Hrun) as Hindexed.
  assert (initialized (this w') = true /\ frame w w') as [Hdone Hframe].
  { apply (ensureInitialized_frame province city area town w tt).
    unfold _ensureInitialized, bind at 1, self. by rewrite Hinit. }
  destruct Hframe as (He & Hr' & Hf').
  rewrite Hr in Hr'. rewrite Hf in Hf'.
  split; [|done].
  split; [done|]. split; [done|].
  split; [|split; [by left | by left]].
  unfold _initData in Hrun.
  apply bind_inr in Hrun as (g & w0 & Hg & H). inversion Hg; subst; clear Hg.
  rewrite Hinit in H.
  apply bind_inr in H as ([] & w1 & H1 & H).
  apply bind_inr in H as ([] & w2 & H2 & H).
  apply bind_inr in H as ([] & w3 & H3 & H).
  apply bind_inr in H as ([] & w4 & H4 & H).
  inversion H; subst; clear H.
  cbn [this townMap set_initialized].
  apply (buildTownMaps_towns w3 tt w4); [|exact H4].
  rewrite (tables_keep_towns _ _ _ _ _ H1 H2 H3). exact Htm.
Qed.

Lemma constructor_state (lazy precompute : bool) (w w' : World) :
  constructor province city area town lazy precompute w = inr (tt, w') ->
  entropy w' = entropy w
  /\ if lazy then pristine (this w')
     else loaded province city area town (this w')
          /\ randomAreaCodes (this w') = None.
Proof.
  unfold constructor. intros H.
  apply bind_inr in H as ([] & w0 & H0 & H). inversion H0; subst; clear H0.
  destruct lazy; cbn [negb] in H.
  { inversion H; subst. split; [done|]. by repeat split. }
  apply bind_inr in H as ([] & w1 & H1 & H).
  apply initData_loaded in H1 as (L1 & He & Hr & Hf); [|by repeat split].
  destruct precompute.
  - unfold _buildFuzzyAreaNameCache, bind, update, self, ret in H.
    cbn [this fuzzyAreaNameMap set_fuzzyAreaNameMap] in H.
    inversion H; subst; clear H. split; [done|].
    destruct L1 as (? & ? & ? & ? & ?).
    split; [|done]. split; [done|]. split; [done|]. split; [done|].
    split; [done|]. by right.
  - inversion H; subst. done.
Qed.

(** X8. The constructor leaves the object in one of two states: with
    [lazyLoad], without any table or cache; otherwise with the tables
    loaded. From the first state a successful [_ensureInitialized] leads to
    the second. *)
Theorem constructor_then_loaded (lazy precompute : bool) (w w0 w1 : World) :
  constructor province city area town lazy precompute w = inr (tt, w0) ->
  _ensureInitialized province city area town w0 = inr (tt, w1) ->
  initialized (this w0) = negb lazy
  /\ loaded province city area town (this w1)
  /\ entropy w1 = entropy w
  /\ (lazy = false -> w1 = w0).
Proof.
  intros Hc Hi.
  destruct (constructor_state lazy precompute w w0 Hc) as [He Hs].
  destruct lazy.
  - pose proof Hs as (Hinit & _).
    assert (_initData province city area town w0 = inr (tt, w1)) as Hd.
    { revert Hi. unfold _ensureInitialized, bind at 1, self.
      by rewrite Hinit. }
    apply initData_loaded in Hd as (L & He1 & _); [|done].
    split; [done|]. split; [done|]. split; [congruence | done].
  - destruct Hs as [L Hr]. pose proof L as (Hinit & _).
    rewrite (ensureInitialized_done _ _ _ _ _ Hinit) in Hi.
    inversion Hi; subst. done.
Qed.

End Loaded.

Lemma sample_world_loaded :
  loaded Sample.province Sample.city Sample.area Sample.town
         (this Sample.world).
Proof.
  destruct (constructor_state Sample.province Sample.city Sample.area
              Sample.town false false
              {| this := Sample.blank; entropy := Sample.draws |}
              Sample.world) as [_ [L _]]; [|exact L].
  vm_compute. reflexivity.
Defined.

Lemma constructor_then_loaded_witness :
  loaded Sample.province Sample.city Sample.area Sample.town
         (this Sample.world).
Proof.
  refine (proj1 (proj2 (constructor_then_loaded
                          Sample.province Sample.city Sample.area Sample.town
                          false false
                          {| this := Sample.blank; entropy := Sample.draws |}
                          Sample.world Sample.world _ _))).
  - vm_compute. reflexivity.
  - vm_compute. reflexivity.
Defined.

(** ** Looking up towns and names *)

Lemma find_bind_pair {A} (l : list A) (code_of : A -> jsstring)
  (full bare : A -> jsstring) (code : jsstring) :
  snd <$> find (fun i : jsstring * jsstring => bool_decide (fst i = code))
               (reverse (l ≫= fun x => [(code_of x, full x);
                                         (code_of x, bare x)]))
  = bare <$> find (fun x => bool_decide (code_of x = code)) (reverse l).
Proof.
  induction l as [|x l IH] using rev_ind; [done|].
  rewrite bind_app, !reverse_app. cbn.
  destruct (bool_decide (code_of x = code)); [done | exact IH].
Qed.

Lemma find_fmap_pair {A} (l : list A) (code_of name_of : A -> jsstring)
  (code : jsstring) :
  snd <$> find (fun i : jsstring * jsstring => bool_decide (fst i = code))
               (reverse ((fun x => (code_of x, name_of x)) <$> l))
  = name_of <$> find (fun x => bool_decide (code_of x = code)) (reverse l).
Proof.
  induction l as [|x l IH] using rev_ind; [done|].
  rewrite fmap_app, !reverse_app. cbn.
  destruct (bool_decide (code_of x = code)); [done | exact IH].
Qed.

Lemma find_app_option {A} (P : A -> bool) (l1 l2 : list A) :
  find P (l1 ++ l2)
  = match find P l1 with Some x => Some x | None => find P l2 end.
Proof.
  induction l1 as [|x l1 IH]; [done|]. cbn. by destruct (P x).
Qed.

(** The name of the last insertion of a code, read in the tables. *)
Lemma last_name_tables (province : list ProvinceItem) (city : list CityItem)
  (area : list AreaItem) (pm : gmap jsstring ProvinceItem)
  (cm : gmap jsstring (gmap jsstring CityItem)) (code : jsstring) :
  SpecIndex.last_name (SpecIndex.insertions province city area pm cm) code
  = table_name province city area code.
Proof.
  unfold SpecIndex.last_name, SpecIndex.insertions, table_name.
  rewrite !reverse_app, !find_app_option.
  pose proof (find_bind_pair area a_code
                (fun a => SpecIndex.province_name pm (a_province a)
                          ++ SpecIndex.city_name cm (a_province a) (a_city a)
                          ++ a_name a)
                a_name code) as Ha.
  pose proof (find_bind_pair city c_code
                (fun c => SpecIndex.province_name pm (c_province c)
                          ++ c_name c)
                c_name code) as Hc.
  pose proof (find_fmap_pair province p_code p_name code) as Hp.
  unfold SpecIndex.area_insertions, SpecIndex.city_insertions,
    SpecIndex.province_insertions.
  cbv beta in Ha, Hc.
  destruct (find _ (reverse (area ≫= _))) as [i|];
    destruct (find _ (reverse area)) as [a|]; cbn in Ha; simplify_eq;
    [cbn; congruence|].
  destruct (find _ (reverse (city ≫= _))) as [i|];
    destruct (find _ (reverse city)) as [c|]; cbn in Hc; simplify_eq;
    [cbn; congruence|].
  exact Hp.
Qed.

Lemma find_reverse_none {A} (P : A -> bool) (l : list A) :
  (forall x, x ∈ l -> P x = false) -> find P (reverse l) = None.
Proof.
  intros Hl. destruct (find P (reverse l)) as [x|] eqn:E; [|done].
  apply find_some in E as [Hin HP].
  apply list_elem_of_In in Hin. rewrite elem_of_reverse in Hin.
  by rewrite (Hl x Hin) in HP.
Qed.

Lemma find_reverse_some {A} (P : A -> bool) (l : list A) (x : A) :
  x ∈ l -> P x = true ->
  exists y, find P (reverse l) = Some y /\ y ∈ l /\ P y = true.
Proof.
  intros Hin HP. destruct (find P (reverse l)) as [y|] eqn:E.
  - exists y. split; [done|]. apply find_some in E as [Hy ?].
    apply list_elem_of_In in Hy. by rewrite elem_of_reverse in Hy.
  - exfalso. rewrite <- elem_of_reverse in Hin.
    apply list_elem_of_In in Hin.
    pose proof (find_none _ _ E x Hin). congruence.
Qed.

Section LookupsLoaded.

Variable province : list ProvinceItem.
Variable city : list CityItem.
Variable area : list AreaItem.
Variable town : list TownItem.

(** [_getAreaNameByCode] on a loaded generator. *)
Lemma getAreaNameByCode_run (code : jsstring) (w : World) :
  loaded province city area town (this w) ->
  _getAreaNameByCode province city area town code w
  = inr (match table_name province city area code with
         | Some (c :: s) => Some (c :: s)
         | _ => None
         end, w).
Proof.
  intros (Hinit & (_ & _ & Hlast) & _).
  unfold _getAreaNameByCode.
  rewrite (bind_run _ _ _ _ _ (ensureInitialized_done _ _ _ _ w Hinit)).
  unfold bind, self, ret. by rewrite Hlast, last_name_tables.
Qed.

(** [_getTownsByAreaCode] on a loaded generator. *)
Lemma getTownsByAreaCode_run (code : jsstring) (w : World) :
  loaded province city area town (this w) ->
  _getTownsByAreaCode province city area town code w
  = inr (towns_of town code, w).
Proof.
  intros (Hinit & _ & Htowns & _). unfold _getTownsByAreaCode.
  rewrite (bind_run _ _ _ _ _ (ensureInitialized_done _ _ _ _ w Hinit)).
  unfold bind, self, ret. by rewrite Htowns.
Qed.

(** X9. On a loaded generator [_getTownsByAreaCode] returns the entries of
    the town table that carry the area code, in the order of the table (none
    for a code without town), and changes nothing. *)
Theorem towns_by_area_code (code : jsstring) (w : World) :
  loaded province city area town (this w) ->
  _getTownsByAreaCode province city area town code w
  = inr (towns_of town code, w)
  /\ forall t, t ∈ towns_of town code <-> t ∈ town /\ t_code t = code.
Proof.
  intros L. split.
  - by apply getTownsByAreaCode_run.
  - intros t. unfold towns_of. rewrite !list_elem_of_In, filter_In.
    by rewrite bool_decide_eq_true.
Qed.

(** X10. On a loaded generator [_getAreaNameByCode] answers from the
    tables, the area table first, then the city table, then the province
    table, with the bare name of the last entry that carries the code (not
    the fully-qualified name under which the code was inserted first): an
    entry of the area table when one carries the code, else one of the
    city table, else one of the province table. It answers [null] for a
    code of no table, and also when that name is empty. The generator is
    left as it was. *)
Theorem area_name_by_code (code : jsstring) (w : World) :
  loaded province city area town (this w) ->
  exists answer,
    _getAreaNameByCode province city area town code w = inr (answer, w)
    /\ answer <> Some []
    /\ answer = match table_name province city area code with
                | Some (c :: s) => Some (c :: s)
                | _ => None
                end
    /\ (forall a, a ∈ area -> a_code a = code ->
          exists b, b ∈ area /\ a_code b = code
                    /\ answer = (if falsy (a_name b) then None
                                 else Some (a_name b)))
    /\ ((forall a, a ∈ area -> a_code a <> code) ->
        forall c, c ∈ city -> c_code c = code ->
          exists b, b ∈ city /\ c_code b = code
                    /\ answer = (if falsy (c_name b) then None
                                 else Some (c_name b)))
    /\ ((forall a, a ∈ area -> a_code a <> code) ->
        (forall c, c ∈ city -> c_code c <> code) ->
        forall p, p ∈ province -> p_code p = code ->
          exists b, b ∈ province /\ p_code b = code
                    /\ answer = (if falsy (p_name b) then None
                                 else Some (p_name b)))
    /\ ((forall a, a ∈ area -> a_code a <> code) ->
        (forall c, c ∈ city -> c_code c <> code) ->
        (forall p, p ∈ province -> p_code p <> code) ->
        answer = None).
Proof.
  intros L. eexists. split; [by apply getAreaNameByCode_run|].
  split; [repeat case_match; congruence|].
  split; [reflexivity|].
  unfold table_name.
  split; [|split; [|split]].
  - intros a Hin Hcode.
    destruct (find_reverse_some (fun a => bool_decide (a_code a = code)) area a Hin)
      as (b & -> & Hb & Hbc); [by apply bool_decide_eq_true_2|].
    apply bool_decide_eq_true_1 in Hbc.
    exists b. split; [done|]. split; [done|]. by destruct (a_name b).
  - intros Harea c Hin Hcode.
    rewrite (find_reverse_none (fun a => bool_decide (a_code a = code)) area)
      by (intros a Ha; by apply bool_decide_eq_false_2, Harea).
    destruct (find_reverse_some (fun c => bool_decide (c_code c = code)) city c Hin)
      as (b & -> & Hb & Hbc); [by apply bool_decide_eq_true_2|].
    apply bool_decide_eq_true_1 in Hbc.
    exists b. split; [done|]. split; [done|]. by destruct (c_name b).
  - intros Harea Hcity p Hin Hcode.
    rewrite (find_reverse_none (fun a => bool_decide (a_code a = code)) area)
      by (intros a Ha; by apply bool_decide_eq_false_2, Harea).
    rewrite (find_reverse_none (fun c => bool_decide (c_code c = code)) city)
      by (intros c Hc; by apply bool_decide_eq_false_2, Hcity).
    destruct (find_reverse_some (fun p => bool_decide (p_code p = code))
                province p Hin)
      as (b & -> & Hb & Hbc); [by apply bool_decide_eq_true_2|].
    apply bool_decide_eq_true_1 in Hbc.
    exists b. split; [done|]. split; [done|]. cbn [fmap option_fmap option_map].
    by destruct (p_name b).
  - intros Harea Hcity Hprov.
    rewrite (find_reverse_none (fun a => bool_decide (a_code a = code)) area)
      by (intros a Ha; by apply bool_decide_eq_false_2, Harea).
    rewrite (find_reverse_none (fun c => bool_decide (c_code c = code)) city)
      by (intros c Hc; by apply bool_decide_eq_false_2, Hcity).
    rewrite (find_reverse_none (fun p => bool_decide (p_code p = code)) province)
      by (intros p Hp; by apply bool_decide_eq_false_2, Hprov).
    done.
Qed.

End LookupsLoaded.

Lemma towns_by_area_code_witness :
  _getTownsByAreaCode Sample.province Sample.city Sample.area Sample.town
    (lit "110101") Sample.world
  = inr ([ {| t_code := lit "110101"; t_name := [19996; 21326; 38376]%N |} ],
         Sample.world).
Proof.
  exact (proj1 (towns_by_area_code
                  Sample.province Sample.city Sample.area Sample.town
                  (lit "110101") Sample.world sample_world_loaded)).
Defined.

Lemma area_name_by_code_witness :
  exists answer,
    _getAreaNameByCode Sample.province Sample.city Sample.area Sample.town
      (lit "420100") Sample.world = inr (answer, Sample.world)
    /\ answer <> Some [].
Proof.
  destruct (area_name_by_code
              Sample.province Sample.city Sample.area Sample.town
              (lit "420100") Sample.world sample_world_loaded)
    as (answer & Hrun & Hne & _).
  exists answer. split; [exact Hrun | exact Hne].
Defined.

(** ** A person *)

Lemma String_four_digits (y : Z) :
  1000 <= y <= 9999 -> String_of (Num y) = Spec.decimal 4 y.
Proof.
  intros Hy.
  apply same_string_eq.
  apply (check_range_correct
           (fun n => same_string (String_of (Num n)) (Spec.decimal 4 n))
           1000 (Z.to_nat 9000)).
  - vm_compute. reflexivity.
  - rewrite Z2Nat.id by lia. lia.
Qed.

(** Digits are the decimal writing of the number they denote. *)
Lemma decimal_decimal_value (s : jsstring) :
  forallb is_digit s = true ->
  Spec.decimal (length s) (Spec.decimal_value s) = s.
Proof.
  induction s as [|c s IH] using rev_ind; [done|].
  rewrite forallb_app. intros [Hs Hc]%andb_prop. cbn in Hc.
  rewrite andb_true_r in Hc.
  rewrite length_app, Nat.add_1_r. cbn [Spec.decimal length].
  rewrite decimal_value_app. cbn [foldl].
  pose proof (digit_value_range c Hc) as Hr.
  replace ((10 * Spec.decimal_value s + Spec.digit_value c) / 10)
    with (Spec.decimal_value s) by (Z.div_mod_to_equations; lia).
  replace ((10 * Spec.decimal_value s + Spec.digit_value c) `mod` 10)
    with (Spec.digit_value c) by (Z.div_mod_to_equations; lia).
  rewrite (IH Hs). f_equal. f_equal. unfold Spec.digit_value. lia.
Qed.

Lemma decimal_value_bounds (s : jsstring) :
  forallb is_digit s = true ->
  0 <= Spec.decimal_value s < 10 ^ Z.of_nat (length s).
Proof.
  induction s as [|c s IH] using rev_ind; [done|].
  rewrite forallb_app. intros [Hs Hc]%andb_prop. cbn in Hc.
  rewrite andb_true_r in Hc.
  rewrite decimal_value_app. cbn [foldl].
  pose proof (digit_value_range c Hc) as Hr. specialize (IH Hs).
  rewrite length_app, Nat.add_1_r, Nat2Z.inj_succ, Z.pow_succ_r by lia.
  lia.
Qed.

Lemma loaded_random_codes (province : list ProvinceItem)
  (city : list CityItem) (area : list AreaItem) (town : list TownItem)
  (g : Generator) :
  loaded province city area town g ->
  loaded province city area town
         (set_randomAreaCodes (Some (district_pool area)) g).
Proof.
  intros (? & ? & ? & ? & ?).
  split; [done|]. split; [done|]. split; [done|]. split; [by right | done].
Qed.

Section Person.

Variable province : list ProvinceItem.
Variable city : list CityItem.
Variable area : list AreaItem.
Variable town : list TownItem.
Variable today : Date.

(** [generatePersonInfo] on a loaded generator, field by field. *)
Lemma generatePersonInfo_run (options : IdCardOptions) (w : World) :
  loaded province city area town (this w) ->
  accepted options ->
  supplied (areaCode options) = true
  \/ (district_pool area <> []
      /\ forallb (test_digits 6) (district_pool area) = true) ->
  exists code bday num g c p w',
    let idCard := code ++ bday ++ Spec.decimal 3 num ++ [c] in
    generatePersonInfo province city area town today options w
    = inr (p, w')
    /\ person_idCard p = idCard
    /\ person_gender p = (if g =? 1 then male else female)
    /\ person_age p = age (_extractInfoFromIdCard today idCard)
    /\ person_birthDate p
       = formattedBirthDate (_extractInfoFromIdCard today idCard)
    /\ person_areaName p
       = match table_name province city area code with
         | Some (c :: s) => c :: s
         | _ => unknown_area
         end
    /\ test_digits 6 code = true
    /\ test_digits 8 bday = true
    /\ 1 <= num <= 999
    /\ (g = 0 \/ g = 1) /\ num `mod` 2 = g
    /\ (forall x, gender options = Some x -> x = Num g)
    /\ (supplied (areaCode options) = true -> areaCode options = Some code)
    /\ (supplied (areaCode options) = false -> code ∈ district_pool area)
    /\ (supplied (birthday options) = true -> birthday options = Some bday)
    /\ loaded province city area town (this w')
    /\ (this w' = this w
        \/ this w' = set_randomAreaCodes (Some (district_pool area)) (this w)).
Proof.
  intros L Hacc Hpool. pose proof L as (Hinit & _ & _ & Hcc & _).
  unfold generatePersonInfo.
  rewrite (bind_run _ _ _ _ _ (ensureInitialized_done _ _ _ _ w Hinit)).
  assert (exists g w1,
            match gender options with
            | Some x => ret x
            | None => r <- Math_random ;; ret (Num (round r))
            end w = inr (Num g, w1)
            /\ (g = 0 \/ g = 1) /\ this w1 = this w
            /\ (forall x, gender options = Some x -> x = Num g))
    as (g & w1 & Hg & Hg01 & Hthis & Hgs).
  { destruct Hacc as (_ & _ & Hgen).
    destruct (gender options) as [x|] eqn:E.
    - destruct (Hgen x eq_refl) as [-> | ->]; [exists 0 | exists 1];
        exists w; (split; [reflexivity|]); (split; [lia|]);
        (split; [done|]); by intros ? [= <-].
    - exists (round (entropy w 0%nat)). eexists.
      split; [reflexivity|]. split; [apply round_bit|]. done. }
  rewrite (bind_run _ _ _ _ _ Hg).
  set (options' := {| areaCode := areaCode options;
                      birthday := birthday options;
                      gender := Some (Num g) |}).
  assert (accepted options') as Hacc'.
  { destruct Hacc as (Ha & Hb & _). split; [exact Ha|]. split; [exact Hb|].
    intros x [= <-]. destruct Hg01 as [-> | ->]; auto. }
  assert (initialized (this w1) = true) as Hinit1 by (by rewrite Hthis).
  destruct (generateIdCard_fields province city area town options' w1
              Hinit1 Hacc')
    as (code & bday & num & g' & c & w2 & Hrun & Hcode & Hbday & Hnum & Hg'
        & Hpar & Hgs' & Hsa & Hra & Hsb & _).
  { destruct Hpool as [? | [? ?]]; [by left|]. right.
    rewrite Hthis. done. }
  pose proof (Hgs' _ eq_refl) as [= <-].
  rewrite (bind_run _ _ _ _ _ Hrun).
  assert (this w2 = this w
          \/ this w2
             = set_randomAreaCodes (Some (district_pool area)) (this w))
    as Hw2.
  { destruct (generateIdCard_this province city area town options' w1 _ w2
                Hinit1 Hrun) as [E | (_ & _ & E)]; rewrite E, Hthis; auto. }
  assert (loaded province city area town (this w2)) as L2.
  { destruct Hw2 as [-> | ->]; [done | by apply loaded_random_codes]. }
  cbv zeta.
  pose proof Hcode as [Lc _]%test_digits_spec.
  rewrite (substring_app_first code _ 6 Lc).
  rewrite (bind_run _ _ _ _ _ (getAreaNameByCode_run _ _ _ _ code w2 L2)).
  eexists code, bday, num, g, c, _, w2.
  split; [reflexivity|]. cbn [person_idCard person_gender person_age
                              person_birthDate person_areaName].
  split; [done|].
  split. { destruct Hg01 as [-> | ->]; reflexivity. }
  split; [done|]. split; [done|].
  split. { by destruct (table_name province city area code) as [[|? ?]|]. }
  done.
Qed.

End Person.

(** ** What the public methods leave of the generator *)

Lemma caches_only_refl (area : list AreaItem) (g : Generator) :
  caches_only area g g.
Proof.
  exists (randomAreaCodes g), (fuzzyAreaNameMap g).
  split; [by destruct g | auto].
Qed.

Lemma caches_only_eq (area : list AreaItem) (g g' : Generator) :
  g' = g -> caches_only area g g'.
Proof. intros ->. apply caches_only_refl. Qed.

Lemma caches_only_trans (area : list AreaItem) (g1 g2 g3 : Generator) :
  caches_only area g1 g2 -> caches_only area g2 g3 -> caches_only area g1 g3.
Proof.
  intros (c1 & f1 & -> & Hc1 & Hf1) (c2 & f2 & -> & Hc2 & Hf2).
  cbn [randomAreaCodes fuzzyAreaNameMap areaCodeByName set_randomAreaCodes
       set_fuzzyAreaNameMap] in Hc2, Hf2.
  exists c2, f2. split; [reflexivity|].
  split; [destruct Hc2 as [-> | ->]; auto|].
  destruct Hf2 as [-> | ->]; auto.
Qed.

Lemma caches_only_loaded (province : list ProvinceItem)
  (city : list CityItem) (area : list AreaItem) (town : list TownItem)
  (g g' : Generator) :
  caches_only area g g' ->
  loaded province city area town g -> loaded province city area town g'.
Proof.
  intros (c & f & -> & Hc & Hf) (Hinit & Hidx & Htowns & Hcc & Hfc).
  split; [done|]. split; [done|]. split; [done|].
  split.
  - unfold cache_coherent. cbn. destruct Hc as [-> | ->]; auto.
  - unfold fuzzy_coherent. cbn. destruct Hf as [-> | ->]; auto.
Qed.

Lemma caches_only_initialized (area : list AreaItem) (g g' : Generator) :
  caches_only area g g' -> initialized g' = initialized g.
Proof. by intros (c & f & -> & _). Qed.

Lemma resolveDistrictCode_this (area : list AreaItem) (areaCode : jsstring)
  (w : World) (r : jsstring) (w' : World) :
  _resolveDistrictCode area areaCode w = inr (r, w') ->
  this w' = this w
  /\ (r = areaCode \/ exists a, a ∈ area /\ a_code a = r).
Proof.
  unfold _resolveDistrictCode.
  destruct (test_city_level areaCode); [|intros [= <- <-]; auto].
  cbv zeta.
  match goal with
  | |- context [arr_length ?l] => set (districts := l)
  end.
  destruct (0 <? arr_length districts); [|intros [= <- <-]; auto].
  unfold bind, Math_random.
  destruct (index districts _) as [a|] eqn:E; [|done].
  intros [= <- <-]. split; [done|]. right. exists a. split; [|done].
  unfold index in E. destruct (Z.ltb _ 0); [done|].
  apply list_elem_of_lookup_2 in E.
  assert (forall P, a ∈ List.filter P area -> a ∈ area) as Hsub.
  { intros P Hin. apply list_elem_of_In in Hin. apply filter_In in Hin.
    apply list_elem_of_In. tauto. }
  unfold districts in E. destruct (includes DIRECT_CITIES _); eauto.
Qed.

Lemma getBirthdayFromAge_this (today : Date) (age : number) (w : World)
  (r : jsstring) (w' : World) :
  _getBirthdayFromAge today age w = inr (r, w') -> this w' = this w.
Proof.
  unfold _getBirthdayFromAge, bind, Math_random, ret. by intros [= <- <-].
Qed.

Section Frames.

Variable province : list ProvinceItem.
Variable city : list CityItem.
Variable area : list AreaItem.
Variable town : list TownItem.

Lemma generateIdCard_caches (options : IdCardOptions) (w : World)
  (number : jsstring) (w' : World) :
  initialized (this w) = true ->
  generateIdCard province city area town options w = inr (number, w') ->
  caches_only area (this w) (this w').
Proof.
  intros Hinit H.
  destruct (generateIdCard_this province city area town options w number w'
              Hinit H) as [E | (_ & _ & E)]; rewrite E.
  - apply caches_only_refl.
  - exists (Some (district_pool area)), (fuzzyAreaNameMap (this w)).
    split; [by destruct (this w) | auto].
Qed.

Lemma getAreaNameByCode_this (code : jsstring) (w : World)
  (r : option jsstring) (w' : World) :
  initialized (this w) = true ->
  _getAreaNameByCode province city area town code w = inr (r, w') ->
  w' = w.
Proof.
  intros Hinit. unfold _getAreaNameByCode.
  rewrite (bind_run _ _ _ _ _ (ensureInitialized_done _ _ _ _ w Hinit)).
  unfold bind, self, ret. by intros [= <- <-].
Qed.

Lemma getAreaCodeByName_caches (areaName : jsstring) (w : World)
  (r : option Resolved) (w' : World) :
  initialized (this w) = true ->
  _getAreaCodeByName province city area town areaName w = inr (r, w') ->
  caches_only area (this w) (this w') /\ entropy w' = entropy w.
Proof.
  intros Hinit. unfold _getAreaCodeByName.
  rewrite (bind_run _ _ _ _ _ (ensureInitialized_done _ _ _ _ w Hinit)).
  unfold bind at 1, self at 1.
  destruct (InsertionMap.has _ _).
  { intros [= <- <-]. split; [apply caches_only_refl | done]. }
  destruct (get_property commonCities areaName).
  { intros [= <- <-]. split; [apply caches_only_refl | done]. }
  intros H. apply bind_inr in H as ([] & w1 & H1 & H).
  assert (this w' = this w1 /\ entropy w' = entropy w1) as [-> ->].
  { unfold bind, self, ret, throw in H.
    repeat case_match; by simplify_eq. }
  destruct (fuzzyAreaNameMap (this w)) eqn:E.
  - inversion H1; subst. split; [apply caches_only_refl | done].
  - unfold _buildFuzzyAreaNameCache, bind, update, self, ret in H1.
    cbn [this fuzzyAreaNameMap set_fuzzyAreaNameMap] in H1.
    inversion H1; subst; clear H1. cbn [this entropy]. split; [|done].
    exists (randomAreaCodes (this w)),
           (Some (build_fuzzy (areaCodeByName (this w)))).
    split; [by destruct (this w) | auto].
Qed.

Lemma generatePersonInfo_caches (today : Date) (options : IdCardOptions)
  (w : World) (p : PersonInfo) (w' : World) :
  initialized (this w) = true ->
  generatePersonInfo province city area town today options w = inr (p, w') ->
  caches_only area (this w) (this w').
Proof.
  intros Hinit. unfold generatePersonInfo.
  rewrite (bind_run _ _ _ _ _ (ensureInitialized_done _ _ _ _ w Hinit)).
  intros H. apply bind_inr in H as (g & w1 & H1 & H).
  assert (this w1 = this w) as E1.
  { destruct (gender options); by inversion H1. }
  apply bind_inr in H as (n & w2 & H2 & H).
  apply generateIdCard_caches in H2; [|by rewrite E1].
  rewrite E1 in H2.
  cbv zeta in H. apply bind_inr in H as (found & w3 & H3 & H).
  apply getAreaNameByCode_this in H3 as ->;
    [|by rewrite (caches_only_initialized _ _ _ H2)].
  by inversion H; subst.
Qed.

Lemma generatePersonInfoByAreaAndAge_caches (today : Date)
  (areaName : jsstring) (age : option number) (options : IdCardOptions)
  (w : World) (p : PersonInfo) (w' : World) :
  initialized (this w) = true ->
  generatePersonInfoByAreaAndAge province city area town today areaName age
    options w = inr (p, w') ->
  caches_only area (this w) (this w').
Proof.
  intros Hinit. unfold generatePersonInfoByAreaAndAge.
  rewrite (bind_run _ _ _ _ _ (ensureInitialized_done _ _ _ _ w Hinit)).
  intros H. apply bind_inr in H as ([] & w1 & H1 & H).
  assert (w1 = w) as ->.
  { unfold throw_if, throw, ret in H1. by destruct (falsy areaName);
      simplify_eq. }
  destruct age as [a|]; [|done].
  apply bind_inr in H as ([] & w1 & H1' & H).
  assert (w1 = w) as ->.
  { unfold throw_if, throw, ret in H1'. by destruct (_ || _); simplify_eq. }
  apply bind_inr in H as (found & w2 & H2 & H).
  apply getAreaCodeByName_caches in H2 as [C2 _]; [|done].
  assert (exists start,
            (areaCode <- _resolveDistrictCode area start ;;
             birthday <- _getBirthdayFromAge today a ;;
             generatePersonInfo province city area town today
               {| areaCode := Some areaCode; birthday := Some birthday;
                  gender := gender options |}) w2 = inr (p, w'))
    as (start & H').
  { destruct found as [[code | key]|].
    - by eexists.
    - exfalso. clear -H.
      repeat (apply bind_inr in H as (? & ? & _ & H)). done.
    - by eexists. }
  clear H. rename H' into H.
  apply bind_inr in H as (code & w3 & H3 & H).
  apply resolveDistrictCode_this in H3 as [E3 _].
  apply bind_inr in H as (bday & w4 & H4 & H).
  apply getBirthdayFromAge_this in H4.
  apply generatePersonInfo_caches in H.
  - rewrite H4, E3 in H. eapply caches_only_trans; [exact C2 | exact H].
  - rewrite H4, E3. by rewrite (caches_only_initialized _ _ _ C2).
Qed.

(** X11. The invariant of the object. On a loaded generator a call of
    [generateIdCard], [generatePersonInfo] or
    [generatePersonInfoByAreaAndAge] that returns leaves the tables and the
    index of names and codes as they were: at most it fills one or both of
    the lazy caches (the list of random area codes, the fuzzy index of
    names) with what their builders compute. So the generator is loaded
    after the call as well. *)
Theorem public_methods_keep_loaded (today : Date) (w : World) :
  loaded province city area town (this w) ->
  (forall options number w',
     generateIdCard province city area town options w = inr (number, w') ->
     caches_only area (this w) (this w')
     /\ loaded province city area town (this w'))
  /\ (forall options p w',
        generatePersonInfo province city area town today options w
        = inr (p, w') ->
        caches_only area (this w) (this w')
        /\ loaded province city area town (this w'))
  /\ (forall areaName age options p w',
        generatePersonInfoByAreaAndAge province city area town today
          areaName age options w = inr (p, w') ->
        caches_only area (this w) (this w')
        /\ loaded province city area town (this w')).
Proof.
  intros L. pose proof L as (Hinit & _).
  split; [|split].
  - intros options number w' H.
    apply generateIdCard_caches in H; [|done].
    split; [done | by eapply caches_only_loaded].
  - intros options p w' H.
    apply generatePersonInfo_caches in H; [|done].
    split; [done | by eapply caches_only_loaded].
  - intros areaName age options p w' H.
    apply generatePersonInfoByAreaAndAge_caches in H; [|done].
    split; [done | by eapply caches_only_loaded].
Qed.

End Frames.

Lemma public_methods_keep_loaded_witness :
  exists p w',
    generatePersonInfoByAreaAndAge
      Sample.province Sample.city Sample.area Sample.town Sample.today
      [27494; 27721]%N (Some (Num 30))
      {| areaCode := None; birthday := None; gender := None |} Sample.world
    = inr (p, w')
    /\ loaded Sample.province Sample.city Sample.area Sample.town (this w').
Proof.
  eexists _, _. split; [vm_compute; reflexivity|].
  refine (proj2 (proj2 (proj2 (public_methods_keep_loaded
                                 Sample.province Sample.city Sample.area
                                 Sample.town Sample.today Sample.world
                                 sample_world_loaded))
                   [27494; 27721]%N (Some (Num 30))
                   {| areaCode := None; birthday := None; gender := None |}
                   _ _ _)).
  vm_compute. reflexivity.
Defined.

(** ** The fields of a person and the identity number *)

Lemma forallb_take {A} (P : A -> bool) (l : list A) (n : nat) :
  forallb P l = true -> forallb P (take n l) = true.
Proof.
  rewrite <- (take_drop n l) at 1. rewrite forallb_app.
  by intros [? _]%andb_prop.
Qed.

Lemma forallb_drop {A} (P : A -> bool) (l : list A) (n : nat) :
  forallb P l = true -> forallb P (drop n l) = true.
Proof.
  rewrite <- (take_drop n l) at 1. rewrite forallb_app.
  by intros [_ ?]%andb_prop.
Qed.

Lemma take_take_le {A} (l : list A) (n m : nat) :
  (n <= m)%nat -> take n (take m l) = take n l.
Proof. intros H. by rewrite take_take, Nat.min_l. Qed.

Lemma formatted_birth_date (today : Date) (idCard : jsstring) :
  (14 <= length idCard)%nat ->
  forallb is_digit (take 8 (drop 6 idCard)) = true ->
  formattedBirthDate (_extractInfoFromIdCard today idCard)
  = String_of (Num (SpecAge.birth_year_of idCard)) ++ lit "-"
    ++ take 2 (drop 10 idCard) ++ lit "-" ++ take 2 (drop 12 idCard).
Proof.
  intros Hlen Hdig.
  destruct (extract_birth_fields today idCard Hlen Hdig) as (Hy & Hm & Hd).
  cbv zeta in Hy, Hm, Hd.
  assert (formattedBirthDate (_extractInfoFromIdCard today idCard)
          = String_of (birthYear (_extractInfoFromIdCard today idCard))
            ++ lit "-"
            ++ _pad (birthMonth (_extractInfoFromIdCard today idCard)) 2
            ++ lit "-"
            ++ _pad (birthDay (_extractInfoFromIdCard today idCard)) 2)
    as -> by reflexivity.
  rewrite Hy, Hm, Hd.
  assert (forall s, length s = 2%nat -> forallb is_digit s = true ->
                    _pad (Num (Spec.decimal_value s)) 2 = s) as Hpad.
  { intros s Hl Hs. pose proof (decimal_value_bounds s Hs) as Hb.
    rewrite Hl in Hb. rewrite pad2_decimal by (simpl in Hb; lia).
    rewrite <- Hl. by apply decimal_decimal_value. }
  assert (forallb is_digit (take 2 (drop 10 idCard)) = true
          /\ forallb is_digit (take 2 (drop 12 idCard)) = true) as [D1 D2].
  { assert (take 2 (drop 10 idCard)
            = drop 4 (take (4 + 2) (take 8 (drop 6 idCard)))) as ->.
    { rewrite take_take_le by lia.
      by rewrite <- take_drop_commute, drop_drop. }
    assert (take 2 (drop 12 idCard)
            = drop 6 (take (6 + 2) (take 8 (drop 6 idCard)))) as ->.
    { rewrite take_take_le by lia.
      by rewrite <- take_drop_commute, drop_drop. }
    split; apply forallb_drop, forallb_take, Hdig. }
  unfold SpecAge.birth_month_of, SpecAge.birth_day_of.
  rewrite !Hpad; [done| |done| |done].
  - rewrite length_take, length_drop. lia.
  - rewrite length_take, length_drop. lia.
Qed.

Section PersonTheorems.

Variable province : list ProvinceItem.
Variable city : list CityItem.
Variable area : list AreaItem.
Variable town : list TownItem.
Variable today : Date.

(** X12. The person that [generatePersonInfo] returns agrees with its
    identity number: the gender is 男 exactly when the seventeenth digit is
    odd, the age is the age today of the birth date written in the digits 7
    to 14, and the birth date is these digits as YYYY-MM-DD (as long as the
    year has no leading zero, which [String] would drop). *)
Theorem person_matches_number (options : IdCardOptions) (w : World) :
  loaded province city area town (this w) ->
  accepted options ->
  supplied (areaCode options) = true
  \/ (district_pool area <> []
      /\ forallb (test_digits 6) (district_pool area) = true) ->
  exists p w',
    generatePersonInfo province city area town today options w
    = inr (p, w')
    /\ let n := person_idCard p in
       length n = 18%nat
       /\ (exists d, n !! 16%nat = Some d
                     /\ person_gender p
                        = if Spec.digit_value d `mod` 2 =? 1
                          then male else female)
       /\ person_age p
          = Num (SpecAge.age_on today (SpecAge.birth_year_of n)
                   (SpecAge.birth_month_of n) (SpecAge.birth_day_of n))
       /\ person_birthDate p
          = String_of (Num (SpecAge.birth_year_of n)) ++ lit "-"
            ++ take 2 (drop 10 n) ++ lit "-" ++ take 2 (drop 12 n)
       /\ (1000 <= SpecAge.birth_year_of n ->
           person_birthDate p
           = take 4 (drop 6 n) ++ lit "-" ++ take 2 (drop 10 n)
             ++ lit "-" ++ take 2 (drop 12 n)).
Proof.
  intros L Hacc Hpool.
  destruct (generatePersonInfo_run province city area town today options w
              L Hacc Hpool)
    as (code & bday & num & g & c & p & w' & Hrun & Hid & Hgen & Hage
        & Hdate & _ & Hcode & Hbday & Hnum & Hg & Hpar & _).
  cbv zeta in Hrun, Hid, Hage, Hdate.
  exists p, w'. split; [exact Hrun|]. cbv zeta. rewrite Hid.
  apply test_digits_spec in Hcode as [Lc Dc].
  apply test_digits_spec in Hbday as [Lb Db].
  set (n := code ++ bday ++ Spec.decimal 3 num ++ [c]) in *.
  assert (length n = 18%nat) as Hlen.
  { unfold n. rewrite !length_app, decimal_length, Lc, Lb. reflexivity. }
  assert (take 8 (drop 6 n) = bday) as Hmid.
  { unfold n. rewrite drop_app_length' by done.
    by rewrite take_app_length'. }
  assert (forallb is_digit (take 8 (drop 6 n)) = true) as Hdig
    by (by rewrite Hmid).
  split; [exact Hlen|]. split; [|split; [|split]].
  - destruct (decimal3_last num ltac:(lia)) as (d & Hd & Hdp).
    exists d. split.
    + unfold n. rewrite !app_assoc, lookup_app_l
        by (rewrite !length_app, decimal_length, Lc, Lb; simpl; lia).
      rewrite lookup_app_r by (rewrite length_app; lia).
      rewrite length_app, Lc, Lb. exact Hd.
    + rewrite Hgen, Hdp, Hpar. reflexivity.
  - rewrite Hage.
    destruct (extract_birth_fields today n ltac:(lia) Hdig)
      as (Hy & Hm & Hd).
    by apply extract_age.
  - rewrite Hdate. apply formatted_birth_date; [lia | done].
  - intros Hy. rewrite Hdate, formatted_birth_date by (lia || done).
    f_equal.
    assert (forallb is_digit (take 4 (drop 6 n)) = true) as D4.
    { rewrite <- (take_take_le _ 4 8) by lia. by apply forallb_take. }
    pose proof (decimal_value_bounds _ D4) as Hb.
    assert (length (take 4 (drop 6 n)) = 4%nat) as L4
      by (rewrite length_take, length_drop; lia).
    rewrite L4 in Hb.
    unfold SpecAge.birth_year_of in *.
    rewrite String_four_digits by (simpl in Hb; lia).
    rewrite <- L4 at 1. by apply decimal_decimal_value.
Qed.

(** X13. The area name of the person is the name that the tables give to
    the first six digits of the identity number, or 未知地区 when they
    give none. When the area code is left to the generator, the code is one
    of the area table that does not end in 00 and the name is the bare name
    of an entry of this table with that code. *)
Theorem person_area_name (options : IdCardOptions) (w : World) :
  loaded province city area town (this w) ->
  accepted options ->
  supplied (areaCode options) = true
  \/ (district_pool area <> []
      /\ forallb (test_digits 6) (district_pool area) = true) ->
  exists p w',
    generatePersonInfo province city area town today options w
    = inr (p, w')
    /\ let code := substring (person_idCard p) 0 6 in
       person_areaName p
       = match table_name province city area code with
         | Some (c :: s) => c :: s
         | _ => unknown_area
         end
       /\ person_areaName p <> []
       /\ (supplied (areaCode options) = true ->
           areaCode options = Some code)
       /\ (supplied (areaCode options) = false ->
           endsWith code (lit "00") = false
           /\ exists a, a ∈ area /\ a_code a = code
                        /\ person_areaName p
                           = if falsy (a_name a) then unknown_area
                             else a_name a).
Proof.
  intros L Hacc Hpool.
  destruct (generatePersonInfo_run province city area town today options w
              L Hacc Hpool)
    as (code & bday & num & g & c & p & w' & Hrun & Hid & _ & _ & _ & Harea
        & Hcode & _ & _ & _ & _ & _ & Hsup & Hrand & _).
  cbv zeta in Hrun, Hid.
  exists p, w'. split; [exact Hrun|]. cbv zeta. rewrite Hid.
  pose proof Hcode as [Lc _]%test_digits_spec.
  rewrite (substring_app_first code _ 6 Lc).
  split; [exact Harea|]. split; [|split; [exact Hsup|]].
  - rewrite Harea.
    by destruct (table_name province city area code) as [[|? ?]|].
  - intros Hno. specialize (Hrand Hno).
    destruct (district_pool_member area code Hrand) as (a & Hin & Ha & Hend).
    split; [by rewrite <- Ha|].
    destruct (find_reverse_some (fun a => bool_decide (a_code a = code))
                area a Hin) as (b & Hfind & Hb & Hbc);
      [by apply bool_decide_eq_true_2|].
    apply bool_decide_eq_true_1 in Hbc.
    exists b. split; [done|]. split; [done|].
    rewrite Harea. unfold table_name. rewrite Hfind.
    by destruct (a_name b).
Qed.

End PersonTheorems.

Lemma person_matches_number_witness :
  exists p w',
    generatePersonInfo Sample.province Sample.city Sample.area Sample.town
      Sample.today {| areaCode := None; birthday := None; gender := None |}
      Sample.world = inr (p, w')
    /\ length (person_idCard p) = 18%nat.
Proof.
  destruct (person_matches_number
              Sample.province Sample.city Sample.area Sample.town
              Sample.today
              {| areaCode := None; birthday := None; gender := None |}
              Sample.world sample_world_loaded)
    as (p & w' & Hrun & Hlen & _).
  - repeat split; intros ? [=].
  - right. split; [vm_compute; discriminate | vm_compute; reflexivity].
  - exists p, w'. split; [exact Hrun | exact Hlen].
Defined.

Lemma person_area_name_witness :
  exists p w',
    generatePersonInfo Sample.province Sample.city Sample.area Sample.town
      Sample.today {| areaCode := None; birthday := None; gender := None |}
      Sample.world = inr (p, w')
    /\ person_areaName p <> [].
Proof.
  destruct (person_area_name
              Sample.province Sample.city Sample.area Sample.town
              Sample.today
              {| areaCode := None; birthday := None; gender := None |}
              Sample.world sample_world_loaded)
    as (p & w' & Hrun & _ & Hne & _).
  - repeat split; intros ? [=].
  - right. split; [vm_compute; discriminate | vm_compute; reflexivity].
  - exists p, w'. split; [exact Hrun | exact Hne].
Defined.

(** ** A person of a given area and age *)

Lemma InsertionMap_get_elem (m : InsertionMap.t) (name code : jsstring) :
  InsertionMap.get m name = Some code -> (name, code) ∈ m.
Proof.
  induction m as [|[k v] m IH]; simpl; [done|].
  destruct (decide (name = k)) as [-> | Hne].
  - intros [= ->]. apply elem_of_cons. by left.
  - intros H. apply elem_of_cons. right. by apply IH.
Qed.

Lemma InsertionMap_elem_get (m : InsertionMap.t) (name code : jsstring) :
  NoDup (fst <$> m) -> (name, code) ∈ m ->
  InsertionMap.get m name = Some code.
Proof.
  induction m as [|[k v] m IH]; simpl.
  - by intros _ ?%elem_of_nil.
  - intros [Hk Hnd]%NoDup_cons [Heq | Hin]%elem_of_cons.
    + simplify_eq. by rewrite decide_True.
    + destruct (decide (name = k)) as [-> | Hne]; [|by apply IH].
      exfalso. apply Hk. apply list_elem_of_fmap. by exists (k, code).
Qed.

Lemma first_code_elem (ins : list (jsstring * jsstring))
  (name code : jsstring) :
  SpecIndex.first_code ins name = Some code -> (code, name) ∈ ins.
Proof.
  unfold SpecIndex.first_code.
  destruct (find _ ins) as [[c n]|] eqn:E; [|done].
  intros [= <-]. apply find_some in E as [Hin Hn].
  apply bool_decide_eq_true_1 in Hn. cbn in Hn. subst.
  by apply list_elem_of_In.
Qed.

Lemma insertions_codes (province : list ProvinceItem)
  (city : list CityItem) (area : list AreaItem)
  (pm : gmap jsstring ProvinceItem)
  (cm : gmap jsstring (gmap jsstring CityItem)) (code name : jsstring) :
  (code, name) ∈ SpecIndex.insertions province city area pm cm ->
  code ∈ table_codes province city area.
Proof.
  unfold SpecIndex.insertions, table_codes.
  rewrite !elem_of_app. intros [H | [H | H]].
  - left. apply list_elem_of_fmap in H as (p & [= -> ->] & Hin).
    apply list_elem_of_fmap. by exists p.
  - right. left. apply list_elem_of_bind in H as (c & H & Hin).
    apply list_elem_of_fmap. exists c. split; [|done].
    apply elem_of_cons in H as [[= -> _] | H]; [done|].
    apply list_elem_of_singleton in H as [= -> _]. done.
  - right. right. apply list_elem_of_bind in H as (a & H & Hin).
    apply list_elem_of_fmap. exists a. split; [|done].
    apply elem_of_cons in H as [[= -> _] | H]; [done|].
    apply list_elem_of_singleton in H as [= -> _]. done.
Qed.

Lemma first_entry_elem (P : jsstring -> bool)
  (entries : list (jsstring * jsstring)) (code : jsstring) :
  SpecResolve.first_entry P entries = Some code ->
  exists name, (name, code) ∈ entries.
Proof.
  unfold SpecResolve.first_entry.
  destruct (find _ entries) as [[n c]|] eqn:E; [|done].
  intros [= <-]. apply find_some in E as [Hin _].
  exists n. by apply list_elem_of_In.
Qed.

Lemma get_property_code (own : gmap jsstring jsstring) (key code : jsstring) :
  get_property own key = Some (Code code) -> own !! key = Some code.
Proof.
  unfold get_property. destruct (own !! key); [by intros [= ->]|].
  by destruct (includes Object_prototype key).
Qed.

(** What the four tiers can answer on a loaded generator. *)
Lemma resolve_known (province : list ProvinceItem) (city : list CityItem)
  (area : list AreaItem) (town : list TownItem) (g : Generator)
  (name code : jsstring) :
  loaded province city area town g ->
  SpecResolve.resolve (areaCodeByName g) name = Some (Code code) ->
  known_code province city area code.
Proof.
  intros (_ & (Hnd & Hfirst & _) & _). unfold SpecResolve.resolve.
  assert (forall n c, (n, c) ∈ areaCodeByName g ->
                      c ∈ table_codes province city area) as Hentry.
  { intros n c Hin. apply (InsertionMap_elem_get _ _ _ Hnd) in Hin.
    rewrite Hfirst in Hin. apply first_code_elem in Hin.
    by eapply insertions_codes. }
  destruct (InsertionMap.get (areaCodeByName g) name) as [c|] eqn:E1.
  { intros [= <-]. left. apply InsertionMap_get_elem in E1. eauto. }
  destruct (get_property commonCities name) as [v|] eqn:E2.
  { intros [= ->]. right. apply get_property_code in E2. eauto. }
  destruct (SpecResolve.first_entry (SpecResolve.prefix_key name) _)
    as [c|] eqn:E3.
  { intros [= <-]. left. apply first_entry_elem in E3 as (n & Hin). eauto. }
  intros E4. apply fmap_Some in E4 as (c & E4 & [= <-]).
  left. apply first_entry_elem in E4 as (n & Hin). eauto.
Qed.

(** A name that no object inherits resolves to a code or to nothing. *)
Lemma resolve_not_inherited (entries : list (jsstring * jsstring))
  (name key : jsstring) :
  name ∉ Object_prototype ->
  SpecResolve.resolve entries name <> Some (Inherited key).
Proof.
  intros Hn. unfold SpecResolve.resolve.
  destruct (InsertionMap.get entries name); [done|].
  rewrite (get_property_plain _ _ Hn).
  destruct (commonCities !! name); [done|]. cbn [fmap option_fmap option_map].
  destruct (SpecResolve.first_entry (SpecResolve.prefix_key name) entries);
    [done|].
  by destruct (SpecResolve.first_entry (SpecResolve.char_key name) entries).
Qed.

(** The resolver answers a member of [Object.prototype] only under the
    name of this member, and when no region bears the name. *)
Lemma resolve_inherited_inv (entries : list (jsstring * jsstring))
  (name key : jsstring) :
  SpecResolve.resolve entries name = Some (Inherited key) ->
  key = name /\ name ∈ Object_prototype
  /\ InsertionMap.get entries name = None.
Proof.
  unfold SpecResolve.resolve.
  destruct (InsertionMap.get entries name); [done|].
  unfold get_property. destruct (commonCities !! name); [done|].
  destruct (includes Object_prototype name) eqn:E.
  - apply includes_spec in E. by intros [= <-].
  - destruct (SpecResolve.first_entry (SpecResolve.prefix_key name) entries);
      [done|].
    by destruct (SpecResolve.first_entry (SpecResolve.char_key name) entries).
Qed.

(** The name of a member of [Object.prototype] resolves to this member,
    unless a region bears the name. *)
Lemma resolve_inherited (entries : list (jsstring * jsstring))
  (name : jsstring) :
  name ∈ Object_prototype ->
  InsertionMap.get entries name = None ->
  SpecResolve.resolve entries name = Some (Inherited name).
Proof.
  intros Hin Hg. unfold SpecResolve.resolve. rewrite Hg.
  by rewrite (get_property_inherited _ _
                (commonCities_not_inherited _ Hin) Hin).
Qed.

Lemma commonCities_digits (name code : jsstring) :
  commonCities !! name = Some code -> test_digits 6 code = true.
Proof.
  assert (map_Forall (fun _ c => test_digits 6 c = true) commonCities) as H.
  { unfold commonCities. repeat (apply map_Forall_insert_2; [reflexivity|]).
    apply map_Forall_empty. }
  apply H.
Qed.

Lemma resolveDistrictCode_total (area : list AreaItem) (areaCode : jsstring)
  (w : World) :
  exists r w',
    _resolveDistrictCode area areaCode w = inr (r, w')
    /\ (test_city_level areaCode = false -> r = areaCode /\ w' = w).
Proof.
  unfold _resolveDistrictCode.
  destruct (test_city_level areaCode); [|by eexists _, _].
  cbv zeta.
  match goal with
  | |- context [arr_length ?l] => set (districts := l)
  end.
  destruct (0 <? arr_length districts) eqn:E; [|by eexists _, _].
  assert (districts <> []) as Hne.
  { intros E0. rewrite E0 in E. done. }
  destruct (pool_index districts (entropy w 0%nat) Hne) as (a & Ha & _).
  unfold bind, Math_random. rewrite Ha. by eexists _, _.
Qed.

Lemma getBirthdayFromAge_run (today : Date) (a : Z) (w : World) :
  let y := getFullYear today - a in
  let m := floor_times (entropy w 0%nat) 12 + 1 in
  let d := floor_times (entropy w 1%nat) (Spec.days_in_month y m) + 1 in
  1000 <= y <= 9999 ->
  _getBirthdayFromAge today (Num a) w
    = inr (Spec.decimal 4 y ++ Spec.decimal 2 m ++ Spec.decimal 2 d,
           consume 2 w)
  /\ 1 <= m <= 12
  /\ 1 <= d <= Spec.days_in_month y m.
Proof.
  intros y m d Hy.
  pose proof (floor_times_range (entropy w 0%nat) 12 ltac:(lia)) as Hm.
  pose proof (days_in_month_range y m) as Hdim.
  pose proof (floor_times_range (entropy w 1%nat) (Spec.days_in_month y m)
                ltac:(lia)) as Hd.
  fold m in Hm. fold d in Hd.
  split; [|subst m d; lia].
  unfold _getBirthdayFromAge, bind, Math_random, ret. cbn [entropy this].
  cbn [num_sub]. fold y. fold m.
  rewrite (maxDay_spec (Num y) y m) by (subst m; done || lia).
  fold d.
  rewrite String_four_digits by lia.
  rewrite !pad2_decimal by (subst m d; lia).
  reflexivity.
Qed.

Lemma getBirthdayFromAge_returns (today : Date) (age : number) (w : World) :
  exists birthday,
    _getBirthdayFromAge today age w = inr (birthday, consume 2 w).
Proof.
  unfold _getBirthdayFromAge, bind, Math_random, ret. eexists. reflexivity.
Qed.

Section ByAreaAndAge.

Variable province : list ProvinceItem.
Variable city : list CityItem.
Variable area : list AreaItem.
Variable town : list TownItem.
Variable today : Date.

(** What [generatePersonInfoByAreaAndAge] does with the answer of the
    resolver: with a code, or with none, it goes on from
    [requested_code]. *)
Lemma by_area_from_code (found : option Resolved) (age : number)
  (options : IdCardOptions) :
  (forall key, found <> Some (Inherited key)) ->
  match found with
  | Some (Inherited _) =>
      _getBirthdayFromAge today age ;;;
      _ensureInitialized province city area town ;;;
      match gender options with
      | Some x => ret x
      | None => r <- Math_random ;; ret (Num (round r))
      end ;;;
      _ensureInitialized province city area town ;;;
      throw Error_areaCode
  | _ =>
      let areaCode :=
        match found with
        | Some (Code (c :: s)) => c :: s
        | _ => lit "110101"
        end in
      areaCode <- _resolveDistrictCode area areaCode ;;
      birthday <- _getBirthdayFromAge today age ;;
      generatePersonInfo province city area town today
        {| areaCode := Some areaCode; birthday := Some birthday;
           gender := gender options |}
  end
  = (areaCode <- _resolveDistrictCode area (requested_code found) ;;
     birthday <- _getBirthdayFromAge today age ;;
     generatePersonInfo province city area town today
       {| areaCode := Some areaCode; birthday := Some birthday;
          gender := gender options |}).
Proof.
  intros Hk. destruct found as [[[|c s] | key]|]; try reflexivity.
  by destruct (Hk key).
Qed.

(** With an inherited member it ends in the error of the area code. *)
Lemma by_area_inherited (age : number) (options : IdCardOptions)
  (w : World) :
  initialized (this w) = true ->
  (_getBirthdayFromAge today age ;;;
   _ensureInitialized province city area town ;;;
   match gender options with
   | Some x => ret x
   | None => r <- Math_random ;; ret (Num (round r))
   end ;;;
   _ensureInitialized province city area town ;;;
   (throw Error_areaCode : M PersonInfo)) w
  = inl Error_areaCode.
Proof.
  intros Hinit.
  destruct (getBirthdayFromAge_returns today age w) as (b & Hb).
  rewrite (bind_run _ _ _ _ _ Hb).
  rewrite (bind_run _ _ _ _ _
             (ensureInitialized_done _ _ _ _ (consume 2 w) Hinit)).
  assert (exists x w',
            match gender options with
            | Some x => ret x
            | None => r <- Math_random ;; ret (Num (round r))
            end (consume 2 w) = inr (x, w')
            /\ initialized (this w') = true) as (x & w' & Hg & Hinit').
  { destruct (gender options) as [x|]; by eexists _, _. }
  rewrite (bind_run _ _ _ _ _ Hg).
  by rewrite (bind_run _ _ _ _ _
                (ensureInitialized_done _ _ _ _ w' Hinit')).
Qed.

(** [generatePersonInfoByAreaAndAge] on a loaded generator whose tables
    hold codes of six digits. *)
Lemma generatePersonInfoByAreaAndAge_run (areaName : jsstring) (a : Z)
  (options : IdCardOptions) (w : World) :
  loaded province city area town (this w) ->
  (forall code, code ∈ table_codes province city area ->
                test_digits 6 code = true) ->
  areaName <> [] ->
  (forall key, SpecResolve.resolve (areaCodeByName (this w)) areaName
               <> Some (Inherited key)) ->
  0 <= a <= 120 ->
  1120 <= getFullYear today <= 9999 ->
  (forall x, gender options = Some x -> x = Num 0 \/ x = Num 1) ->
  let start :=
    requested_code (SpecResolve.resolve (areaCodeByName (this w)) areaName) in
  let y := getFullYear today - a in
  exists code m d p w',
    generatePersonInfoByAreaAndAge province city area town today areaName
      (Some (Num a)) options w = inr (p, w')
    /\ substring (person_idCard p) 0 6 = code
    /\ substring (person_idCard p) 6 14
       = Spec.decimal 4 y ++ Spec.decimal 2 m ++ Spec.decimal 2 d
    /\ person_age p = Num (SpecAge.age_on today y m d)
    /\ 1 <= m <= 12
    /\ 1 <= d <= Spec.days_in_month y m
    /\ test_digits 6 code = true
    /\ (code = start \/ exists x, x ∈ area /\ a_code x = code)
    /\ (test_city_level start = false -> code = start).
Proof.
  intros L Hdata Hname Hown Ha Hyear Hgender start y.
  pose proof L as (Hinit & _ & _ & _ & Hfz).
  unfold generatePersonInfoByAreaAndAge.
  rewrite (bind_run _ _ _ _ _ (ensureInitialized_done _ _ _ _ w Hinit)).
  assert (throw_if (falsy areaName) Error_areaName w = inr (tt, w)) as H1.
  { by destruct areaName. }
  rewrite (bind_run _ _ _ _ _ H1).
  assert (throw_if (num_lt (Num a) (Num 0) || num_lt (Num 120) (Num a))
                   Error_age w = inr (tt, w)) as H2.
  { cbn [num_lt].
    destruct (Z.ltb_spec a 0); [lia|]. destruct (Z.ltb_spec 120 a); [lia|].
    reflexivity. }
  rewrite (bind_run _ _ _ _ _ H2).
  destruct (getAreaCodeByName_run province city area town areaName w
              Hinit Hfz) as (w1 & Hfound & _).
  rewrite (bind_run _ _ _ _ _ Hfound).
  pose proof (getAreaCodeByName_caches province city area town areaName w
                _ w1 Hinit Hfound) as [C1 _].
  pose proof (caches_only_loaded _ _ _ _ _ _ C1 L) as L1.
  rewrite by_area_from_code by exact Hown.
  fold start.
  assert (test_digits 6 start = true) as Hstart.
  { unfold start, requested_code.
    destruct (SpecResolve.resolve _ _) as [[[|c s] | key]|] eqn:E;
      [done| |done|done].
    destruct (resolve_known _ _ _ _ _ _ _ L E) as [Hin | (n & Hn)].
    - by apply Hdata.
    - by eapply commonCities_digits. }
  destruct (resolveDistrictCode_total area start w1)
    as (code & w2 & Hres & Hsame).
  rewrite (bind_run _ _ _ _ _ Hres).
  destruct (resolveDistrictCode_this area start w1 code w2 Hres)
    as [E2 Hcode].
  assert (test_digits 6 code = true) as Hsix.
  { destruct Hcode as [-> | (x & Hin & <-)]; [done|].
    apply Hdata. unfold table_codes. rewrite !elem_of_app. right. right.
    apply list_elem_of_fmap. by exists x. }
  destruct (getBirthdayFromAge_run today a w2 ltac:(lia))
    as (Hbirth & Hm & Hd).
  fold y in Hbirth, Hm, Hd.
  set (m := floor_times (entropy w2 0%nat) 12 + 1) in *.
  set (d := floor_times (entropy w2 1%nat) (Spec.days_in_month y m) + 1) in *.
  rewrite (bind_run _ _ _ _ _ Hbirth).
  set (bday := Spec.decimal 4 y ++ Spec.decimal 2 m ++ Spec.decimal 2 d).
  set (options' := {| areaCode := Some code; birthday := Some bday;
                      gender := gender options |}).
  assert (supplied (Some code) = true) as Hsup.
  { apply test_digits_spec in Hsix as [Hl _]. by destruct code. }
  assert (supplied (Some bday) = true) as Hsupb.
  { pose proof (birth_date_digits y m d) as [Hl _]%test_digits_spec.
    fold bday in Hl. by destruct bday. }
  destruct (generatePersonInfo_run province city area town today options'
              (consume 2 w2))
    as (code' & bday' & num & g & c & p & w' & Hrun & Hid & _ & Hage & _ & _
        & Hcode' & Hbday' & _ & _ & _ & _ & Hsa & _ & Hsb & _).
  { cbn [this consume]. by rewrite E2. }
  { split; [|split].
    - intros s [= <-]. by right.
    - intros s [= <-]. right. apply birth_date_digits.
    - exact Hgender. }
  { by left. }
  cbv zeta in Hrun, Hid, Hage.
  specialize (Hsa Hsup). specialize (Hsb Hsupb).
  injection Hsa as <-. injection Hsb as <-.
  exists code, m, d, p, w'. split; [exact Hrun|].
  pose proof Hsix as [Lc _]%test_digits_spec.
  pose proof Hbday' as [Lb Db]%test_digits_spec.
  rewrite Hid.
  split; [by apply substring_app_first|].
  split; [apply substring_app_second; [done | exact Lb | lia]|].
  split.
  { rewrite Hage.
    set (n := code ++ bday ++ Spec.decimal 3 num ++ [c]).
    assert (take 8 (drop 6 n) = bday) as Hmid.
    { unfold n. rewrite drop_app_length' by done.
      by rewrite take_app_length'. }
    assert (14 <= length n)%nat as Hlen.
    { unfold n. rewrite !length_app, Lc, Lb. lia. }
    destruct (extract_birth_fields today n Hlen) as (Ey & Em & Ed);
      [by rewrite Hmid|].
    apply extract_age; cbv zeta.
    - rewrite Ey. f_equal. unfold SpecAge.birth_year_of.
      rewrite <- (take_take_le _ 4 8), Hmid by lia. unfold bday.
      rewrite take_app_length' by (by rewrite decimal_length).
      apply decimal_value_exact. simpl. lia.
    - rewrite Em. f_equal. unfold SpecAge.birth_month_of.
      change 10%nat with (6 + 4)%nat. rewrite <- drop_drop.
      rewrite take_drop_commute, <- (take_take_le _ (4 + 2) 8), Hmid by lia.
      unfold bday. rewrite app_assoc, take_app_length'
        by (rewrite length_app, !decimal_length; lia).
      rewrite drop_app_length' by (by rewrite decimal_length).
      apply decimal_value_exact. simpl. lia.
    - rewrite Ed. f_equal. unfold SpecAge.birth_day_of.
      change 12%nat with (6 + 6)%nat. rewrite <- drop_drop.
      rewrite take_drop_commute, <- (take_take_le _ (6 + 2) 8), Hmid by lia.
      rewrite take_ge by (rewrite Lb; lia).
      unfold bday. rewrite app_assoc, drop_app_length'
        by (rewrite length_app, !decimal_length; lia).
      apply decimal_value_exact.
      pose proof (days_in_month_range y m). simpl. lia. }
  split; [done|]. split; [done|]. split; [done|]. split; [done|].
  intros E. by destruct (Hsame E).
Qed.

End ByAreaAndAge.

Section ByAreaAndAgeTheorems.

Variable province : list ProvinceItem.
Variable city : list CityItem.
Variable area : list AreaItem.
Variable town : list TownItem.
Variable today : Date.

(** X14. [_getAreaCodeByName] never invents a code: on a loaded generator
    every code it answers is the code of an entry of the province, city or
    area table, or one of the eleven codes of the common cities. Its only
    other answer that is not [null] is a member that [commonCities]
    inherits from [Object.prototype], under the name of that member and
    when no region bears this name. *)
Theorem resolved_code_known (areaName : jsstring) (found : Resolved)
  (w w' : World) :
  loaded province city area town (this w) ->
  _getAreaCodeByName province city area town areaName w
  = inr (Some found, w') ->
  match found with
  | Code code => known_code province city area code
  | Inherited key =>
      key = areaName /\ areaName ∈ Object_prototype
      /\ InsertionMap.get (areaCodeByName (this w)) areaName = None
  end.
Proof.
  intros L Hrun. pose proof L as (Hinit & _ & _ & _ & Hfz).
  destruct (getAreaCodeByName_run province city area town areaName w
              Hinit Hfz) as (w1 & Hfound & _).
  rewrite Hfound in Hrun. injection Hrun as Hres _.
  destruct found as [code | key].
  - by eapply resolve_known.
  - by apply resolve_inherited_inv.
Qed.

(** X15. A person of a requested age. For a whole age between 0 and 120
    and a name that is not the name of a member of [Object.prototype], the
    birth date in the identity number is in the year [current year - age],
    on a valid day of a month, and the age of the person is the requested
    age when that day is not after today in the calendar, and the requested
    age minus one when it is (so a requested age of 0 can come back as
    -1). *)
Theorem person_of_requested_age (areaName : jsstring) (a : Z)
  (options : IdCardOptions) (w : World) :
  loaded province city area town (this w) ->
  forallb (test_digits 6) (table_codes province city area) = true ->
  areaName <> [] ->
  areaName ∉ Object_prototype ->
  0 <= a <= 120 ->
  1120 <= getFullYear today <= 9999 ->
  (forall x, gender options = Some x -> x = Num 0 \/ x = Num 1) ->
  exists p w' m d,
    generatePersonInfoByAreaAndAge province city area town today areaName
      (Some (Num a)) options w = inr (p, w')
    /\ substring (person_idCard p) 6 14
       = Spec.decimal 4 (getFullYear today - a) ++ Spec.decimal 2 m
         ++ Spec.decimal 2 d
    /\ 1 <= m <= 12
    /\ 1 <= d <= Spec.days_in_month (getFullYear today - a) m
    /\ person_age p
       = Num (if decide (SpecAge.birthday_pending today m d)
              then a - 1 else a).
Proof.
  intros L Hdata Hname Hown Ha Hyear Hgender.
  destruct (generatePersonInfoByAreaAndAge_run province city area town today
              areaName a options w L)
    as (code & m & d & p & w' & Hrun & _ & Hdate & Hage & Hm & Hd & _);
    try done.
  { intros code Hin. rewrite forallb_forall in Hdata.
    by apply Hdata, list_elem_of_In. }
  { intros key. by apply resolve_not_inherited. }
  exists p, w', m, d. split; [exact Hrun|]. split; [exact Hdate|].
  split; [exact Hm|]. split; [exact Hd|].
  rewrite Hage. unfold SpecAge.age_on. f_equal. case_decide; lia.
Qed.

(** X16. A person of a requested area, for a whole age between 0 and 120
    and a name that is not the name of a member of [Object.prototype]. The
    first six digits of the identity number are the code that the area
    name resolves to when this code is not a municipal-level code; 110101
    (北京市东城区) when the name resolves to nothing; and otherwise the
    resolved code or the code of an entry of the area table. *)
Theorem person_of_requested_area (areaName : jsstring) (a : Z)
  (options : IdCardOptions) (w : World) :
  loaded province city area town (this w) ->
  forallb (test_digits 6) (table_codes province city area) = true ->
  areaName <> [] ->
  areaName ∉ Object_prototype ->
  0 <= a <= 120 ->
  1120 <= getFullYear today <= 9999 ->
  (forall x, gender options = Some x -> x = Num 0 \/ x = Num 1) ->
  let found := SpecResolve.resolve (areaCodeByName (this w)) areaName in
  exists p w',
    generatePersonInfoByAreaAndAge province city area town today areaName
      (Some (Num a)) options w = inr (p, w')
    /\ let code := substring (person_idCard p) 0 6 in
       test_digits 6 code = true
       /\ (found = None -> code = lit "110101")
       /\ (forall c, found = Some (Code c) ->
             test_city_level c = false -> code = c)
       /\ (forall c, found = Some (Code c) ->
             code = c \/ exists x, x ∈ area /\ a_code x = code).
Proof.
  intros L Hdata Hname Hown Ha Hyear Hgender found.
  assert (forall code, code ∈ table_codes province city area ->
                       test_digits 6 code = true) as Hdata'.
  { intros code Hin. rewrite forallb_forall in Hdata.
    by apply Hdata, list_elem_of_In. }
  destruct (generatePersonInfoByAreaAndAge_run province city area town today
              areaName a options w L)
    as (code & m & d & p & w' & Hrun & Hcode & _ & _ & _ & _ & Hsix & Hor
        & Hsame); try done.
  { intros key. by apply resolve_not_inherited. }
  cbv zeta in Hor, Hsame. fold found in Hor, Hsame.
  exists p, w'. split; [exact Hrun|]. cbv zeta. rewrite Hcode.
  split; [exact Hsix|].
  assert (forall c, found = Some (Code c) -> requested_code found = c)
    as Hreq.
  { intros c E. rewrite E. unfold requested_code.
    destruct c as [|c0 s]; [|done].
    destruct (resolve_known _ _ _ _ _ _ _ L E) as [Hin | (n & Hn)].
    - by apply Hdata' in Hin.
    - by apply commonCities_digits in Hn. }
  split; [|split].
  - intros E. rewrite E in Hsame. by apply Hsame.
  - intros c E Hc. rewrite (Hreq c E) in Hsame. by apply Hsame.
  - intros c E. by rewrite (Hreq c E) in Hor.
Qed.

End ByAreaAndAgeTheorems.

Lemma resolved_code_known_witness :
  known_code Sample.province Sample.city Sample.area (lit "420100").
Proof.
  apply (resolved_code_known
           Sample.province Sample.city Sample.area Sample.town
           [27494; 27721]%N (Code (lit "420100")) Sample.world Sample.world
           sample_world_loaded).
  vm_compute. reflexivity.
Defined.

Lemma person_of_requested_age_witness :
  exists p w' m d,
    generatePersonInfoByAreaAndAge
      Sample.province Sample.city Sample.area Sample.town Sample.today
      [27494; 27721]%N (Some (Num 0))
      {| areaCode := None; birthday := None; gender := None |} Sample.world
    = inr (p, w')
    /\ person_age p
       = Num (if decide (SpecAge.birthday_pending Sample.today m d)
              then 0 - 1 else 0).
Proof.
  destruct (person_of_requested_age
              Sample.province Sample.city Sample.area Sample.town
              Sample.today [27494; 27721]%N 0
              {| areaCode := None; birthday := None; gender := None |}
              Sample.world sample_world_loaded)
    as (p & w' & m & d & Hrun & _ & _ & _ & Hage).
  - vm_compute. reflexivity.
  - discriminate.
  - apply not_inherited_name. vm_compute. reflexivity.
  - lia.
  - vm_compute. split; discriminate.
  - intros ? [=].
  - exists p, w', m, d. split; [exact Hrun | exact Hage].
Defined.

Lemma person_of_requested_area_witness :
  exists p w',
    generatePersonInfoByAreaAndAge
      Sample.province Sample.city Sample.area Sample.town Sample.today
      [27494; 27721]%N (Some (Num 30))
      {| areaCode := None; birthday := None; gender := None |} Sample.world
    = inr (p, w')
    /\ test_digits 6 (substring (person_idCard p) 0 6) = true.
Proof.
  destruct (person_of_requested_area
              Sample.province Sample.city Sample.area Sample.town
              Sample.today [27494; 27721]%N 30
              {| areaCode := None; birthday := None; gender := None |}
              Sample.world sample_world_loaded)
    as (p & w' & Hrun & Hsix & _).
  - vm_compute. reflexivity.
  - discriminate.
  - apply not_inherited_name. vm_compute. reflexivity.
  - lia.
  - vm_compute. split; discriminate.
  - intros ? [=].
  - exists p, w'. split; [exact Hrun | exact Hsix].
Defined.

(** A person asked for with the age 0 whose birthday is still to come this
    year (every draw is 15/16, today is 2026-11-03): the age comes back
    as -1. *)
Example newborn_of_december :
  exists p w',
    generatePersonInfoByAreaAndAge
      Sample.province Sample.city Sample.area Sample.town Sample.today
      [27494; 27721]%N (Some (Num 0))
      {| areaCode := None; birthday := None; gender := None |}
      {| this := this Sample.world;
         entropy := fun _ => Sample.double 15 4 eq_refl |}
    = inr (p, w')
    /\ person_idCard p = lit "420102202612309378"
    /\ person_birthDate p = lit "2026-12-30"
    /\ person_age p = Num (-1).
Proof. eexists _, _. vm_compute. repeat split; reflexivity. Qed.

(** The name [constructor] is not empty and resolves to a function, which
    is no code of six digits: the call throws the error of the area
    code. *)
Example constructor_is_no_area :
  generatePersonInfoByAreaAndAge
    Sample.province Sample.city Sample.area Sample.town Sample.today
    (lit "constructor") (Some (Num 30))
    {| areaCode := None; birthday := None; gender := None |} Sample.world
  = inl Error_areaCode.
Proof. vm_compute. reflexivity. Qed.

Section NotANumber.

Variable province : list ProvinceItem.
Variable city : list CityItem.
Variable area : list AreaItem.
Variable town : list TownItem.
Variable today : Date.

(** A birthday that does not pass the validation stops
    [generatePersonInfo]. *)
Lemma generatePersonInfo_birthday_error (options : IdCardOptions)
  (w : World) :
  initialized (this w) = true ->
  (forall s, areaCode options = Some s -> s = [] \/ test_digits 6 s = true) ->
  supplied (birthday options) = true ->
  (forall s, birthday options = Some s -> test_digits 8 s = false) ->
  generatePersonInfo province city area town today options w
  = inl Error_birthday.
Proof.
  intros Hinit Harea Hsup Hbad. unfold generatePersonInfo.
  rewrite (bind_run _ _ _ _ _ (ensureInitialized_done _ _ _ _ w Hinit)).
  assert (exists g w1,
            match gender options with
            | Some x => ret x
            | None => r <- Math_random ;; ret (Num (round r))
            end w = inr (g, w1) /\ this w1 = this w)
    as (g & w1 & Hg & Hthis).
  { destruct (gender options); by eexists _, _. }
  rewrite (bind_run _ _ _ _ _ Hg).
  set (options' := {| areaCode := areaCode options;
                      birthday := birthday options; gender := Some g |}).
  assert (generateIdCard province city area town options' w1
          = inl Error_birthday) as Hrej.
  { apply (generateIdCard_rejects _ _ _ _ _ w1 w1).
    - apply ensureInitialized_done. by rewrite Hthis.
    - destruct (validate_cases options' w1)
        as [(Hs & Hno & _) | [(_ & _ & _ & E) | [(_ & Hok & _)
                                               | ((_ & Hok & _) & _)]]].
      + exfalso. unfold options' in Hno, Hs. cbn [areaCode] in Hno, Hs.
        destruct (areaCode options) as [[|c s]|] eqn:E; try done.
        specialize (Hno _ eq_refl).
        destruct (Harea _ eq_refl) as [? | ?]; congruence.
      + exact E.
      + exfalso. unfold options' in Hok. cbn [birthday] in Hok.
        destruct (birthday options) as [[|c s]|] eqn:E; try done.
        specialize (Hbad _ eq_refl).
        destruct (Hok _ eq_refl) as [? | ?]; congruence.
      + exfalso. unfold options' in Hok. cbn [birthday] in Hok.
        destruct (birthday options) as [[|c s]|] eqn:E; try done.
        specialize (Hbad _ eq_refl).
        destruct (Hok _ eq_refl) as [? | ?]; congruence. }
  unfold bind at 1. by rewrite Hrej.
Qed.

(** X17. An age that is not a number passes the test of the age (every
    comparison with [NaN] is false) and is caught only by [generateIdCard]:
    the birth date starts with the three letters of [NaN], and the call
    fails with the error of the birthday, not with the error of the age.
    Under the name of a member of [Object.prototype] that no region bears,
    the area code is this member and the call fails with the error of the
    area code, which is tested first. *)
Theorem nan_age_birthday_error (areaName : jsstring)
  (options : IdCardOptions) (w : World) :
  loaded province city area town (this w) ->
  forallb (test_digits 6) (table_codes province city area) = true ->
  areaName <> [] ->
  generatePersonInfoByAreaAndAge province city area town today areaName
    (Some NaN) options w
  = inl (if decide (areaName ∈ Object_prototype
                    /\ InsertionMap.get (areaCodeByName (this w)) areaName
                       = None)
         then Error_areaCode else Error_birthday).
Proof.
  intros L Hdata Hname.
  assert (forall code, code ∈ table_codes province city area ->
                       test_digits 6 code = true) as Hdata'.
  { intros code Hin. rewrite forallb_forall in Hdata.
    by apply Hdata, list_elem_of_In. }
  pose proof L as (Hinit & _ & _ & _ & Hfz).
  unfold generatePersonInfoByAreaAndAge.
  rewrite (bind_run _ _ _ _ _ (ensureInitialized_done _ _ _ _ w Hinit)).
  assert (throw_if (falsy areaName) Error_areaName w = inr (tt, w)) as H1.
  { by destruct areaName. }
  rewrite (bind_run _ _ _ _ _ H1).
  assert (throw_if (num_lt NaN (Num 0) || num_lt (Num 120) NaN)
                   Error_age w = inr (tt, w)) as H2 by reflexivity.
  rewrite (bind_run _ _ _ _ _ H2).
  destruct (getAreaCodeByName_run province city area town areaName w
              Hinit Hfz) as (w1 & Hfound & Hinit1 & _).
  rewrite (bind_run _ _ _ _ _ Hfound).
  case_decide as Hcase.
  { destruct Hcase as [Hin Hget].
    rewrite (resolve_inherited _ _ Hin Hget).
    by apply by_area_inherited. }
  rewrite by_area_from_code.
  2:{ intros key E. apply resolve_inherited_inv in E as (_ & Hin & Hget).
      by apply Hcase. }
  set (start := requested_code
                  (SpecResolve.resolve (areaCodeByName (this w)) areaName)).
  assert (test_digits 6 start = true) as Hstart.
  { unfold start, requested_code.
    destruct (SpecResolve.resolve _ _) as [[[|c s] | key]|] eqn:E;
      [done| |done|done].
    destruct (resolve_known _ _ _ _ _ _ _ L E) as [Hin | (n & Hn)].
    - by apply Hdata'.
    - by eapply commonCities_digits. }
  destruct (resolveDistrictCode_total area start w1)
    as (code & w2 & Hres & _).
  rewrite (bind_run _ _ _ _ _ Hres).
  destruct (resolveDistrictCode_this area start w1 code w2 Hres)
    as [E2 Hcode].
  assert (test_digits 6 code = true) as Hsix.
  { destruct Hcode as [-> | (x & Hin & <-)]; [done|].
    apply Hdata'. unfold table_codes. rewrite !elem_of_app. right. right.
    apply list_elem_of_fmap. by exists x. }
  assert (exists rest w3,
            _getBirthdayFromAge today NaN w2 = inr (lit "NaN" ++ rest, w3)
            /\ this w3 = this w2) as (rest & w3 & Hb & E3).
  { unfold _getBirthdayFromAge, bind, Math_random, ret. by eexists _, _. }
  rewrite (bind_run _ _ _ _ _ Hb).
  apply generatePersonInfo_birthday_error.
  - by rewrite E3, E2.
  - intros s [= <-]. by right.
  - reflexivity.
  - intros s [= <-]. unfold test_digits. cbn. apply andb_false_r.
Qed.

End NotANumber.

Lemma nan_age_birthday_error_witness :
  generatePersonInfoByAreaAndAge
    Sample.province Sample.city Sample.area Sample.town Sample.today
    [27494; 27721]%N (Some NaN)
    {| areaCode := None; birthday := None; gender := None |} Sample.world
  = inl Error_birthday.
Proof.
  apply (nan_age_birthday_error
           Sample.province Sample.city Sample.area Sample.town Sample.today
           [27494; 27721]%N
           {| areaCode := None; birthday := None; gender := None |}
           Sample.world).
  - exact sample_world_loaded.
  - vm_compute. reflexivity.
  - discriminate.
Defined.

(** ** The buckets of the fuzzy index *)






(** ** The address of an area *)


Section AddressTheorems.

Variable province : list ProvinceItem.
Variable city : list CityItem.
Variable area : list AreaItem.
Variable town : list TownItem.


End AddressTheorems.


(** ** Batches *)

Lemma bind_ret_r {A} (m : M A) (w : World) : bind m ret w = m w.
Proof. unfold bind, ret. by destruct (m w) as [e | [a w1]]. Qed.

Lemma bind_assoc {A B C} (m : M A) (k : A -> M B) (h : B -> M C)
  (w : World) :
  bind (bind m k) h w = bind m (fun a => bind (k a) h) w.
Proof. unfold bind. by destruct (m w) as [e | [a w1]]. Qed.

Lemma bind_ext {A B} (m : M A) (k1 k2 : A -> M B) (w : World) :
  (forall a w1, m w = inr (a, w1) -> k1 a w1 = k2 a w1) ->
  bind m k1 w = bind m k2 w.
Proof.
  intros H. unfold bind. destruct (m w) as [e | [a w1]]; [done|].
  by apply H.
Qed.

(** The birth information read in [options.birthday] is the one read in an
    identity number that holds the birthday after six characters. *)
Lemma batch_birth_info_extract (today : Date) (code bday rest : jsstring) :
  length code = 6%nat -> length bday = 8%nat ->
  _extractInfoFromIdCard today (code ++ bday ++ rest)
  = batch_birth_info today bday.
Proof.
  intros Lc Lb.
  assert (forall a b, (a <= b)%nat -> (b <= 8)%nat ->
                      substring (code ++ bday ++ rest) (6 + a) (6 + b)
                      = substring bday a b) as Hsub.
  { intros a b Hab Hb.
    rewrite !substring_take_drop by (rewrite ?length_app; lia).
    rewrite <- drop_drop, drop_app_length' by done.
    replace (6 + b - (6 + a))%nat with (b - a)%nat by lia.
    rewrite drop_app_le by lia.
    rewrite take_app_le by (rewrite length_drop; lia). done. }
  unfold _extractInfoFromIdCard, batch_birth_info.
  assert (substring (code ++ bday ++ rest) 6 10 = substring bday 0 4) as ->
    by (apply (Hsub 0%nat 4%nat); lia).
  assert (substring (code ++ bday ++ rest) 10 12 = substring bday 4 6) as ->
    by (apply (Hsub 4%nat 6%nat); lia).
  assert (substring (code ++ bday ++ rest) 12 14 = substring bday 6 8) as ->
    by (apply (Hsub 6%nat 8%nat); lia).
  reflexivity.
Qed.

Section BatchLemmas.

Variable province : list ProvinceItem.
Variable city : list CityItem.
Variable area : list AreaItem.
Variable town : list TownItem.
Variable today : Date.
Variable personal_texts : number -> M unit.
Variable address_text : jsstring -> M unit.

(** The text generators return and leave the generator object alone. *)
Hypothesis personal_texts_run :
  forall g w, exists w', personal_texts g w = inr (tt, w')
                         /\ this w' = this w.
Hypothesis address_text_run :
  forall c w, exists w', address_text c w = inr (tt, w')
                         /\ this w' = this w.

Local Abbreviation one_person :=
  (batch_person province city area town today personal_texts address_text).
Local Abbreviation loop :=
  (batch_loop province city area town today personal_texts address_text).
Local Abbreviation internal :=
  (_generateBatchInternal province city area town today personal_texts
     address_text).
Local Abbreviation from_batch :=
  (batches_from province city area town today personal_texts address_text).
Local Abbreviation batch :=
  (generateBatch province city area town today personal_texts address_text).
Local Abbreviation prepare :=
  (_prepareBatchGeneration province city area town).

Lemma area_info_caches (g g' : Generator) (options : IdCardOptions) :
  caches_only area g g' -> area_info g' options = area_info g options.
Proof. by intros (c & f & -> & _). Qed.

Lemma batch_loop_app (a b : nat) (ai : option jsstring)
  (bi : option BirthInfo) (options : IdCardOptions) (w : World) :
  loop (a + b) ai bi options w
  = (l1 <- loop a ai bi options ;;
     l2 <- loop b ai bi options ;;
     ret (l1 ++ l2)) w.
Proof.
  revert w. induction a as [|a IH]; intros w.
  - cbn [Nat.add batch_loop]. unfold bind at 1, ret at 1.
    cbn [app]. by rewrite bind_ret_r.
  - cbn [Nat.add batch_loop]. rewrite bind_assoc.
    apply bind_ext. intros p w1 _.
    rewrite bind_assoc. unfold bind at 1. rewrite IH.
    unfold bind, ret.
    destruct (loop a ai bi options w1) as [e | [l1 w2]]; [done|].
    by destruct (loop b ai bi options w2) as [e | [l2 w3]].
Qed.

Lemma generateBatchInternal_run (count : Z) (options : IdCardOptions)
  (w : World) :
  initialized (this w) = true ->
  internal count options w
  = loop (Z.to_nat count) (area_info (this w) options)
               (birth_info today options) options w.
Proof.
  intros Hinit. unfold _generateBatchInternal, area_info.
  destruct (areaCode options) as [[|c s]|]; try reflexivity.
  unfold _getAreaNameByCode.
  rewrite bind_assoc, bind_assoc.
  rewrite (bind_run _ _ _ _ _ (ensureInitialized_done _ _ _ _ w Hinit)).
  unfold bind at 1 2 3, self, ret.
  by destruct (nameByAreaCode (this w) !! (c :: s)) as [[|? ?]|].
Qed.

Lemma batch_person_caches (ai : option jsstring) (bi : option BirthInfo)
  (options : IdCardOptions) (w : World) (p : PersonInfo) (w' : World) :
  initialized (this w) = true ->
  one_person ai bi options w = inr (p, w') ->
  caches_only area (this w) (this w').
Proof.
  intros Hinit H. unfold batch_person in H.
  apply bind_inr in H as (g & w1 & H1 & H).
  assert (this w1 = this w) as E1.
  { destruct (gender options); by inversion H1. }
  apply bind_inr in H as (n & w2 & H2 & H).
  apply generateIdCard_caches in H2; [|by rewrite E1].
  rewrite E1 in H2. cbv zeta in H.
  apply bind_inr in H as ([] & w3 & H3 & H).
  destruct (personal_texts_run g w2) as (w3' & R3 & E3).
  rewrite R3 in H3. injection H3 as <-.
  apply bind_inr in H as (name & w4 & H4 & H).
  assert (w4 = w3') as ->.
  { destruct ai; [by inversion H4|].
    apply bind_inr in H4 as (found & w5 & H5 & H4).
    apply getAreaNameByCode_this in H5 as ->;
      [by inversion H4|].
    by rewrite E3, (caches_only_initialized _ _ _ H2). }
  apply bind_inr in H as ([] & w5 & H5 & H).
  destruct (address_text_run (substring n 0 6) w3') as (w5' & R5 & E5).
  rewrite R5 in H5. injection H5 as <-.
  inversion H; subst. by rewrite E5, E3.
Qed.

Lemma batch_loop_caches (n : nat) (ai : option jsstring)
  (bi : option BirthInfo) (options : IdCardOptions) (w : World)
  (l : list PersonInfo) (w' : World) :
  initialized (this w) = true ->
  loop n ai bi options w = inr (l, w') ->
  caches_only area (this w) (this w') /\ length l = n.
Proof.
  revert w l w'. induction n as [|n IH]; intros w l w' Hinit H.
  - inversion H; subst. split; [apply caches_only_refl | done].
  - cbn [batch_loop] in H.
    apply bind_inr in H as (p & w1 & H1 & H).
    apply batch_person_caches in H1; [|done].
    apply bind_inr in H as (l1 & w2 & H2 & H).
    apply IH in H2 as [C2 L2];
      [|by rewrite (caches_only_initialized _ _ _ H1)].
    inversion H; subst. split; [|done].
    eapply caches_only_trans; [exact H1 | exact C2].
Qed.

Lemma prepareBatchGeneration_run (w : World) :
  initialized (this w) = true ->
  exists w', prepare w = inr (tt, w')
             /\ caches_only area (this w) (this w').
Proof.
  intros Hinit. unfold _prepareBatchGeneration.
  unfold bind at 1, self at 1.
  assert (exists w1,
            (if randomAreaCodes (this w) is None
             then _getRandomAreaCode province city area town ;;; ret tt
             else ret tt) w = inr (tt, w1)
            /\ caches_only area (this w) (this w1)) as (w1 & H1 & C1).
  { destruct (randomAreaCodes (this w)) as [codes|] eqn:E.
    - exists w. split; [done | apply caches_only_refl].
    - assert (cache_coherent area (this w)) as Hc by (by left).
      destruct (getRandomAreaCode_run province city area town w Hinit Hc)
        as (w1 & Hrun & _).
      exists w1. split; [by rewrite (bind_run _ _ _ _ _ Hrun)|].
      apply getRandomAreaCode_this in Hrun as [-> | [_ ->]]; [| |done].
      + apply caches_only_refl.
      + exists (Some (district_pool area)), (fuzzyAreaNameMap (this w)).
        split; [by destruct (this w) | auto]. }
  rewrite (bind_run _ _ _ _ _ H1). unfold bind at 1, self at 1.
  destruct (precomputeFuzzyMatch (this w1)); cbn [andb];
    [|by exists w1].
  destruct (fuzzyAreaNameMap (this w1)) eqn:E; [by exists w1|].
  eexists. split; [reflexivity|]. cbn [this].
  eapply caches_only_trans; [exact C1|].
  exists (randomAreaCodes (this w1)),
         (Some (build_fuzzy (areaCodeByName (this w1)))).
  split; [by destruct (this w1) | auto].
Qed.

(** The batches that are still to do generate what one loop over the
    persons that are still to generate does. *)
Lemma batches_from_run (m k : nat) (batches batchSize count : Z)
  (options : IdCardOptions) (acc : list PersonInfo) (w : World) :
  initialized (this w) = true ->
  batches = Z.of_nat (k + m) ->
  0 <= batchSize ->
  (batches - 1) * batchSize <= count <= batches * batchSize ->
  from_batch (Z.of_nat <$> seq k m) batches batchSize count options acc w
  = (l <- loop (Z.to_nat (count - Z.of_nat k * batchSize))
            (area_info (this w) options) (birth_info today options)
            options ;;
     ret (acc ++ l)) w.
Proof.
  revert k acc w. induction m as [|m IH]; intros k acc w Hinit Hb Hs Hc.
  - cbn [seq fmap list_fmap batches_from].
    replace (Z.to_nat (count - Z.of_nat k * batchSize)) with 0%nat by lia.
    cbn [batch_loop]. unfold bind, ret. by rewrite app_nil_r.
  - cbn [seq fmap list_fmap batches_from].
    set (cur := if Z.of_nat k =? batches - 1
                then count - Z.of_nat k * batchSize else batchSize).
    assert (0 <= cur
            /\ Z.to_nat (count - Z.of_nat k * batchSize)
               = (Z.to_nat cur
                  + Z.to_nat (count - Z.of_nat (S k) * batchSize))%nat)
      as [Hcur Hsplit].
    { unfold cur. destruct (Z.eqb_spec (Z.of_nat k) (batches - 1)) as [E | E].
      - split; [nia|].
        replace (Z.to_nat (count - Z.of_nat (S k) * batchSize)) with 0%nat
          by nia. lia.
      - assert (Z.of_nat (S k) <= batches - 1) by lia.
        split; [done|]. rewrite <- Z2Nat.inj_add by nia. f_equal. lia. }
    rewrite Hsplit. unfold bind at 1.
    rewrite generateBatchInternal_run by done.
    unfold bind at 1. rewrite batch_loop_app. unfold bind at 1.
    destruct (loop (Z.to_nat cur) _ _ options w) as [e | [l1 w1]] eqn:E1;
      [done|].
    apply batch_loop_caches in E1 as [C1 _]; [|done].
    rewrite (IH (S k)); [|by rewrite (caches_only_initialized _ _ _ C1)
                         |lia|done|done].
    rewrite (area_info_caches _ _ _ C1).
    unfold bind.
    destruct (loop _ _ _ options w1) as [e | [l2 w2]]; [done|].
    unfold ret. by rewrite app_assoc.
Qed.

(** [batch] with a positive count: the batches do not show. *)
Lemma generateBatch_run (count : Z) (options : IdCardOptions) (w : World) :
  initialized (this w) = true ->
  0 < count ->
  batch (Num count) options w
  = raise_from ((prepare ;;;
                 internal count options) w).
Proof.
  intros Hinit Hcount. unfold generateBatch.
  rewrite (ensureInitialized_done _ _ _ _ w Hinit).
  destruct (Z.leb_spec count 0); [lia|]. f_equal.
  apply bind_ext. intros [] w1 H1. cbv zeta.
  destruct (prepareBatchGeneration_run w Hinit) as (w1' & R1 & C1).
  rewrite R1 in H1. injection H1 as <-.
  assert (initialized (this w1') = true) as Hinit1
    by (by rewrite (caches_only_initialized _ _ _ C1)).
  set (batchSize := Z.min count 1000).
  set (batches := (count + batchSize - 1) / batchSize).
  assert (1 <= batchSize) as Hbs by (unfold batchSize; lia).
  assert ((batches - 1) * batchSize <= count <= batches * batchSize
          /\ 0 <= batches) as [Hc Hb].
  { unfold batches. clearbody batchSize.
    Z.div_mod_to_equations. nia. }
  rewrite (batches_from_run (Z.to_nat batches) 0 batches batchSize count
             options [] w1' Hinit1); [|lia|lia|done].
  rewrite generateBatchInternal_run by done.
  cbn [Z.of_nat Z.mul app]. rewrite Z.sub_0_r.
  apply bind_ret_r.
Qed.

(** One person of a batch is the person that [generatePersonInfo] returns
    in the same state: reading the birth date and the area name from the
    options, before the loop, changes nothing. *)
Lemma batch_person_agrees (options : IdCardOptions) (w : World) :
  loaded province city area town (this w) ->
  accepted options ->
  supplied (areaCode options) = true
  \/ (district_pool area <> []
      /\ forallb (test_digits 6) (district_pool area) = true) ->
  exists p w1 w2,
    generatePersonInfo province city area town today options w = inr (p, w1)
    /\ one_person (area_info (this w) options) (birth_info today options)
                  options w = inr (p, w2)
    /\ caches_only area (this w) (this w2).
Proof.
  intros L Hacc Hpool. pose proof L as (Hinit & (_ & _ & Hlast) & _ & Hcc & _).
  unfold generatePersonInfo, batch_person.
  rewrite (bind_run _ _ _ _ _ (ensureInitialized_done _ _ _ _ w Hinit)).
  assert (exists g w1,
            match gender options with
            | Some x => ret x
            | None => r <- Math_random ;; ret (Num (round r))
            end w = inr (Num g, w1)
            /\ (g = 0 \/ g = 1) /\ this w1 = this w)
    as (g & w1 & Hg & Hg01 & Hthis).
  { destruct Hacc as (_ & _ & Hgen).
    destruct (gender options) as [x|] eqn:E.
    - destruct (Hgen x eq_refl) as [-> | ->]; [exists 0 | exists 1];
        exists w; (split; [reflexivity|]); (split; [lia | done]).
    - exists (round (entropy w 0%nat)). eexists.
      split; [reflexivity|]. split; [apply round_bit | done]. }
  rewrite !(bind_run _ _ _ _ _ Hg).
  set (options' := {| areaCode := areaCode options;
                      birthday := birthday options;
                      gender := Some (Num g) |}).
  assert (accepted options') as Hacc'.
  { destruct Hacc as (Ha & Hb & _). split; [exact Ha|]. split; [exact Hb|].
    intros x [= <-]. destruct Hg01 as [-> | ->]; auto. }
  assert (initialized (this w1) = true) as Hinit1 by (by rewrite Hthis).
  destruct (generateIdCard_fields province city area town options' w1
              Hinit1 Hacc')
    as (code & bday & num & g' & c & w2 & Hrun & Hcode & Hbday & _ & _
        & _ & _ & Hsa & _ & Hsb & _).
  { destruct Hpool as [? | [? ?]]; [by left|]. right.
    rewrite Hthis. done. }
  rewrite !(bind_run _ _ _ _ _ Hrun).
  pose proof (generateIdCard_caches province city area town options' w1 _ w2
                Hinit1 Hrun) as C2.
  rewrite Hthis in C2.
  pose proof (caches_only_loaded _ _ _ _ _ _ C2 L) as L2.
  cbv zeta.
  pose proof Hcode as [Lc _]%test_digits_spec.
  pose proof Hbday as [Lb _]%test_digits_spec.
  rewrite !(substring_app_first code _ 6 Lc).
  rewrite (bind_run _ _ _ _ _ (getAreaNameByCode_run _ _ _ _ code w2 L2)).
  destruct (personal_texts_run (Num g) w2) as (w3 & R3 & E3).
  rewrite (bind_run _ _ _ _ _ R3).
  assert (loaded province city area town (this w3)) as L3
    by (by rewrite E3).
  assert (match area_info (this w) options with
          | Some name => ret name
          | None =>
              found <- _getAreaNameByCode province city area town code ;;
              ret (match found with
                   | Some n => n
                   | None => unknown_area
                   end)
          end w3
          = inr (match match table_name province city area code with
                       | Some (c :: s) => Some (c :: s)
                       | _ => None
                       end with
                 | Some n => n
                 | None => unknown_area
                 end, w3)) as Hname.
  { unfold area_info.
    destruct (areaCode options) as [[|c0 s0]|] eqn:Eo;
      try (by rewrite (bind_run _ _ _ _ _
                         (getAreaNameByCode_run _ _ _ _ code w3 L3))).
    unfold options' in Hsa. cbn [areaCode supplied] in Hsa.
    rewrite ?Eo in Hsa. specialize (Hsa eq_refl). injection Hsa as <-.
    rewrite Hlast, last_name_tables. unfold ret.
    by destruct (table_name province city area (c0 :: s0)) as [[|? ?]|]. }
  rewrite (bind_run _ _ _ _ _ Hname).
  destruct (address_text_run code w3) as (w4 & R4 & E4).
  rewrite (bind_run _ _ _ _ _ R4).
  assert (match birth_info today options with
          | Some info => info
          | None => _extractInfoFromIdCard today
                      (code ++ bday ++ Spec.decimal 3 num ++ [c])
          end
          = _extractInfoFromIdCard today
              (code ++ bday ++ Spec.decimal 3 num ++ [c])) as ->.
  { unfold birth_info.
    destruct (birthday options) as [[|c0 s0]|] eqn:Eo; try reflexivity.
    unfold options' in Hsb. cbn [birthday supplied] in Hsb.
    rewrite ?Eo in Hsb. specialize (Hsb eq_refl). injection Hsb as <-.
    symmetry. by apply batch_birth_info_extract. }
  eexists _, w2, w4. split; [reflexivity|]. split; [reflexivity|].
  by rewrite E4, E3.
Qed.

(** A loop of [_generateBatchInternal] on a loaded generator. *)
Lemma batch_loop_run (n : nat) (ai : option jsstring)
  (options : IdCardOptions) (w : World) :
  loaded province city area town (this w) ->
  ai = area_info (this w) options ->
  accepted options ->
  supplied (areaCode options) = true
  \/ (district_pool area <> []
      /\ forallb (test_digits 6) (district_pool area) = true) ->
  exists persons w',
    loop n ai (birth_info today options) options w = inr (persons, w')
    /\ length persons = n
    /\ caches_only area (this w) (this w')
    /\ Forall (fun p =>
                 exists w0 w1,
                   loaded province city area town (this w0)
                   /\ generatePersonInfo province city area town today
                        options w0 = inr (p, w1)) persons.
Proof.
  intros L Hai Hacc Hpool. revert w L Hai.
  induction n as [|n IH]; intros w L Hai.
  - exists [], w. split; [reflexivity|]. split; [reflexivity|].
    split; [apply caches_only_refl | constructor].
  - destruct (batch_person_agrees options w L Hacc Hpool)
      as (p & w1 & w2 & Hp & Hb & C2).
    rewrite <- Hai in Hb.
    pose proof (caches_only_loaded _ _ _ _ _ _ C2 L) as L2.
    destruct (IH w2 L2) as (persons & w' & Hrun & Hlen & C3 & Hall).
    { by rewrite (area_info_caches _ _ _ C2). }
    exists (p :: persons), w'. cbn [batch_loop].
    rewrite (bind_run _ _ _ _ _ Hb), (bind_run _ _ _ _ _ Hrun).
    split; [reflexivity|]. split; [by rewrite <- Hlen|].
    split; [eapply caches_only_trans; [exact C2 | exact C3]|].
    constructor; [|exact Hall]. by exists w, w1.
Qed.

(** X20. The count of [generateBatch] is checked once the tables are
    loaded, and before anything is generated: the call fails with the
    error of the count exactly when the count is [NaN], zero or negative
    (a count is an integer or [NaN] here). *)
Theorem batch_count_checked (count : number) (options : IdCardOptions)
  (w : World) :
  initialized (this w) = true ->
  generateBatch province city area town today personal_texts
    address_text count options w = inl Error_count
  <-> count = NaN \/ exists z, count = Num z /\ z <= 0.
Proof.
  intros Hinit. unfold generateBatch.
  rewrite (ensureInitialized_done _ _ _ _ w Hinit).
  destruct count as [z|]; [|split; auto].
  destruct (Z.leb_spec z 0).
  - split; [|done]. intros _. right. by exists z.
  - split.
    + unfold raise_from. by destruct (bind _ _ w).
    + intros [? | (z0 & [= <-] & ?)]; [done | lia].
Qed.

(** X21. The batches of [generateBatch] do not show in its result. For a
    positive count the call does what one single loop over [count] persons
    does after [_prepareBatchGeneration], with the area name and the birth
    information read once from the options, whatever the count is (up to
    1000 persons are one batch, more are batches of 1000 and a rest), and
    it fails where this loop fails. *)
Theorem batches_do_not_show (count : Z) (options : IdCardOptions)
  (w : World) :
  initialized (this w) = true ->
  0 < count ->
  generateBatch province city area town today personal_texts
    address_text (Num count) options w
  = raise_from
      ((_prepareBatchGeneration province city area town ;;;
        g <- self ;;
        batch_loop province city area town today personal_texts
          address_text (Z.to_nat count) (area_info g options)
          (birth_info today options) options) w).
Proof.
  intros Hinit Hcount. rewrite generateBatch_run by done. f_equal.
  apply bind_ext. intros [] w1 H1.
  destruct (prepareBatchGeneration_run w Hinit) as (w1' & R1 & C1).
  rewrite R1 in H1. injection H1 as <-.
  rewrite generateBatchInternal_run
    by (by rewrite (caches_only_initialized _ _ _ C1)).
  reflexivity.
Qed.

(** X22. A batch on a loaded generator, for options that pass the
    validation: [generateBatch] returns [count] persons, each of them a
    person that [generatePersonInfo] returns for the same options in some
    loaded state of the generator, and leaves the generator loaded. *)
Theorem batch_of_persons (count : Z) (options : IdCardOptions) (w : World) :
  loaded province city area town (this w) ->
  accepted options ->
  supplied (areaCode options) = true
  \/ (district_pool area <> []
      /\ forallb (test_digits 6) (district_pool area) = true) ->
  0 < count ->
  exists persons w',
    generateBatch province city area town today personal_texts
      address_text (Num count) options w = inr (persons, w')
    /\ Z.of_nat (length persons) = count
    /\ loaded province city area town (this w')
    /\ Forall (fun p =>
                 exists w0 w1,
                   loaded province city area town (this w0)
                   /\ generatePersonInfo province city area town today
                        options w0 = inr (p, w1)) persons.
Proof.
  intros L Hacc Hpool Hcount. pose proof L as (Hinit & _).
  rewrite generateBatch_run by done.
  destruct (prepareBatchGeneration_run w Hinit) as (w1 & R1 & C1).
  rewrite (bind_run _ _ _ _ _ R1).
  pose proof (caches_only_loaded _ _ _ _ _ _ C1 L) as L1.
  pose proof L1 as (Hinit1 & _).
  rewrite generateBatchInternal_run by done.
  destruct (batch_loop_run (Z.to_nat count) _ options w1 L1 eq_refl
              Hacc Hpool) as (persons & w' & Hrun & Hlen & C2 & Hall).
  exists persons, w'. rewrite Hrun. split; [reflexivity|].
  split; [lia|]. split; [|exact Hall].
  by eapply caches_only_loaded.
Qed.

End BatchLemmas.

Lemma batch_count_checked_witness :
  generateBatch Sample.province Sample.city Sample.area Sample.town
    Sample.today (fun _ => r <- Math_random ;; ret tt) (fun _ => ret tt)
    (Num 0) {| areaCode := None; birthday := None; gender := None |}
    Sample.world
  = inl Error_count.
Proof.
  apply batch_count_checked.
  - vm_compute. reflexivity.
  - right. exists 0. split; [reflexivity | lia].
Defined.

Lemma batches_do_not_show_witness :
  generateBatch Sample.province Sample.city Sample.area Sample.town
    Sample.today (fun _ => r <- Math_random ;; ret tt) (fun _ => ret tt)
    (Num 2500) {| areaCode := None; birthday := None; gender := None |}
    Sample.world
  = raise_from
      ((_prepareBatchGeneration Sample.province Sample.city Sample.area
          Sample.town ;;;
        g <- self ;;
        batch_loop Sample.province Sample.city Sample.area Sample.town
          Sample.today (fun _ => r <- Math_random ;; ret tt)
          (fun _ => ret tt) (Z.to_nat 2500)
          (area_info g {| areaCode := None; birthday := None;
                          gender := None |})
          (birth_info Sample.today
             {| areaCode := None; birthday := None; gender := None |})
          {| areaCode := None; birthday := None; gender := None |})
         Sample.world).
Proof.
  apply batches_do_not_show.
  - intros g w. eexists. split; reflexivity.
  - intros c w. eexists. split; reflexivity.
  - vm_compute. reflexivity.
  - lia.
Defined.

Lemma batch_of_persons_witness :
  exists persons w',
    generateBatch Sample.province Sample.city Sample.area Sample.town
      Sample.today (fun _ => r <- Math_random ;; ret tt) (fun _ => ret tt)
      (Num 1001) {| areaCode := None; birthday := None; gender := None |}
      Sample.world
    = inr (persons, w')
    /\ Z.of_nat (length persons) = 1001.
Proof.
  destruct (batch_of_persons
              Sample.province Sample.city Sample.area Sample.town
              Sample.today (fun _ => r <- Math_random ;; ret tt)
              (fun _ => ret tt)
              ltac:(intros g w; eexists; split; reflexivity)
              ltac:(intros c w; eexists; split; reflexivity)
              1001 {| areaCode := None; birthday := None; gender := None |}
              Sample.world sample_world_loaded)
    as (persons & w' & Hrun & Hlen & _).
  - repeat split; intros ? [=].
  - right. split; [vm_compute; discriminate | vm_compute; reflexivity].
  - lia.
  - exists persons, w'. split; [exact Hrun | exact Hlen].
Defined.

(** ** The pinyin of a name and the e-mail address *)

Lemma PINYIN_MAP_syllables (c : N) (v : jsstring) :
  PINYIN_MAP !! c = Some v -> is_syllable v = true.
Proof.
  assert (forall entries (m : gmap N jsstring),
            forallb (fun e : N * jsstring => is_syllable (snd e)) entries
            = true ->
            map_Forall (fun _ v => is_syllable v = true) m ->
            map_Forall (fun _ v => is_syllable v = true)
              (foldl (fun m entry => <[fst entry := snd entry]> m) m entries))
    as Hgen.
  { induction entries as [|e es IH]; intros m Hes Hm; [done|].
    cbn [forallb] in Hes. apply andb_prop in Hes as [He Hes].
    cbn [foldl]. apply IH; [done|]. by apply map_Forall_insert_2. }
  apply (Hgen PINYIN_ENTRIES ∅).
  - vm_compute. reflexivity.
  - apply map_Forall_empty.
Qed.

Lemma unit_pinyin_syllable (b : bool) (c : N) :
  is_chinese c = true -> is_syllable (unit_pinyin b c) = true.
Proof.
  intros Hc. unfold unit_pinyin. rewrite Hc. cbv zeta.
  assert (is_syllable match PINYIN_MAP !! c with
                      | Some (p :: ps) => p :: ps
                      | _ => lit "x"
                      end = true) as Hs.
  { destruct (PINYIN_MAP !! c) as [[|p ps]|] eqn:E; try reflexivity.
    by apply PINYIN_MAP_syllables in E. }
  destruct b; [|done].
  destruct (match PINYIN_MAP !! c with
            | Some (p :: ps) => p :: ps
            | _ => lit "x"
            end) as [|p ps]; [done|].
  unfold is_syllable in *. cbn in *.
  apply andb_prop in Hs as [-> _]. reflexivity.
Qed.

Lemma toPinyin_units (s : jsstring) (b : bool) :
  toPinyin s b = s ≫= unit_pinyin b.
Proof.
  unfold toPinyin.
  set (f := fun (result : jsstring) (char : N) =>
              if is_chinese char then
                let pinyin :=
                  match PINYIN_MAP !! char with
                  | Some (p :: ps) => p :: ps
                  | _ => lit "x"
                  end in
                result ++ (if b then charAt pinyin 0 else pinyin)
              else result ++ [char]).
  assert (forall result char, f result char = result ++ unit_pinyin b char)
    as Hf.
  { intros result char. unfold f, unit_pinyin.
    by destruct (is_chinese char). }
  assert (forall acc, foldl f acc s = acc ++ (s ≫= unit_pinyin b)) as H.
  { induction s as [|c s IH]; intros acc; cbn [foldl mbind list_bind].
    - by rewrite app_nil_r.
    - by rewrite IH, Hf, <- app_assoc. }
  apply (H []).
Qed.

Lemma syllable_lower (s : jsstring) :
  is_syllable s = true ->
  s <> [] /\ forallb is_lower_letter s = true
  /\ forallb (fun c => c <? 128)%N s = true
  /\ (fun c => if (65 <=? c) && (c <=? 90) then c + 32 else c)%N <$> s = s.
Proof.
  unfold is_syllable. intros [Hne Hl]%andb_prop.
  split; [by destruct s|]. split; [done|].
  induction s as [|c s IH]; [done|].
  cbn [forallb] in Hl. apply andb_prop in Hl as [Hc Hl].
  assert (s = [] \/ negb (falsy s) = true) as [-> | Hs]
    by (destruct s; auto).
  - unfold is_lower_letter in Hc. apply andb_prop in Hc as [H1 H2].
    apply N.leb_le in H1, H2. cbn.
    assert ((c <? 128)%N = true) as -> by (apply N.ltb_lt; lia).
    assert ((c <=? 90)%N = false) as -> by (apply N.leb_gt; lia).
    by rewrite andb_false_r.
  - destruct (IH Hs Hl) as [I1 I2].
    unfold is_lower_letter in Hc. apply andb_prop in Hc as [H1 H2].
    apply N.leb_le in H1, H2. cbn [forallb fmap list_fmap].
    assert ((c <? 128)%N = true) as -> by (apply N.ltb_lt; lia).
    assert ((c <=? 90)%N = false) as -> by (apply N.leb_gt; lia).
    rewrite andb_false_r. cbn [andb]. split; [done|].
    f_equal. exact I2.
Qed.

(** The pinyin of a string of Chinese characters. *)
Lemma chinese_pinyin (s : jsstring) :
  forallb is_chinese s = true ->
  let p := toPinyin s false in
  toLowerCase p = Some p
  /\ forallb is_lower_letter p = true
  /\ (length s <= length p)%nat.
Proof.
  intros Hs. cbv zeta. rewrite toPinyin_units. unfold toLowerCase.
  assert (forallb is_lower_letter (s ≫= unit_pinyin false) = true
          /\ forallb (fun c => c <? 128)%N (s ≫= unit_pinyin false) = true
          /\ (fun c => if (65 <=? c) && (c <=? 90) then c + 32 else c)%N
               <$> (s ≫= unit_pinyin false)
             = s ≫= unit_pinyin false
          /\ (length s <= length (s ≫= unit_pinyin false))%nat)
    as (H1 & H2 & H3 & H4).
  { induction s as [|c s IH]; [done|].
    cbn [forallb] in Hs. apply andb_prop in Hs as [Hc Hs].
    cbn [mbind list_bind].
    destruct (syllable_lower _ (unit_pinyin_syllable false c Hc))
      as (Hne & Hl & Ha & Hm).
    destruct (IH Hs) as (I1 & I2 & I3 & I4).
    rewrite !forallb_app, fmap_app, length_app, Hl, Ha, Hm, I1, I2, I3.
    split; [done|]. split; [done|]. split; [done|].
    cbn [length]. destruct (unit_pinyin false c); [done|].
    cbn [length]. lia. }
  by rewrite H2, H3.
Qed.

(** [nameToEmailPrefix] in full. *)
Lemma email_prefix_run (name : jsstring) :
  exists p,
    nameToEmailPrefix name = Some p
    /\ forallb is_lower_letter p = true
    /\ (length (List.filter is_chinese name) <= length p)%nat
    /\ (p = [] <-> List.filter is_chinese name = []).
Proof.
  unfold nameToEmailPrefix.
  destruct name as [|c0 name0] eqn:En; [by exists []|].
  cbn [falsy]. rewrite <- En. clear En.
  assert (forallb is_chinese (List.filter is_chinese name) = true) as Hall.
  { apply forallb_forall. intros c Hin. by apply filter_In in Hin as [_ ?]. }
  destruct (chinese_pinyin _ Hall) as (Hlow & Hl & Hlen). cbv zeta in *.
  exists (toPinyin (List.filter is_chinese name) false).
  split; [done|]. split; [done|]. split; [done|].
  split.
  - intros E. rewrite E in Hlen.
    destruct (List.filter is_chinese name); [done | cbn in Hlen; lia].
  - intros ->. reflexivity.
Qed.

(** X23. The prefix of the e-mail address: [nameToEmailPrefix] keeps the
    Chinese characters of the name only and writes each one in pinyin (its
    entry of the table, or x), so the prefix is made of the letters a to z,
    has at least one letter for each Chinese character, and is empty exactly
    when the name has no Chinese character. *)
Theorem email_prefix_letters (name : jsstring) :
  exists p,
    nameToEmailPrefix name = Some p
    /\ forallb is_lower_letter p = true
    /\ (length (List.filter is_chinese name) <= length p)%nat
    /\ (p = [] <-> List.filter is_chinese name = []).
Proof. apply email_prefix_run. Qed.

(** X24. The initials: with [firstLetterOnly] the result of [toPinyin]
    has one character for each character of its argument, a letter a to z
    in the place of a Chinese character and the character itself elsewhere;
    and [toPinyin] changes nothing in a string without Chinese
    character. *)
Theorem pinyin_initials (s : jsstring) :
  length (toPinyin s true) = length s
  /\ (forall i c, s !! i = Some c ->
        exists l, toPinyin s true !! i = Some l
                  /\ if is_chinese c then is_lower_letter l = true
                     else l = c)
  /\ (forall b, List.filter is_chinese s = [] -> toPinyin s b = s).
Proof.
  assert (forall c, exists l,
            unit_pinyin true c = [l]
            /\ if is_chinese c then is_lower_letter l = true else l = c)
    as Hunit.
  { intros c. destruct (is_chinese c) eqn:Hc.
    - pose proof (unit_pinyin_syllable false c Hc) as Hs.
      unfold unit_pinyin in *. rewrite Hc in *. cbv zeta in *.
      destruct (match PINYIN_MAP !! c with
                | Some (p :: ps) => p :: ps
                | _ => lit "x"
                end) as [|l ls]; [done|].
      exists l. split; [done|].
      unfold is_syllable in Hs. cbn in Hs. by apply andb_prop in Hs as [? _].
    - exists c. unfold unit_pinyin. by rewrite Hc. }
  split; [|split].
  - rewrite toPinyin_units. induction s as [|c s IH]; [done|].
    cbn [mbind list_bind]. destruct (Hunit c) as (l & -> & _).
    cbn [length app]. by rewrite IH.
  - rewrite toPinyin_units. induction s as [|c s IH]; intros i x Hi; [done|].
    cbn [mbind list_bind]. destruct (Hunit c) as (l & -> & Hl).
    destruct i as [|i]; cbn in Hi |- *.
    + injection Hi as <-. by exists l.
    + by apply IH.
  - intros b Hno. rewrite toPinyin_units.
    induction s as [|c s IH]; [done|].
    cbn [List.filter] in Hno. destruct (is_chinese c) eqn:Hc; [done|].
    cbn [mbind list_bind]. rewrite (IH Hno).
    unfold unit_pinyin. by rewrite Hc.
Qed.

Lemma String_small_digits (n : Z) :
  0 <= n <= 999 -> forallb is_digit (String_of (Num n)) = true.
Proof.
  intros Hn.
  apply (check_range_correct
           (fun n => forallb is_digit (String_of (Num n))) 0 1000);
    [vm_compute; reflexivity | lia].
Qed.

Section EmailTheorems.

Variable Mock_Random_word : M jsstring.

(** X25. The e-mail address of a name with a Chinese character: the
    pinyin prefix, a number from 0 to 999, the sign @ and one of the seven
    domains. [Mock.Random.word] is not called, two random numbers are
    drawn, and the address holds the sign @ once. *)
Theorem email_of_chinese_name (name : jsstring) (w : World) :
  List.filter is_chinese name <> [] ->
  exists p n d,
    _generateEmail Mock_Random_word name w
    = inr (Some (p ++ String_of (Num n) ++ lit "@" ++ d), consume 2 w)
    /\ nameToEmailPrefix name = Some p
    /\ p <> [] /\ forallb is_lower_letter p = true
    /\ 0 <= n <= 999
    /\ d ∈ EMAIL_DOMAINS
    /\ length (List.filter (fun c => bool_decide (c = 64%N))
                 (p ++ String_of (Num n) ++ lit "@" ++ d)) = 1%nat.
Proof.
  intros Hname.
  destruct (email_prefix_run name) as (p & Hp & Hl & _ & Hempty).
  assert (p <> []) as Hne by (intros E; by apply Hname, Hempty).
  unfold _generateEmail. rewrite Hp. cbv zeta.
  destruct p as [|c s] eqn:Ep; [done|]. rewrite <- Ep in *. clear Ep.
  unfold bind at 1, ret at 1.
  destruct (pool_index EMAIL_DOMAINS (entropy w 0%nat) ltac:(done))
    as (d & Hd & Hin).
  pose proof (floor_times_range (entropy w 1%nat) 1000 ltac:(lia)) as Hn.
  exists p, (floor_times (entropy w 1%nat) 1000), d.
  unfold bind, Math_random, ret. cbn [entropy this]. rewrite Hd.
  cbn [interpolate].
  split; [reflexivity|]. split; [done|]. split; [done|]. split; [done|].
  split; [lia|]. split; [done|].
  rewrite !List.filter_app, !length_app.
  assert (forall s, forallb (fun c => negb (bool_decide (c = 64%N))) s = true ->
                    List.filter (fun c => bool_decide (c = 64%N)) s = [])
    as Hnone.
  { clear. induction s as [|c s IH]; [done|]. cbn.
    intros [Hc Hs]%andb_prop. destruct (bool_decide (c = 64%N)); [done|].
    by apply IH. }
  assert (forall (P Q : N -> bool) s,
            (forall c, P c = true -> Q c = true) ->
            forallb P s = true -> forallb Q s = true) as Hmono.
  { clear. intros P Q s HPQ. induction s as [|c s IH]; [done|]. cbn.
    intros [Hc Hs]%andb_prop. by rewrite (HPQ c Hc), IH. }
  rewrite (Hnone p), (Hnone (String_of _)), (Hnone d); [reflexivity| | |].
  - apply list_elem_of_In in Hin. revert Hin.
    assert (forallb (fun d => forallb (fun c => negb (bool_decide (c = 64%N)))
                                      d) EMAIL_DOMAINS = true) as Hall
      by (vm_compute; reflexivity).
    rewrite forallb_forall in Hall. apply Hall.
  - apply (Hmono is_digit); [|apply String_small_digits; lia].
    intros x Hx. digit_cases Hx; reflexivity.
  - apply (Hmono is_lower_letter); [|done].
    intros x Hc. unfold is_lower_letter in Hc.
    apply andb_prop in Hc as [H1 H2]. apply N.leb_le in H1, H2.
    apply negb_true_iff, bool_decide_eq_false. lia.
Qed.

End EmailTheorems.

Lemma email_of_chinese_name_witness :
  exists p n d,
    _generateEmail (ret []) [24352; 19977]%N Sample.world
    = inr (Some (p ++ String_of (Num n) ++ lit "@" ++ d),
           consume 2 Sample.world)
    /\ d ∈ EMAIL_DOMAINS.
Proof.
  destruct (email_of_chinese_name (ret []) [24352; 19977]%N Sample.world)
    as (p & n & d & Hrun & _ & _ & _ & _ & Hd & _).
  - vm_compute. discriminate.
  - exists p, n, d. split; [exact Hrun | exact Hd].
Defined.

(** 张三 on the sample draws. *)
Example email_of_zhang_san :
  exists w',
    _generateEmail (ret []) [24352; 19977]%N Sample.world
    = inr (Some (lit "zhangsan906@qq.com"), w').
Proof. eexists. vm_compute. reflexivity. Qed.
